(** * Dagor: bitboards, move generation, make/unmake, evaluation

    A shallow embedding of the chess move-generation core
    (bitboard.h, game_state.cpp, eval.cpp) and the properties its
    specification states about it.

    Conventions.
    - A [std::uint64_t] is a [Z] in [0, 2^64); every operation that can
      leave that range is wrapped explicitly ([wrap64]).
    - C++ leaves a shift by a negative count or by 64 and more, a count of
      trailing zeros of 0 and an out-of-bounds index undefined.  Such
      operations return [None]; every function that may reach one lives in
      the [option] monad ([x ← e; k]).
    - Exceptions ([throw]) are kept apart from undefined behaviour: the
      parsing functions return an [outcome].
    - Squares, files and ranks are integers ([Z]); [types.h] and
      [game_state.h] are not among the sources, what is used of them is
      modelled from the specification and marked as such.
    - game_state.cpp calls the operations of a bitboard [isEmpty], [isSet],
      [setSquare], [unsetSquare] and [populationCount]; bitboard.h declares
      them as [is_empty], [is_set], [set_bit], [unset_bit] and [popcount].
      The definitions keep the names of bitboard.h. *)

From stdpp Require Import prelude gmap strings sorting.
From Stdlib Require Import Ascii.
Local Open Scope Z_scope.

(** ** 64-bit words *)

Definition all_bits : Z := 0xffffffffffffffff.

(** Truncation of a mathematical integer to [std::uint64_t]. *)
Definition wrap64 (x : Z) : Z := Z.land x all_bits.

(** [x << n] on [std::uint64_t]: undefined unless [0 <= n < 64]. *)
Definition shl64 (x n : Z) : option Z :=
  if bool_decide (0 ≤ n < 64) then Some (wrap64 (Z.shiftl x n)) else None.

(** [x >> n] on [std::uint64_t]: undefined unless [0 <= n < 64]. *)
Definition shr64 (x n : Z) : option Z :=
  if bool_decide (0 ≤ n < 64) then Some (Z.shiftr x n) else None.

(** [~x] on [std::uint64_t]. *)
Definition lnot64 (x : Z) : Z := wrap64 (Z.lnot x).

Fixpoint pos_popcount (p : positive) : Z :=
  match p with
  | xH => 1
  | xO q => pos_popcount q
  | xI q => 1 + pos_popcount q
  end.

(** [__builtin_popcountll]. *)
Definition popcountll (x : Z) : Z :=
  match x with
  | Zpos p => pos_popcount p
  | _ => 0
  end.

Fixpoint pos_ctz (p : positive) : Z :=
  match p with
  | xO q => 1 + pos_ctz q
  | _ => 0
  end.

(** [__builtin_ctzll]: undefined at 0. *)
Definition ctzll (x : Z) : option Z :=
  match x with
  | Zpos p => Some (pos_ctz p)
  | _ => None
  end.

(** ** Coordinates (types.h) *)

Module Coord.
(** Modelled from the spec: [Coord] (types.h); files and ranks run from 0
    to 7. *)
Definition width : Z := 8.
Definition inRange (c : Z) : bool := bool_decide (0 ≤ c < 8).
End Coord.

Module Color.
(** Modelled from the spec: [Color] (types.h); "two values: white (0),
    black (1).  Operation opponent(c) = 1 - c". *)
Inductive t := white | black.
#[global] Instance eq_dec : EqDecision t.
Proof. solve_decision. Defined.
Definition opponent (c : t) : t :=
  match c with white => black | black => white end.
End Color.

Module Piece.
(** Modelled from the spec: [Piece] (types.h); "six values: pawn, knight,
    bishop, rook, queen, king, plus empty.  An ordering non_king = [pawn,
    knight, bishop, rook, queen] is used for iteration". *)
Inductive t := pawn | knight | bishop | rook | queen | king | empty.
#[global] Instance eq_dec : EqDecision t.
Proof. solve_decision. Defined.
Definition all : list t := [pawn; knight; bishop; rook; queen; king].
Definition nonKing : list t := [pawn; knight; bishop; rook; queen].
(** Position of the kind in the piece-square tables of eval.cpp
    (pawn block first, king block last). *)
Definition index (p : t) : Z :=
  match p with
  | pawn => 0 | knight => 1 | bishop => 2 | rook => 3
  | queen => 4 | king => 5 | empty => 6
  end.
Definition inRange (p : t) : bool := bool_decide (p ≠ empty).
End Piece.

Module Square.
(** Modelled from the spec: [Square] (types.h); "an integer in [0,63];
    file = square mod 8, rank = square / 8.  a1=0, h1=7, a8=56, h8=63". *)
Definition size : Z := 64.
Definition north : Z := 8.
Definition south : Z := -8.
(** Modelled from the spec: "a sentinel no_square (value 64 or similar)". *)
Definition noSquare : Z := 64.
Definition inRange (s : Z) : bool := bool_decide (0 ≤ s < 64).
Definition file (s : Z) : Z := s `mod` 8.
Definition rank (s : Z) : Z := s `div` 8.
Definition index (f r : Z) : Z := r * 8 + f.
(** Modelled from the spec: "reverse_for_color(s, c): identity for white,
    vertical mirror for black". *)
Definition reverseForColor (s : Z) (c : Color.t) : Z :=
  match c with
  | Color.white => s
  | Color.black => index (file s) (7 - rank s)
  end.

Definition a1 : Z := 0.
Definition c1 : Z := 2.
Definition d1 : Z := 3.
Definition e1 : Z := 4.
Definition f1 : Z := 5.
Definition g1 : Z := 6.
Definition h1 : Z := 7.
Definition a8 : Z := 56.
Definition c8 : Z := 58.
Definition d8 : Z := 59.
Definition e8 : Z := 60.
Definition f8 : Z := 61.
Definition g8 : Z := 62.
Definition h8 : Z := 63.
End Square.

(** ** bitboard.h *)

Module BitBoards.

Definition BitBoard := Z.

Definition is_empty (b : BitBoard) : bool := bool_decide (b = 0).

(** [board & (1ULL << square)], converted to [bool]. *)
Definition is_set (b : BitBoard) (square : Z) : option bool :=
  m ← shl64 1 square; Some (bool_decide (Z.land b m ≠ 0)).

Definition set_bit (b : BitBoard) (square : Z) : option BitBoard :=
  m ← shl64 1 square; Some (Z.lor b m).

Definition unset_bit (b : BitBoard) (square : Z) : option BitBoard :=
  m ← shl64 1 square; Some (Z.land b (lnot64 m)).

(** [set_bit_if_index_valid]: the square is added when both coordinates are
    on the board; otherwise nothing happens. *)
Definition set_bit_if_index_valid (b : BitBoard) (file rank : Z)
  : option BitBoard :=
  if Coord.inRange file && Coord.inRange rank
  then set_bit b (Square.index file rank)
  else Some b.

Definition popcount (b : BitBoard) : Z := popcountll b.

Definition findFirstSet (b : BitBoard) : option Z := ctzll b.

Module Iterator.
(** [operator*]. *)
Definition deref (board : Z) : option Z := ctzll board.

(** [operator++]. *)
Definition incr (board : Z) : option Z :=
  index ← deref board;
  if bool_decide (63 ≤ index) then Some 0
  else upper ← shl64 all_bits (index + 1); Some (Z.land board upper).
End Iterator.

(** The range-for loop [for (Square::t s : b)]: from [begin()] (the board
    itself) the iterator is dereferenced and incremented until it equals
    [end()] (the empty board).  [fuel] bounds the number of rounds. *)
Fixpoint iterate (fuel : nat) (it : Z) : option (list Z) :=
  if bool_decide (it = 0) then Some []
  else match fuel with
       | O => None
       | S fuel' =>
           s ← Iterator.deref it;
           next ← Iterator.incr it;
           rest ← iterate fuel' next;
           Some (s :: rest)
       end.

Definition squares (b : BitBoard) : option (list Z) := iterate 64 b.

Definition single (square : Z) : option BitBoard := shl64 1 square.

Definition wholeFile (file : Z) : option BitBoard :=
  shl64 0x101010101010101 file.

Definition wholeRank (rank : Z) : option BitBoard :=
  shl64 0xff (rank * Coord.width).

Definition rightOf (file : Z) : BitBoard :=
  match file with
  | 0 => 0xfefefefefefefefe
  | 1 => 0xfcfcfcfcfcfcfcfc
  | 2 => 0xf8f8f8f8f8f8f8f8
  | 3 => 0xf0f0f0f0f0f0f0f0
  | 4 => 0xe0e0e0e0e0e0e0e0
  | 5 => 0xc0c0c0c0c0c0c0c0
  | 6 => 0x8080808080808080
  | 7 => 0
  | _ => 0
  end.

Definition leftOf (file : Z) : BitBoard := lnot64 (rightOf (file - 1)).

Definition above (rank : Z) : option BitBoard :=
  shl64 all_bits ((rank + 1) * Coord.width).

Definition below (rank : Z) : option BitBoard :=
  shr64 all_bits ((rank - 1) * Coord.width).

Definition edgesOnly : BitBoard := 0xff818181818181ff.
Definition all : BitBoard := all_bits.

End BitBoards.

(** ** movetables.h *)

Module MoveTables.

(** The bit of the square at [file], [rank], or nothing when the
    coordinates leave the board. *)
Definition bit_at (file rank : Z) : Z :=
  if Coord.inRange file && Coord.inRange rank
  then Z.shiftl 1 (Square.index file rank) else 0.

Definition leaper (square : Z) (deltas : list (Z * Z)) : Z :=
  foldr (λ d acc, Z.lor (bit_at (Square.file square + d.1)
                                (Square.rank square + d.2)) acc) 0 deltas.

(** Modelled from the spec: the table data ([pawnAttacks]) is not among the
    sources.  "Leaper tables: generated by straightforward geometry with
    boundary clipping.  Pawn attacks are one-diagonal-forward only (not the
    forward push)". *)
Definition pawnAttacks (color : Color.t) (square : Z) : option Z :=
  if Square.inRange square then
    Some (match color with
          | Color.white => leaper square [(-1, 1); (1, 1)]
          | Color.black => leaper square [(-1, -1); (1, -1)]
          end)
  else None.

(** Modelled from the spec: the table data ([knightMoves]) is not among the
    sources; geometry with boundary clipping. *)
Definition knightMoves (square : Z) : option Z :=
  if Square.inRange square then
    Some (leaper square [(1, 2); (2, 1); (2, -1); (1, -2);
                         (-1, -2); (-2, -1); (-2, 1); (-1, 2)])
  else None.

(** Modelled from the spec: the table data ([kingMoves]) is not among the
    sources; geometry with boundary clipping, no castling moves. *)
Definition kingMoves (square : Z) : option Z :=
  if Square.inRange square then
    Some (leaper square [(0, 1); (1, 1); (1, 0); (1, -1);
                         (0, -1); (-1, -1); (-1, 0); (-1, 1)])
  else None.

(** One ray from ([file], [rank]) in direction ([df], [dr]): "stopping at
    and including the first blocker". *)
Fixpoint ray (steps : nat) (file rank df dr : Z) (blockers : Z) : Z :=
  match steps with
  | O => 0
  | S steps' =>
      let f := file + df in
      let r := rank + dr in
      if Coord.inRange f && Coord.inRange r then
        if Z.testbit blockers (Square.index f r)
        then bit_at f r
        else Z.lor (bit_at f r) (ray steps' f r df dr blockers)
      else 0
  end.

Definition rays (square : Z) (dirs : list (Z * Z)) (blockers : Z) : Z :=
  foldr (λ d acc, Z.lor (ray 7 (Square.file square) (Square.rank square)
                             d.1 d.2 blockers) acc) 0 dirs.

(** Modelled from the spec: [rookHashes[square].lookUp(blockers)]; the magic
    numbers and [slidingMoves] are not among the sources.  "The result is
    the set of squares reachable along the piece's rays, stopping at and
    including the first blocker on each ray." *)
Definition rookLookUp (square : Z) (blockers : Z) : option Z :=
  if Square.inRange square
  then Some (rays square [(0, 1); (1, 0); (0, -1); (-1, 0)] blockers)
  else None.

(** Modelled from the spec: [bishopHashes[square].lookUp(blockers)], as
    [rookLookUp] along the diagonals. *)
Definition bishopLookUp (square : Z) (blockers : Z) : option Z :=
  if Square.inRange square
  then Some (rays square [(1, 1); (1, -1); (-1, -1); (-1, 1)] blockers)
  else None.

(** [class BlockerHash] of movetables.h.  [unsigned] has 32 bits. *)
Module BlockerHash.
Record t := mk {
  blockerMask : Z;
  magic : Z;
  downShift : Z;
  tableOffset : Z
}.

(** Truncation to [unsigned]. *)
Definition wrap32 (x : Z) : Z := x `mod` 2 ^ 32.

(** [hash]: the relevant blockers times the magic number, modulo 2^64,
    shifted down, plus the offset of the square's entries. *)
Definition hash (h : t) (blockers : Z) : option Z :=
  let blockers := Z.land blockers (blockerMask h) in
  let product := wrap64 (blockers * magic h) in
  shifted ← shr64 product (downShift h);
  Some (wrap32 (wrap32 shifted + tableOffset h)).

(** [lookUp]: [slidingMoves[hash(blockers)]]; the table itself is not among
    the sources and is a parameter. *)
Definition lookUp (slidingMoves : list Z) (h : t) (blockers : Z) : option Z :=
  index ← hash h blockers; slidingMoves !! Z.to_nat index.
End BlockerHash.

End MoveTables.

(** ** game_state.h: moves, undo records, positions *)

(** Modelled from the spec: [Move] (game_state.h); "record with fields
    {start, end, promotion}.  Equality is structural".  The member [flags]
    that [Move::Move] sets to 0 is 0 in every move. *)
Record Move := mkMove { start : Z; end_ : Z; promotion : Piece.t }.

#[global] Instance Move_eq_dec : EqDecision Move.
Proof. solve_decision. Defined.

(** [Move{start, end}]: no promotion. *)
Definition plainMove (s e : Z) : Move := mkMove s e Piece.empty.

(** Modelled from the spec: the four "canonical king-move representations"
    of castling (declared in game_state.h). *)
Definition wkCastle : Move := plainMove Square.e1 Square.g1.
Definition wqCastle : Move := plainMove Square.e1 Square.c1.
Definition bkCastle : Move := plainMove Square.e8 Square.g8.
Definition bqCastle : Move := plainMove Square.e8 Square.c8.

Module CastlingRights.
(** Modelled from the spec: a "4-bit flag set"; the bit of each right is
    declared in types.h. *)
Definition whiteKingSide : Z := 1.
Definition whiteQueenSide : Z := 2.
Definition blackKingSide : Z := 4.
Definition blackQueenSide : Z := 8.
(** [rights & flag], converted to [bool]. *)
Definition has (rights flag : Z) : bool :=
  bool_decide (Z.land rights flag ≠ 0).
(** [rights &= ~flag]. *)
Definition clear (rights flag : Z) : Z := Z.land rights (Z.lnot flag).
End CastlingRights.

Module MoveFlags.
(** Modelled from the spec: [MoveFlags] (types.h); "flags in {none,
    en_passant, castle_WK, castle_WQ, castle_BK, castle_BQ, promotion}". *)
Inductive t :=
| none | enPassant | whiteKingSide | whiteQueenSide
| blackKingSide | blackQueenSide | promotion.
#[global] Instance eq_dec : EqDecision t.
Proof. solve_decision. Defined.
End MoveFlags.

Module UndoInfo.
(** Modelled from the spec: the members of [UndoInfo] (game_state.h), as its
    constructor in game_state.cpp initialises them. *)
Record t := mk {
  piece : Piece.t;
  capture : Piece.t;
  start : Z;
  end_ : Z;
  enPassant : Z;
  castlingRights : Z;
  uneventfulHalfMoves : Z;
  flags : MoveFlags.t
}.
End UndoInfo.

(** Modelled from the spec: "uneventful_half_moves: unsigned integer"; the
    width of the member (game_state.h) is taken to be 8 bits, as the casts
    to [int] before printing suggest. *)
Definition wrap_counter (n : Z) : Z := n `mod` 256.

Module Boards.
(** The six boards of one colour. *)
Record side := mkSide {
  pawns : Z; knights : Z; bishops : Z; rooks : Z; queens : Z; kings : Z
}.

(** Modelled from the spec: "12 BitSet64 boards: one per (color, piece
    kind)". *)
Record t := mk { white : side; black : side }.

Definition of_color (b : t) (color : Color.t) : side :=
  match color with Color.white => white b | Color.black => black b end.

Definition get (b : t) (color : Color.t) (piece : Piece.t) : Z :=
  let s := of_color b color in
  match piece with
  | Piece.pawn => pawns s
  | Piece.knight => knights s
  | Piece.bishop => bishops s
  | Piece.rook => rooks s
  | Piece.queen => queens s
  | Piece.king => kings s
  | Piece.empty => 0
  end.

Definition map_side (f : Z → Z) (s : side) : side :=
  mkSide (f (pawns s)) (f (knights s)) (f (bishops s))
         (f (rooks s)) (f (queens s)) (f (kings s)).

(** Every board changed by [f]. *)
Definition map (f : Z → Z) (b : t) : t :=
  mk (map_side f (white b)) (map_side f (black b)).

Definition update_side (s : side) (piece : Piece.t) (f : Z → Z) : side :=
  match piece with
  | Piece.pawn =>
      mkSide (f (pawns s)) (knights s) (bishops s) (rooks s) (queens s) (kings s)
  | Piece.knight =>
      mkSide (pawns s) (f (knights s)) (bishops s) (rooks s) (queens s) (kings s)
  | Piece.bishop =>
      mkSide (pawns s) (knights s) (f (bishops s)) (rooks s) (queens s) (kings s)
  | Piece.rook =>
      mkSide (pawns s) (knights s) (bishops s) (f (rooks s)) (queens s) (kings s)
  | Piece.queen =>
      mkSide (pawns s) (knights s) (bishops s) (rooks s) (f (queens s)) (kings s)
  | Piece.king =>
      mkSide (pawns s) (knights s) (bishops s) (rooks s) (queens s) (f (kings s))
  | Piece.empty => s
  end.

(** The board of one colour and kind changed by [f]. *)
Definition update (b : t) (color : Color.t) (piece : Piece.t) (f : Z → Z) : t :=
  match color with
  | Color.white => mk (update_side (white b) piece f) (black b)
  | Color.black => mk (white b) (update_side (black b) piece f)
  end.

Definition none : t := mk (mkSide 0 0 0 0 0 0) (mkSide 0 0 0 0 0 0).
End Boards.

Module GameState.

(** Modelled from the spec: the twelve boards, side to move, castling
    rights, en-passant square, half-move counter and the undo journal. *)
Record t := mk {
  boards : Boards.t;
  next : Color.t;
  castlingRights : Z;
  enPassantSquare : Z;
  uneventfulHalfMoves : Z;
  undoStack : list UndoInfo.t
}.

Definition with_boards (st : t) (b : Boards.t) : t :=
  mk b (next st) (castlingRights st) (enPassantSquare st)
     (uneventfulHalfMoves st) (undoStack st).

(** Modelled from the spec: the accessors [us], [them], [forPiece],
    [forColor] and [occupancy] of [GameState] (game_state.h). *)
Definition us (st : t) : Color.t := next st.
Definition them (st : t) : Color.t := Color.opponent (next st).

Definition forPiece (st : t) (piece : Piece.t) (color : Color.t) : Z :=
  Boards.get (boards st) color piece.

Definition forColor (st : t) (color : Color.t) : Z :=
  foldr (λ piece acc, Z.lor (forPiece st piece color) acc) 0 Piece.all.

Definition occupancy (st : t) : Z :=
  Z.lor (forColor st Color.white) (forColor st Color.black).

(** Modelled from the spec: the kind of the piece standing on [square],
    [Piece::empty] for a free square. *)
Definition getPiece (st : t) (square : Z) : option Piece.t :=
  m ← shl64 1 square;
  Some (default Piece.empty
          (find (λ piece, bool_decide
                   (Z.land (Z.lor (forPiece st piece Color.white)
                                  (forPiece st piece Color.black)) m ≠ 0))
                Piece.all)).

(** Modelled from the spec: put a piece on a square.  There is no board for
    [Piece::empty]. *)
Definition set (st : t) (square : Z) (piece : Piece.t) (color : Color.t)
  : option t :=
  m ← shl64 1 square;
  if bool_decide (piece = Piece.empty) then None
  else Some (with_boards st
               (Boards.update (boards st) color piece (λ b, Z.lor b m))).

(** Modelled from the spec: clear a square on every board. *)
Definition unset (st : t) (square : Z) : option t :=
  m ← shl64 1 square;
  Some (with_boards st (Boards.map (λ b, Z.land b (lnot64 m)) (boards st))).

(** game_state.cpp *)

Definition enPassantCapture (enPassantSquare : Z) : Z :=
  if bool_decide (Square.rank enPassantSquare = 2)
  then enPassantSquare + Square.north
  else enPassantSquare + Square.south.

Definition getMoves (st : t) (piece : Piece.t) (color : Color.t)
    (square : Z) (occupancy : Z) : option Z :=
  let result moves := Z.land moves (lnot64 (forColor st color)) in
  match piece with
  | Piece.pawn =>
      let offset := match color with
                    | Color.white => Square.north
                    | Color.black => Square.south
                    end in
      let canDoubleStep :=
        match color with
        | Color.white => bool_decide (Square.rank square = 1)
        | Color.black => bool_decide (Square.rank square = 6)
        end in
      one ← shl64 1 (square + offset);
      let moves := Z.land one (lnot64 occupancy) in
      moves ←
        (if canDoubleStep && negb (BitBoards.is_empty moves) then
           two ← shl64 1 (square + 2 * offset);
           Some (Z.lor moves (Z.land two (lnot64 occupancy)))
         else Some moves);
      attacks ← MoveTables.pawnAttacks color square;
      Some (result (Z.lor moves (Z.land attacks occupancy)))
  | Piece.knight =>
      m ← MoveTables.knightMoves square; Some (result m)
  | Piece.king =>
      m ← MoveTables.kingMoves square; Some (result m)
  | Piece.bishop =>
      m ← MoveTables.bishopLookUp square occupancy; Some (result m)
  | Piece.rook =>
      m ← MoveTables.rookLookUp square occupancy; Some (result m)
  | Piece.queen =>
      b ← MoveTables.bishopLookUp square occupancy;
      r ← MoveTables.rookLookUp square occupancy;
      Some (result (Z.lor b r))
  | Piece.empty => Some 0
  end.

(** The overload without an occupancy argument. *)
Definition getMoves' (st : t) (piece : Piece.t) (color : Color.t)
    (square : Z) : option Z :=
  getMoves st piece color square (occupancy st).

Definition getAttacks (st : t) (square : Z) (color : Color.t)
    (occupancy : Z) : option Z :=
  foldl (λ attackers piece,
           attackers ← attackers;
           m ← getMoves st piece color square occupancy;
           Some (Z.lor attackers
                   (Z.land m (forPiece st piece (Color.opponent color)))))
        (Some 0) Piece.all.

Definition getAttacks' (st : t) (square : Z) (color : Color.t) : option Z :=
  getAttacks st square color (occupancy st).

Definition isCheck (st : t) : option bool :=
  kingSquare ← BitBoards.findFirstSet (forPiece st Piece.king (us st));
  attacks ← getAttacks' st kingSquare (us st);
  Some (negb (BitBoards.is_empty attacks)).


(** [UndoInfo::UndoInfo(const GameState &state, const Move &move)]. *)
Definition makeUndoInfo (st : t) (move : Move) : option UndoInfo.t :=
  piece ← getPiece st (start move);
  capture ← getPiece st (end_ move);
  let info capture flags :=
    UndoInfo.mk piece capture (start move) (end_ move) (enPassantSquare st)
      (castlingRights st) (uneventfulHalfMoves st) flags in
  Some
    (if bool_decide (enPassantSquare st = end_ move) &&
        bool_decide (piece = Piece.pawn)
     then info Piece.pawn MoveFlags.enPassant
     else if bool_decide (move = wkCastle) && bool_decide (piece = Piece.king)
     then info capture MoveFlags.whiteKingSide
     else if bool_decide (move = wqCastle) && bool_decide (piece = Piece.king)
     then info capture MoveFlags.whiteQueenSide
     else if bool_decide (move = bkCastle) && bool_decide (piece = Piece.king)
     then info capture MoveFlags.blackKingSide
     else if bool_decide (move = bqCastle) && bool_decide (piece = Piece.king)
     then info capture MoveFlags.blackQueenSide
     else if bool_decide (promotion move ≠ Piece.empty)
     then info capture MoveFlags.promotion
     else info capture MoveFlags.none).

(** The castling rights after a move from [s] to [e]. *)
Definition updateCastlingRights (rights s e : Z) : Z :=
  let clearIf (c : bool) flag rights :=
    if c then CastlingRights.clear rights flag else rights in
  let on x y := bool_decide (x = y) in
  let rights := clearIf (on s Square.e1 || on s Square.h1 || on e Square.h1)
                        CastlingRights.whiteKingSide rights in
  let rights := clearIf (on s Square.e1 || on s Square.a1 || on e Square.a1)
                        CastlingRights.whiteQueenSide rights in
  let rights := clearIf (on s Square.e8 || on s Square.h8 || on e Square.h8)
                        CastlingRights.blackKingSide rights in
  clearIf (on s Square.e8 || on s Square.a8 || on e Square.a8)
          CastlingRights.blackQueenSide rights.

(** The rook's part of a castling move. *)
Definition moveRook (st : t) (from to : Z) (color : Color.t) : option t :=
  st ← unset st from; set st to Piece.rook color.

(** The en-passant square after the move of [info] (the [if] / [else if] /
    [else] on the double pawn steps in [executeMove]). *)
Definition nextEnPassant (st : t) (info : UndoInfo.t) : option Z :=
  let doubleStep (from to : Z) (behind : Z) : option bool :=
    if bool_decide (UndoInfo.piece info = Piece.pawn) &&
       bool_decide (Square.rank (UndoInfo.start info) = from) &&
       bool_decide (Square.rank (UndoInfo.end_ info) = to)
    then m ← getMoves' st Piece.pawn (us st) behind;
         Some (negb (BitBoards.is_empty m))
    else Some false in
  north ← doubleStep 1 3 (UndoInfo.start info + Square.north);
  if (north : bool) then Some (UndoInfo.start info + Square.north)
  else
    south ← doubleStep 6 4 (UndoInfo.start info + Square.south);
    Some (if (south : bool) then UndoInfo.start info + Square.south
          else Square.noSquare).

(** The changes [executeMove] makes to the boards, from the removal of the
    captured piece to the arrival of the moved one. *)
Definition applyToBoards (st : t) (info : UndoInfo.t) (promotion : Piece.t)
  : option t :=
  st ← (if bool_decide (UndoInfo.capture info ≠ Piece.empty)
        then unset st (UndoInfo.end_ info) else Some st);
  st ← match UndoInfo.flags info with
       | MoveFlags.enPassant =>
           unset st (enPassantCapture (UndoInfo.enPassant info))
       | MoveFlags.whiteQueenSide => moveRook st Square.a1 Square.d1 (us st)
       | MoveFlags.whiteKingSide => moveRook st Square.h1 Square.f1 (us st)
       | MoveFlags.blackQueenSide => moveRook st Square.a8 Square.d8 (us st)
       | MoveFlags.blackKingSide => moveRook st Square.h8 Square.f8 (us st)
       | _ => Some st
       end;
  st ← unset st (UndoInfo.start info);
  if bool_decide (promotion ≠ Piece.empty)
  then set st (UndoInfo.end_ info) promotion (us st)
  else set st (UndoInfo.end_ info) (UndoInfo.piece info) (us st).

Definition executeMove (st : t) (move : Move) : option t :=
  info ← makeUndoInfo st move;
  let st := mk (boards st) (next st) (castlingRights st) (enPassantSquare st)
               (uneventfulHalfMoves st) (info :: undoStack st) in
  let halfMoves :=
    if bool_decide (UndoInfo.piece info ≠ Piece.pawn) &&
       bool_decide (UndoInfo.capture info = Piece.empty)
    then wrap_counter (uneventfulHalfMoves st + 1) else 0 in
  let rights := updateCastlingRights (castlingRights st)
                  (UndoInfo.start info) (UndoInfo.end_ info) in
  let st := mk (boards st) (next st) rights (enPassantSquare st)
               halfMoves (undoStack st) in
  ep ← nextEnPassant st info;
  let st := mk (boards st) (next st) (castlingRights st) ep
               (uneventfulHalfMoves st) (undoStack st) in
  st ← applyToBoards st info (promotion move);
  Some (mk (boards st) (them st) (castlingRights st) (enPassantSquare st)
           (uneventfulHalfMoves st) (undoStack st)).

(** The changes [undoMove] makes to the boards. *)
Definition revertBoards (st : t) (undo : UndoInfo.t) : option t :=
  st ← unset st (UndoInfo.end_ undo);
  st ← (if bool_decide (UndoInfo.flags undo ≠ MoveFlags.enPassant) &&
           bool_decide (UndoInfo.capture undo ≠ Piece.empty)
        then set st (UndoInfo.end_ undo) (UndoInfo.capture undo) (them st)
        else Some st);
  st ← match UndoInfo.flags undo with
       | MoveFlags.enPassant =>
           set st (enPassantCapture (UndoInfo.enPassant undo))
               Piece.pawn (them st)
       | MoveFlags.whiteQueenSide => moveRook st Square.d1 Square.a1 (us st)
       | MoveFlags.whiteKingSide => moveRook st Square.f1 Square.h1 (us st)
       | MoveFlags.blackQueenSide => moveRook st Square.d8 Square.a8 (us st)
       | MoveFlags.blackKingSide => moveRook st Square.f8 Square.h8 (us st)
       | _ => Some st
       end;
  if bool_decide (UndoInfo.flags undo = MoveFlags.promotion)
  then set st (UndoInfo.start undo) Piece.pawn (us st)
  else set st (UndoInfo.start undo) (UndoInfo.piece undo) (us st).

Definition undoMove (st : t) : option t :=
  match undoStack st with
  | [] => None
  | undo :: stack =>
      let st := mk (boards st) (them st) (UndoInfo.castlingRights undo)
                   (UndoInfo.enPassant undo)
                   (UndoInfo.uneventfulHalfMoves undo) stack in
      revertBoards st undo
  end.

(** A position with no piece on the board, white to move. *)
Definition blank : t := mk Boards.none Color.white 0 Square.noSquare 0 [].

(** Modelled from the spec: the default-constructed [GameState{}] is the
    starting position of chess (20 legal moves, all four castling rights,
    no en-passant square). *)
Definition initial : t :=
  mk (Boards.mk
        (Boards.mkSide 0xff00 0x42 0x24 0x81 0x08 0x10)
        (Boards.mkSide 0x00ff000000000000 0x4200000000000000
           0x2400000000000000 0x8100000000000000
           0x0800000000000000 0x1000000000000000))
     Color.white 15 Square.noSquare 0 [].

End GameState.

(** ** The legal move generator (struct MoveGenerator) *)

Module MoveGenerator.

(** The mutable members; [myColor], [opponentColor], [kingSquare] and
    [state] are constant and are parameters of the member functions. *)
Record t := mk {
  attacksOnKing : Z;
  targets : Z;
  pins : Z;
  pinRays : gmap Z Z;
  moves : list Move
}.

Definition with_moves (g : t) (ms : list Move) : t :=
  mk (attacksOnKing g) (targets g) (pins g) (pinRays g) ms.
Definition with_targets (g : t) (tg : Z) : t :=
  mk (attacksOnKing g) tg (pins g) (pinRays g) (moves g).

(** [attacksOnKing] is a [std::uint8_t]. *)
Definition wrap8 (n : Z) : Z := n `mod` 256.

(** [pinRays[square]]: a missing key reads as the empty board. *)
Definition pinRay (g : t) (square : Z) : Z := default 0 (pinRays g !! square).

Section Generator.
Variable state : GameState.t.
Variable kingSquare : Z.

Definition myColor : Color.t := GameState.next state.
Definition opponentColor : Color.t := Color.opponent (GameState.next state).

Definition enterMoves (g : t) (start : Z) (piece : Piece.t) (ends : Z)
  : option t :=
  l ← BitBoards.squares (Z.land ends (targets g));
  Some (with_moves g
          (moves g ++
           flat_map (λ e,
             if bool_decide (piece = Piece.pawn) &&
                (bool_decide (myColor = Color.white) &&
                   bool_decide (Square.rank e = 7)
                 || bool_decide (myColor = Color.black) &&
                   bool_decide (Square.rank e = 0))
             then [mkMove start e Piece.knight; mkMove start e Piece.bishop;
                   mkMove start e Piece.rook; mkMove start e Piece.queen]
             else [plainMove start e]) l)).

Definition handleLeaperAttacks (piece : Piece.t) (g : t) : option t :=
  m ← GameState.getMoves' state piece myColor kingSquare;
  let attacks := Z.land m (GameState.forPiece state piece opponentColor) in
  if negb (BitBoards.is_empty attacks) then
    Some (mk (wrap8 (attacksOnKing g + BitBoards.popcount attacks))
             (Z.land (targets g) attacks) (pins g) (pinRays g) (moves g))
  else Some g.

Definition handleSliderRay (opponentSliders ray : Z) (g : t) : option t :=
  let attackers := Z.land opponentSliders ray in
  if BitBoards.is_empty attackers then Some g
  else
    let ourBlockers := Z.land ray (GameState.forColor state myColor) in
    if BitBoards.is_empty ourBlockers then
      Some (mk (wrap8 (attacksOnKing g + BitBoards.popcount attackers))
               (Z.land (targets g) ray) (pins g) (pinRays g) (moves g))
    else if bool_decide (BitBoards.popcount ourBlockers = 1) &&
            bool_decide (attacksOnKing g ≤ 1) then
      pinSquare ← BitBoards.findFirstSet ourBlockers;
      Some (mk (attacksOnKing g) (targets g) (Z.lor (pins g) ourBlockers)
               (<[pinSquare := ray]> (pinRays g)) (moves g))
    else Some g.

Definition handleSliderAttacks (g : t) : option t :=
  let bishopQueen :=
    Z.lor (GameState.forPiece state Piece.bishop opponentColor)
          (GameState.forPiece state Piece.queen opponentColor) in
  let rookQueen :=
    Z.lor (GameState.forPiece state Piece.rook opponentColor)
          (GameState.forPiece state Piece.queen opponentColor) in
  rookAttacks ← MoveTables.rookLookUp kingSquare
                  (GameState.forColor state opponentColor);
  above ← BitBoards.above (Square.rank kingSquare);
  let upper := Z.land rookAttacks above in
  let left := Z.land rookAttacks (BitBoards.leftOf (Square.file kingSquare)) in
  below ← BitBoards.below (Square.rank kingSquare);
  let lower := Z.land rookAttacks below in
  let right := Z.land rookAttacks (BitBoards.rightOf (Square.file kingSquare)) in
  g ← handleSliderRay rookQueen upper g;
  g ← handleSliderRay rookQueen left g;
  g ← handleSliderRay rookQueen lower g;
  g ← handleSliderRay rookQueen right g;
  bishopAttacks ← MoveTables.bishopLookUp kingSquare
                    (GameState.forColor state opponentColor);
  above ← BitBoards.above (Square.rank kingSquare);
  let upperLeft :=
    Z.land (Z.land bishopAttacks above)
           (BitBoards.leftOf (Square.file kingSquare)) in
  above ← BitBoards.above (Square.rank kingSquare);
  let upperRight :=
    Z.land (Z.land bishopAttacks above)
           (BitBoards.rightOf (Square.file kingSquare)) in
  below ← BitBoards.below (Square.rank kingSquare);
  let lowerLeft :=
    Z.land (Z.land bishopAttacks below)
           (BitBoards.leftOf (Square.file kingSquare)) in
  below ← BitBoards.below (Square.rank kingSquare);
  let lowerRight :=
    Z.land (Z.land bishopAttacks below)
           (BitBoards.rightOf (Square.file kingSquare)) in
  g ← handleSliderRay bishopQueen upperLeft g;
  g ← handleSliderRay bishopQueen upperRight g;
  g ← handleSliderRay bishopQueen lowerLeft g;
  handleSliderRay bishopQueen lowerRight g.

(** One piece kind of the loop in [standardNonPins]. *)
Definition standardNonPinsFor (piece : Piece.t) (g : t) : option t :=
  let positions := GameState.forPiece state piece myColor in
  let notPinned := Z.land positions (lnot64 (pins g)) in
  starts ← BitBoards.squares notPinned;
  g ← foldl (λ g start,
               g ← g;
               ends ← GameState.getMoves' state piece myColor start;
               enterMoves g start piece ends)
            (Some g) starts;
  let pinned := Z.land positions (pins g) in
  starts ← BitBoards.squares pinned;
  foldl (λ g start,
           g ← g;
           let ray := pinRay g start in
           one ← BitBoards.single start;
           if negb (BitBoards.is_empty (Z.land ray one)) then
             ends ← GameState.getMoves' state piece myColor start;
             enterMoves g start piece (Z.land ends ray)
           else Some g)
        (Some g) starts.

Definition standardNonPins (g : t) : option t :=
  foldl (λ g piece, g ← g; standardNonPinsFor piece g)
        (Some g) Piece.nonKing.

(** One of the four castling tests: the right is held, the squares
    between king and rook are empty, the two squares the king crosses
    are not attacked ([&&] evaluates its right operand only when the left
    one holds). *)
Definition castle (flag empty : Z) (sq1 sq2 : Z) (m : Move) (g : t)
  : option t :=
  if CastlingRights.has (GameState.castlingRights state) flag then
    if BitBoards.is_empty (Z.land (GameState.occupancy state) empty) then
      a1 ← GameState.getAttacks' state sq1 myColor;
      if BitBoards.is_empty a1 then
        a2 ← GameState.getAttacks' state sq2 myColor;
        if BitBoards.is_empty a2
        then Some (with_moves g (moves g ++ [m]))
        else Some g
      else Some g
    else Some g
  else Some g.

Definition generateCastling (g : t) : option t :=
  let wqEmpty := 0xe in
  let wkEmpty := 0x60 in
  let bqEmpty := 0xe00000000000000 in
  let bkEmpty := 0x6000000000000000 in
  match myColor with
  | Color.white =>
      g ← castle CastlingRights.whiteQueenSide wqEmpty
             Square.d1 Square.c1 wqCastle g;
      castle CastlingRights.whiteKingSide wkEmpty
             Square.f1 Square.g1 wkCastle g
  | Color.black =>
      g ← castle CastlingRights.blackQueenSide bqEmpty
             Square.d8 Square.c8 bqCastle g;
      castle CastlingRights.blackKingSide bkEmpty
             Square.f8 Square.g8 bkCastle g
  end.

Definition enPassantCaptures (g : t) : option t :=
  let ep := GameState.enPassantSquare state in
  m ← GameState.getMoves' state Piece.pawn opponentColor ep;
  let electablePawns :=
    Z.land m (GameState.forPiece state Piece.pawn myColor) in
  let capturePawn := GameState.enPassantCapture ep in
  isTarget ← BitBoards.is_set (targets g) capturePawn;
  g ← (if (isTarget : bool) then
         tg ← BitBoards.set_bit (targets g) ep; Some (with_targets g tg)
       else Some g);
  if bool_decide (Square.rank kingSquare = Square.rank capturePawn) &&
     bool_decide (BitBoards.popcount electablePawns = 1) then
    attackerSquare ← BitBoards.findFirstSet electablePawns;
    occupancy ← BitBoards.unset_bit (GameState.occupancy state) capturePawn;
    rays ← GameState.getMoves state Piece.rook myColor kingSquare occupancy;
    let ray :=
      Z.land rays (if bool_decide (kingSquare < attackerSquare)
                   then BitBoards.rightOf kingSquare
                   else BitBoards.leftOf kingSquare) in
    one ← BitBoards.single ep;
    enterMoves g attackerSquare Piece.pawn (Z.land one ray)
  else
    starts ← BitBoards.squares electablePawns;
    foldl (λ g start,
             g ← g;
             pinned ← BitBoards.is_set (pins g) start;
             one ← BitBoards.single ep;
             if (pinned : bool)
             then enterMoves g start Piece.pawn (Z.land one (pinRay g start))
             else enterMoves g start Piece.pawn one)
          (Some g) starts.

Definition generatePlainKingMoves (g : t) : option t :=
  withoutKing ← BitBoards.unset_bit (GameState.occupancy state) kingSquare;
  ends ← GameState.getMoves' state Piece.king myColor kingSquare;
  l ← BitBoards.squares ends;
  foldl (λ g e,
           g ← g;
           attacks ← GameState.getAttacks state e myColor withoutKing;
           if BitBoards.is_empty attacks
           then Some (with_moves g (moves g ++ [plainMove kingSquare e]))
           else Some g)
        (Some g) l.

(** The body of the constructor. *)
Definition run : option t :=
  let g := mk 0 BitBoards.all 0 ∅ [] in
  g ← handleLeaperAttacks Piece.pawn g;
  g ← handleLeaperAttacks Piece.knight g;
  g ← handleSliderAttacks g;
  g ← (if bool_decide (attacksOnKing g ≤ 1) then
         g ← standardNonPins g;
         g ← (if bool_decide (attacksOnKing g = 0)
              then generateCastling g else Some g);
         if Square.inRange (GameState.enPassantSquare state)
         then enPassantCaptures g else Some g
       else Some g);
  generatePlainKingMoves g.

End Generator.

(** [MoveGenerator(const GameState &state)]. *)
Definition make (state : GameState.t) : option t :=
  kingSquare ← BitBoards.findFirstSet
                 (GameState.forPiece state Piece.king (GameState.next state));
  run state kingSquare.

End MoveGenerator.

Definition generateLegalMoves (state : GameState.t) : option (list Move) :=
  g ← MoveGenerator.make state; Some (MoveGenerator.moves g).

(** ** Text input: [Move::Move(std::string const&)] and [parseFenString] *)

(** How a call that may [throw] ends.  [Thrown] carries the object as
    the exception leaves it behind. *)
Inductive exn :=
| UnknownCharacter (c : ascii)
| BadSquareName (file rank : ascii)
| StoiInvalidArgument
| StoiOutOfRange.

Inductive outcome (A : Type) :=
| Returned (a : A)
| Thrown (e : exn) (a : A)
| Undefined.
Arguments Returned {A} a.
Arguments Thrown {A} e a.
Arguments Undefined {A}.

Definition code (c : ascii) : Z := Z.of_N (N_of_ascii c).

(** [s[i]] on a [std::string]: the terminating NUL at [i = s.size()],
    undefined beyond. *)
Definition char_at (s : list ascii) (i : nat) : option ascii :=
  match s !! i with
  | Some c => Some c
  | None => if bool_decide (i = length s) then Some zero else None
  end.

Module Names.
(** Modelled from the spec: [Piece::byName] (types.h).  The letters
    [pnbrqk] in either case; any other character yields a kind that is
    not [Piece::inRange], which is what [parseFenString] tests for. *)
Definition pieceByName (c : ascii) : Piece.t :=
  match c with
  | "p" | "P" => Piece.pawn
  | "n" | "N" => Piece.knight
  | "b" | "B" => Piece.bishop
  | "r" | "R" => Piece.rook
  | "q" | "Q" => Piece.queen
  | "k" | "K" => Piece.king
  | _ => Piece.empty
  end%char.

(** Modelled from the spec: [Color::pieceColorFromChar] (types.h);
    "[PNBRQK] white, [pnbrqk] black". *)
Definition pieceColorFromChar (c : ascii) : Color.t :=
  if bool_decide (code "A" ≤ code c ≤ code "Z")
  then Color.white else Color.black.

(** Modelled from the spec: [Square::byName] (types.h); "square letters
    outside a-h / 1-8" are an error ([None]). *)
Definition squareByName (file rank : ascii) : option Z :=
  if bool_decide (code "a" ≤ code file ≤ code "h") &&
     bool_decide (code "1" ≤ code rank ≤ code "8")
  then Some (Square.index (code file - code "a") (code rank - code "1"))
  else None.
End Names.

(** [Move::Move(std::string const &algebraic)].  A constructor that throws
    leaves no object: [Thrown] carries the members as initialised so far. *)
Definition Move_of_chars (algebraic : list ascii) : outcome Move :=
  let m := mkMove 0 0 Piece.empty in
  match char_at algebraic 0, char_at algebraic 1 with
  | Some c0, Some c1 =>
      match Names.squareByName c0 c1 with
      | None => Thrown (BadSquareName c0 c1) m
      | Some s =>
          let m := mkMove s 0 Piece.empty in
          match char_at algebraic 2, char_at algebraic 3 with
          | Some c2, Some c3 =>
              match Names.squareByName c2 c3 with
              | None => Thrown (BadSquareName c2 c3) m
              | Some e =>
                  if bool_decide (4 < length algebraic)%nat then
                    match char_at algebraic 4 with
                    | Some c4 => Returned (mkMove s e (Names.pieceByName c4))
                    | None => Undefined
                    end
                  else Returned (mkMove s e Piece.empty)
              end
          | _, _ => Undefined
          end
      end
  | _, _ => Undefined
  end.

Definition Move_of_string (algebraic : string) : outcome Move :=
  Move_of_chars (String.list_ascii_of_string algebraic).

Definition is_space (c : ascii) : bool :=
  bool_decide (code c = 32) || bool_decide (9 ≤ code c ≤ 13).

(** [splitFenFields]: the tokens [iss >> field] extracts, in order. *)
Fixpoint split_fields (cur : list ascii) (s : list ascii) : list (list ascii) :=
  let flush := match cur with [] => [] | _ => [rev cur] end in
  match s with
  | [] => flush
  | c :: s' =>
      if is_space c then flush ++ split_fields [] s'
      else split_fields (c :: cur) s'
  end.

Definition splitFenFields (fenString : string) : list (list ascii) :=
  split_fields [] (String.list_ascii_of_string fenString).

Definition is_digit (c : ascii) : bool :=
  bool_decide (code "0" ≤ code c ≤ code "9").

Fixpoint leading_digits (s : list ascii) : list ascii :=
  match s with
  | c :: s' => if is_digit c then c :: leading_digits s' else []
  | [] => []
  end.

(** [std::stoi]: an optional sign, then the longest run of decimal digits;
    [invalid_argument] without a digit, [out_of_range] outside [int]. *)
Definition stoi (s : list ascii) : exn + Z :=
  let '(neg, s) := match s with
                   | "-"%char :: s' => (true, s')
                   | "+"%char :: s' => (false, s')
                   | _ => (false, s)
                   end in
  let digits := leading_digits s in
  match digits with
  | [] => inl StoiInvalidArgument
  | _ =>
      let n := foldl (λ acc c, acc * 10 + (code c - code "0")) 0 digits in
      let n := if (neg : bool) then - n else n in
      if bool_decide (-2147483648 ≤ n ≤ 2147483647)
      then inr n else inl StoiOutOfRange
  end.

Module Fen.

(** The placement loop of [parseFenString]; [file] and [rank] are its
    two counters. *)
Fixpoint placement (st : GameState.t) (file rank : Z) (cs : list ascii)
  : outcome GameState.t :=
  match cs with
  | [] => Returned st
  | c :: cs' =>
      if bool_decide (c = " "%char) then Returned st
      else if bool_decide (code "0" < code c) && bool_decide (code c ≤ code "8")
      then placement st (file + (code c - code "0")) rank cs'
      else if bool_decide (c = "/"%char)
      then placement st 0 (rank - 1) cs'
      else
        let color := Names.pieceColorFromChar c in
        let type := Names.pieceByName c in
        if Piece.inRange type then
          match GameState.set st (Square.index file rank) type color with
          | Some st' => placement st' (file + 1) rank cs'
          | None => Undefined
          end
        else Thrown (UnknownCharacter c) st
  end.

Definition castling (rights : Z) (cs : list ascii) : Z :=
  foldl (λ rights c,
           match c with
           | "K" => Z.lor rights CastlingRights.whiteKingSide
           | "Q" => Z.lor rights CastlingRights.whiteQueenSide
           | "k" => Z.lor rights CastlingRights.blackKingSide
           | "q" => Z.lor rights CastlingRights.blackQueenSide
           | _ => rights
           end%char) rights cs.

(** [v[i]] on a [std::vector], [s[i]] on a field. *)
Definition field (fields : list (list ascii)) (i : nat) : option (list ascii) :=
  fields !! i.
Definition field_char (f : list ascii) (i : nat) : option ascii :=
  char_at f i.

Definition parseFenString (st : GameState.t) (fenString : string)
  : outcome GameState.t :=
  let fields := splitFenFields fenString in
  match field fields 0 with
  | None => Undefined
  | Some f0 =>
    match placement st 0 (Coord.width - 1) f0 with
    | Returned st =>
      match f1 ← field fields 1; field_char f1 0 with
      | None => Undefined
      | Some side =>
        let next := if bool_decide (side = "w"%char)
                    then Color.white else Color.black in
        let st := GameState.mk (GameState.boards st) next
                    (GameState.castlingRights st) (GameState.enPassantSquare st)
                    (GameState.uneventfulHalfMoves st) (GameState.undoStack st) in
        match field fields 2 with
        | None => Undefined
        | Some f2 =>
          let st := GameState.mk (GameState.boards st) (GameState.next st)
                      (castling (GameState.castlingRights st) f2)
                      (GameState.enPassantSquare st)
                      (GameState.uneventfulHalfMoves st) (GameState.undoStack st) in
          match f3 ← field fields 3; c0 ← field_char f3 0;
                if bool_decide (c0 = "-"%char) then Some (c0, c0)
                else c1 ← field_char f3 1; Some (c0, c1) with
          | None => Undefined
          | Some (c0, c1) =>
            let ep := if bool_decide (c0 = "-"%char) then Some Square.noSquare
                      else Names.squareByName c0 c1 in
            match ep with
            | None => Thrown (BadSquareName c0 c1) st
            | Some ep =>
              let st := GameState.mk (GameState.boards st) (GameState.next st)
                          (GameState.castlingRights st) ep
                          (GameState.uneventfulHalfMoves st)
                          (GameState.undoStack st) in
              match field fields 4 with
              | None => Undefined
              | Some f4 =>
                match stoi f4 with
                | inl e => Thrown e st
                | inr n =>
                    Returned
                      (GameState.mk (GameState.boards st) (GameState.next st)
                         (GameState.castlingRights st)
                         (GameState.enPassantSquare st)
                         (wrap_counter n) (GameState.undoStack st))
                end
              end
            end
          end
        end
      end
    | other => other
    end
  end.

End Fen.

(** ** eval.cpp *)

Module Eval.

Definition opening_table : list Z := [
  (* Pawns *)
  0; 0; 0; 0; 0; 0; 0; 0;
  50; 50; 50; 50; 50; 50; 50; 50;
  10; 10; 20; 30; 30; 20; 10; 10;
  5; 5; 10; 25; 25; 10; 5; 5;
  0; 0; 0; 20; 20; 0; 0; 0;
  5; -5; -10; 0; 0; -10; -5; 5;
  5; 10; 10; -20; -20; 10; 10; 5;
  0; 0; 0; 0; 0; 0; 0; 0;
  (* Knights *)
  -50; -40; -30; -30; -30; -30; -40; -50;
  -40; -20; 0; 0; 0; 0; -20; -40;
  -30; 0; 10; 15; 15; 10; 0; -30;
  -30; 5; 15; 20; 20; 15; 5; -30;
  -30; 0; 15; 20; 20; 15; 0; -30;
  -30; 5; 10; 15; 15; 10; 5; -30;
  -40; -20; 0; 5; 5; 0; -20; -40;
  -50; -40; -30; -30; -30; -30; -40; -50;
  (* Bishops *)
  -20; -10; -10; -10; -10; -10; -10; -20;
  -10; 0; 0; 0; 0; 0; 0; -10;
  -10; 0; 5; 10; 10; 5; 0; -10;
  -10; 5; 5; 10; 10; 5; 5; -10;
  -10; 0; 10; 10; 10; 10; 0; -10;
  -10; 10; 10; 10; 10; 10; 10; -10;
  -10; 5; 0; 0; 0; 0; 5; -10;
  -20; -10; -10; -10; -10; -10; -10; -20;
  (* Rooks *)
  0; 0; 0; 0; 0; 0; 0; 0;
  5; 10; 10; 10; 10; 10; 10; 5;
  -5; 0; 0; 0; 0; 0; 0; -5;
  -5; 0; 0; 0; 0; 0; 0; -5;
  -5; 0; 0; 0; 0; 0; 0; -5;
  -5; 0; 0; 0; 0; 0; 0; -5;
  -5; 0; 0; 0; 0; 0; 0; -5;
  0; 0; 0; 5; 5; 0; 0; 0;
  (* Queen *)
  -20; -10; -10; -5; -5; -10; -10; -20;
  -10; 0; 0; 0; 0; 0; 0; -10;
  -10; 0; 5; 5; 5; 5; 0; -10;
  -5; 0; 5; 5; 5; 5; 0; -5;
  0; 0; 5; 5; 5; 5; 0; -5;
  -10; 5; 5; 5; 5; 5; 0; -10;
  -10; 0; 5; 0; 0; 0; 0; -10;
  -20; -10; -10; -5; -5; -10; -10; -20;
  (* King *)
  -30; -40; -40; -50; -50; -40; -40; -30;
  -30; -40; -40; -50; -50; -40; -40; -30;
  -30; -40; -40; -50; -50; -40; -40; -30;
  -30; -40; -40; -50; -50; -40; -40; -30;
  -20; -30; -30; -40; -40; -30; -30; -20;
  -10; -20; -20; -20; -20; -20; -20; -10;
  20; 20; 0; 0; 0; 0; 20; 20;
  20; 30; 10; 0; 0; 10; 30; 20
].

(** Arithmetic on [int]: overflow is undefined. *)
Definition int (n : Z) : option Z :=
  if bool_decide (-2147483648 ≤ n ≤ 2147483647) then Some n else None.

(** [opening_table[i]]. *)
Definition table_at (i : Z) : option Z :=
  if bool_decide (0 ≤ i) then opening_table !! Z.to_nat i else None.

Section Eval.
(** [Piece::worth] (types.h) is not among the sources: the material
    weights are a parameter. *)
Variable worth : Piece.t → Z.

(** One round of the loop over [Piece::nonKing]. *)
Definition evalPiece (state : GameState.t) (result : Z) (piece : Piece.t)
  : option Z :=
  let ourPieces := GameState.forPiece state piece (GameState.us state) in
  let opponentPieces := GameState.forPiece state piece (GameState.them state) in
  diff ← int (BitBoards.popcount ourPieces - BitBoards.popcount opponentPieces);
  product ← int (diff * worth piece);
  result ← int (result + product);
  l ← BitBoards.squares ourPieces;
  foldl (λ result square,
           result ← result;
           let forWhite := Square.reverseForColor square (GameState.us state) in
           index ← int (forWhite + Piece.index piece * Square.size);
           bonus ← table_at index;
           int (result + bonus))
        (Some result) l.

Definition eval (state : GameState.t) : option Z :=
  result ← foldl (λ result piece, result ← result; evalPiece state result piece)
                 (Some 0) Piece.nonKing;
  if bool_decide (50 ≤ GameState.uneventfulHalfMoves state) then Some 0
  else Some result.

(** The squares of a board, in ascending order. *)
Definition members (b : Z) : list Z :=
  filter (λ s, Z.testbit b s = true) (seqZ 0 64).

(** The piece-square bonus of our pieces of the given kinds. *)
Definition bonus_over (kinds : list Piece.t) (state : GameState.t) : Z :=
  foldr (λ piece acc,
           foldr (λ s acc,
                    default 0
                      (opening_table !!
                         Z.to_nat (Square.reverseForColor s (GameState.us state)
                                   + 64 * Piece.index piece)) + acc)
                 0 (members (GameState.forPiece state piece (GameState.us state)))
           + acc) 0 kinds.

(** Modelled from the spec: the evaluation as section 4.6 words it: "for
    each non-king piece kind, material_diff = popcount(our) - popcount(their)
    multiplied by that kind's material weight; plus a piece-square-table
    bonus for each of our pieces looked up at reverse_for_color(square,
    us)", and 0 once the counter reaches 50.  "Each of our pieces" includes
    the king, whose block the table has. *)
Definition material_spec (state : GameState.t) : Z :=
  foldr (λ piece acc,
           (popcountll (GameState.forPiece state piece (GameState.us state)) -
            popcountll (GameState.forPiece state piece (GameState.them state)))
           * worth piece + acc) 0 Piece.nonKing.

(** Modelled from the spec: "a piece-square-table bonus for each of our
    pieces": the pieces of all six kinds, the king among them. *)
Definition bonus_spec (state : GameState.t) : Z := bonus_over Piece.all state.

(** Modelled from the spec: "If uneventful_half_moves ≥ 50, return 0";
    otherwise the sum of the two parts. *)
Definition eval_spec (state : GameState.t) : Z :=
  if bool_decide (50 ≤ GameState.uneventfulHalfMoves state) then 0
  else material_spec state + bonus_spec state.
End Eval.

End Eval.

(** ** Notions used in the statements *)

(** The values of a [std::uint64_t]. *)
Definition word64 (x : Z) : Prop := 0 ≤ x < 2 ^ 64.

(** The set bits of a positive number, in ascending order from index [k]. *)
Fixpoint pos_bits (p : positive) (k : Z) : list Z :=
  match p with
  | xH => [k]
  | xO q => pos_bits q (k + 1)
  | xI q => k :: pos_bits q (k + 1)
  end.

(** A game: the moves are executed one after the other. *)
Definition play (st : GameState.t) (ms : list Move) : option GameState.t :=
  foldl (λ st m, st ← st; GameState.executeMove st m) (Some st) ms.

(** Boards holding the listed pieces. *)
Definition place (pieces : list (Color.t * Piece.t * Z)) : Boards.t :=
  foldr (λ '(c, p, s) acc, Boards.update acc c p (λ b, Z.lor b (Z.shiftl 1 s)))
        Boards.none pieces.

Module Examples.
(** Squares by name. *)
Definition a5 : Z := 32.
Definition c5 : Z := 34.
Definition d5 : Z := 35.
Definition c6 : Z := 42.
Definition e2 : Z := 12.
Definition e3 : Z := 20.
Definition e4 : Z := 28.
Definition e5 : Z := 36.
Definition e7 : Z := 52.
Definition h5 : Z := 39.
Definition a7 : Z := 48.
Definition a6 : Z := 40.
Definition d4 : Z := 27.
Definition f4 : Z := 29.
Definition e6 : Z := 44.
Definition d2 : Z := 11.
Definition d7 : Z := 51.
Definition c8 : Z := 58.

(** 1. e4 e5 2. Qh5 Ke7 3. Qxe5: the black king on e7 is attacked by the
    queen on e5, one rank below the rank under it. *)
Definition queen_check_game : list Move :=
  [plainMove e2 e4; plainMove e7 e5; plainMove Square.d1 h5;
   plainMove Square.e8 e7; plainMove h5 e5].

(** White: king a5, pawn d5.  Black: pawn c5 (it has just advanced two
    squares, the en-passant square is c6), king h1.  No rook, no queen. *)
Definition en_passant_position : GameState.t :=
  GameState.mk
    (place [(Color.white, Piece.king, a5); (Color.white, Piece.pawn, d5);
            (Color.black, Piece.pawn, c5); (Color.black, Piece.king, Square.h1)])
    Color.white 0 c6 0 [].

(** White: king d2, pawn d5.  Black: king d7.  The en-passant square e6 is
    set although no black pawn stands on e5. *)
Definition phantom_en_passant : GameState.t :=
  GameState.mk
    (place [(Color.white, Piece.king, d2); (Color.white, Piece.pawn, d5);
            (Color.black, Piece.king, d7)])
    Color.white 0 e6 0 [].
End Examples.

(** Two positions agree on everything but the boards. *)
Definition same_status (a b : GameState.t) : Prop :=
  GameState.next a = GameState.next b ∧
  GameState.castlingRights a = GameState.castlingRights b ∧
  GameState.enPassantSquare a = GameState.enPassantSquare b ∧
  GameState.uneventfulHalfMoves a = GameState.uneventfulHalfMoves b ∧
  GameState.undoStack a = GameState.undoStack b.

(** Every piece of [a] stands on the same square in [b]. *)
Definition keeps_pieces (a b : GameState.t) : Prop :=
  ∀ color piece,
    Z.land (GameState.forPiece a piece color) (GameState.forPiece b piece color)
    = GameState.forPiece a piece color.


(** Material weights for the examples. *)
Definition example_worth (piece : Piece.t) : Z :=
  match piece with
  | Piece.pawn => 100
  | Piece.knight => 300
  | Piece.bishop => 300
  | Piece.rook => 500
  | Piece.queen => 900
  | _ => 0
  end.

(** ** The invariants of the data model *)

Definition boards_word64 (st : GameState.t) : Prop :=
  ∀ color piece, word64 (GameState.forPiece st piece color).

(** "The 12 piece-color boards are pairwise disjoint." *)
Definition boards_disjoint (st : GameState.t) : Prop :=
  ∀ c k c' k', (c, k) ≠ (c', k') →
    Z.land (GameState.forPiece st k c) (GameState.forPiece st k' c') = 0.

(** "Exactly one king per color." *)
Definition one_king_each (st : GameState.t) : Prop :=
  ∀ color, popcountll (GameState.forPiece st Piece.king color) = 1.

(** "en_passant_square, if set, lies on rank 2 or rank 5." *)
Definition en_passant_rank (st : GameState.t) : Prop :=
  GameState.enPassantSquare st = Square.noSquare ∨
  Square.inRange (GameState.enPassantSquare st) = true ∧
  (Square.rank (GameState.enPassantSquare st) = 2 ∨
   Square.rank (GameState.enPassantSquare st) = 5).

(** King and rook of a castling right stand on their original squares. *)
Definition home (st : GameState.t) (flag : Z) (color : Color.t)
    (kingSquare rookSquare : Z) : Prop :=
  CastlingRights.has (GameState.castlingRights st) flag = true →
  Z.testbit (GameState.forPiece st Piece.king color) kingSquare = true ∧
  Z.testbit (GameState.forPiece st Piece.rook color) rookSquare = true.

(** "Castling rights imply the corresponding rook and king sit on their
    original squares." *)
Definition castling_rights_sound (st : GameState.t) : Prop :=
  home st CastlingRights.whiteKingSide Color.white Square.e1 Square.h1 ∧
  home st CastlingRights.whiteQueenSide Color.white Square.e1 Square.a1 ∧
  home st CastlingRights.blackKingSide Color.black Square.e8 Square.h8 ∧
  home st CastlingRights.blackQueenSide Color.black Square.e8 Square.a8.

(** The invariants the specification lists for a position. *)
Record data_model_invariants (st : GameState.t) : Prop := {
  inv_word64 : boards_word64 st;
  inv_disjoint : boards_disjoint st;
  inv_kings : one_king_each st;
  inv_en_passant : en_passant_rank st;
  inv_castling : castling_rights_sound st;
  inv_counter : 0 ≤ GameState.uneventfulHalfMoves st
}.

(** What the specification does not list: an en-passant square is free and
    the pawn it stands for is on the board, behind it. *)
Definition en_passant_consistent (st : GameState.t) : Prop :=
  Square.inRange (GameState.enPassantSquare st) = true →
  Z.testbit (GameState.occupancy st) (GameState.enPassantSquare st) = false ∧
  Z.testbit (GameState.forPiece st Piece.pawn (GameState.them st))
    (GameState.enPassantCapture (GameState.enPassantSquare st)) = true.

(** The rook of a castling move is at home and its destination is free. *)
Definition castle_ready (st : GameState.t) (m : Move) : Prop :=
  (m = wkCastle →
     GameState.next st = Color.white ∧
     Z.testbit (GameState.forPiece st Piece.rook Color.white) Square.h1 = true ∧
     Z.testbit (GameState.occupancy st) Square.f1 = false) ∧
  (m = wqCastle →
     GameState.next st = Color.white ∧
     Z.testbit (GameState.forPiece st Piece.rook Color.white) Square.a1 = true ∧
     Z.testbit (GameState.occupancy st) Square.d1 = false) ∧
  (m = bkCastle →
     GameState.next st = Color.black ∧
     Z.testbit (GameState.forPiece st Piece.rook Color.black) Square.h8 = true ∧
     Z.testbit (GameState.occupancy st) Square.f8 = false) ∧
  (m = bqCastle →
     GameState.next st = Color.black ∧
     Z.testbit (GameState.forPiece st Piece.rook Color.black) Square.a8 = true ∧
     Z.testbit (GameState.occupancy st) Square.d8 = false).

(** A move of a piece of the side to move to a square it does not hold;
    only pawns promote; a king move of castling shape is a castling. *)
Definition sound_move (st : GameState.t) (m : Move) : Prop :=
  0 ≤ start m < 64 ∧ 0 ≤ end_ m < 64 ∧
  Z.testbit (GameState.forColor st (GameState.us st)) (end_ m) = false ∧
  ∃ kind,
    Z.testbit (GameState.forPiece st kind (GameState.us st)) (start m) = true ∧
    (promotion m ≠ Piece.empty → kind = Piece.pawn) ∧
    (kind = Piece.king → castle_ready st m).

(** The piece of the given colour and kind, and nothing else, stands on
    the square. *)
Definition stands (st : GameState.t) (sq : Z) (color : Color.t) (kind : Piece.t)
  : Prop :=
  ∀ c k, Z.testbit (GameState.forPiece st k c) sq
         = bool_decide (c = color ∧ k = kind).

(** No piece stands on the square. *)
Definition vacant (st : GameState.t) (sq : Z) : Prop :=
  ∀ c k, Z.testbit (GameState.forPiece st k c) sq = false.

(** The destination of a move is free, or holds the enemy piece the undo
    record names. *)
Definition end_content (st : GameState.t) (info : UndoInfo.t) : Prop :=
  UndoInfo.capture info = Piece.empty ∧ vacant st (UndoInfo.end_ info) ∨
  stands st (UndoInfo.end_ info) (GameState.them st) (UndoInfo.capture info).

(** The squares of a castling: king from [kingSq] to [toSq], own rook on
    [rookSq], its destination [viaSq] free. *)
Definition castle_squares (st : GameState.t) (info : UndoInfo.t)
    (kingSq toSq rookSq viaSq : Z) : Prop :=
  UndoInfo.start info = kingSq ∧ UndoInfo.end_ info = toSq ∧
  stands st rookSq (GameState.us st) Piece.rook ∧ vacant st viaSq ∧
  end_content st info.

(** An undo record that describes the position it was taken from. *)
Definition faithful_info (st : GameState.t) (info : UndoInfo.t) : Prop :=
  0 ≤ UndoInfo.start info < 64 ∧ 0 ≤ UndoInfo.end_ info < 64 ∧
  stands st (UndoInfo.start info) (GameState.us st) (UndoInfo.piece info) ∧
  match UndoInfo.flags info with
  | MoveFlags.enPassant =>
      UndoInfo.capture info = Piece.pawn ∧ UndoInfo.piece info = Piece.pawn ∧
      vacant st (UndoInfo.end_ info) ∧
      0 ≤ GameState.enPassantCapture (UndoInfo.enPassant info) < 64 ∧
      stands st (GameState.enPassantCapture (UndoInfo.enPassant info))
        (GameState.them st) Piece.pawn
  | MoveFlags.whiteKingSide =>
      castle_squares st info Square.e1 Square.g1 Square.h1 Square.f1
  | MoveFlags.whiteQueenSide =>
      castle_squares st info Square.e1 Square.c1 Square.a1 Square.d1
  | MoveFlags.blackKingSide =>
      castle_squares st info Square.e8 Square.g8 Square.h8 Square.f8
  | MoveFlags.blackQueenSide =>
      castle_squares st info Square.e8 Square.c8 Square.a8 Square.d8
  | MoveFlags.promotion =>
      UndoInfo.piece info = Piece.pawn ∧ end_content st info
  | MoveFlags.none => end_content st info
  end.

(** ** Where the generator is defined *)

(** A pawn of [color] on [square] has a square in front of it. *)
Definition has_square_ahead (color : Color.t) (square : Z) : Prop :=
  match color with
  | Color.white => 0 ≤ square < 56
  | Color.black => 8 ≤ square < 64
  end.

(** The king is off the first and the last rank, and so are, seen from its
    side, the squares next to it. *)
Definition king_off_the_edges (color : Color.t) (kingSquare : Z) : Prop :=
  match color with
  | Color.white => 1 ≤ Square.rank kingSquare ≤ 5
  | Color.black => 2 ≤ Square.rank kingSquare ≤ 6
  end.

(** Positions that keep clear of the shifts by a count outside [0, 63]:
    the king of the side to move is off the edges and none of its pawns
    stands on the last rank. *)
Definition clear_of_edges (st : GameState.t) : Prop :=
  (∀ k, Z.testbit (GameState.forPiece st Piece.king (GameState.next st)) k = true →
        king_off_the_edges (GameState.next st) k) ∧
  (∀ s, Z.testbit (GameState.forPiece st Piece.pawn (GameState.next st)) s = true →
        has_square_ahead (GameState.next st) s).

(** ** Further notions used in the statements *)

(** A test on every number of [lo, lo + n). *)
Definition all_in (lo n : Z) (test : Z → bool) : bool :=
  forallb test (seqZ lo n).

(** What stands on a square after a move, told by what stood there
    before. *)
Inductive content :=
| holds (color : Color.t) (kind : Piece.t)
| nothing
| as_before.

Definition content_bit (st : GameState.t) (x : content) (c : Color.t)
    (k : Piece.t) (i : Z) : bool :=
  match x with
  | holds c' k' => bool_decide (c = c' ∧ k = k')
  | nothing => false
  | as_before => Z.testbit (GameState.forPiece st k c) i
  end.

(** The squares the rook leaves and reaches in a castling. *)
Definition rook_squares (flags : MoveFlags.t) : option (Z * Z) :=
  match flags with
  | MoveFlags.whiteKingSide => Some (Square.h1, Square.f1)
  | MoveFlags.whiteQueenSide => Some (Square.a1, Square.d1)
  | MoveFlags.blackKingSide => Some (Square.h8, Square.f8)
  | MoveFlags.blackQueenSide => Some (Square.a8, Square.d8)
  | _ => None
  end.

(** The piece that arrives: the promotion piece, if the move names one. *)
Definition arriving (info : UndoInfo.t) (promo : Piece.t) : Piece.t :=
  if bool_decide (promo ≠ Piece.empty) then promo else UndoInfo.piece info.

(** The content of square [i] after the move of [info]. *)
Definition after_move (st : GameState.t) (info : UndoInfo.t) (promo : Piece.t)
    (i : Z) : content :=
  if bool_decide (i = UndoInfo.end_ info)
  then holds (GameState.next st) (arriving info promo)
  else if bool_decide (i = UndoInfo.start info) then nothing
  else match UndoInfo.flags info with
       | MoveFlags.enPassant =>
           if bool_decide
                (i = GameState.enPassantCapture (UndoInfo.enPassant info))
           then nothing else as_before
       | flags =>
           match rook_squares flags with
           | Some (from, to) =>
               if bool_decide (i = from) then nothing
               else if bool_decide (i = to)
                    then holds (GameState.next st) Piece.rook
                    else as_before
           | None => as_before
           end
       end.

(** The promotion pieces a move of [piece] is entered with: the four of a
    pawn that reaches the last rank of its side, none otherwise. *)
Definition promotion_fits (st : GameState.t) (piece : Piece.t) (m : Move)
  : Prop :=
  if bool_decide (piece = Piece.pawn) &&
     (bool_decide (GameState.next st = Color.white) &&
        bool_decide (Square.rank (end_ m) = 7)
      || bool_decide (GameState.next st = Color.black) &&
        bool_decide (Square.rank (end_ m) = 0))
  then promotion m ∈ [Piece.knight; Piece.bishop; Piece.rook; Piece.queen]
  else promotion m = Piece.empty.

(** The castlings: the side, the right, the squares between king and rook,
    the two squares the king crosses, and the move. *)
Definition castlings : list (Color.t * Z * Z * Z * Z * Move) :=
  [(Color.white, CastlingRights.whiteQueenSide, 0xe,
    Square.d1, Square.c1, wqCastle);
   (Color.white, CastlingRights.whiteKingSide, 0x60,
    Square.f1, Square.g1, wkCastle);
   (Color.black, CastlingRights.blackQueenSide, 0xe00000000000000,
    Square.d8, Square.c8, bqCastle);
   (Color.black, CastlingRights.blackKingSide, 0x6000000000000000,
    Square.f8, Square.g8, bkCastle)].

(** The four ways a move gets into the list of the generator. *)
Inductive generated (st : GameState.t) (m : Move) : Prop :=
| by_table (piece : Piece.t) (ends : Z) :
    piece ∈ Piece.nonKing →
    Z.testbit (GameState.forPiece st piece (GameState.next st)) (start m)
    = true →
    GameState.getMoves' st piece (GameState.next st) (start m) = Some ends →
    Z.testbit ends (end_ m) = true →
    promotion_fits st piece m →
    generated st m
| by_en_passant (from : Z) :
    Square.inRange (GameState.enPassantSquare st) = true →
    end_ m = GameState.enPassantSquare st →
    Z.testbit (GameState.forPiece st Piece.pawn (GameState.next st)) (start m)
    = true →
    GameState.getMoves' st Piece.pawn (Color.opponent (GameState.next st))
      (GameState.enPassantSquare st) = Some from →
    Z.testbit from (start m) = true →
    promotion_fits st Piece.pawn m →
    generated st m
| by_king_step (ends withoutKing : Z) :
    Z.testbit (GameState.forPiece st Piece.king (GameState.next st)) (start m)
    = true →
    GameState.getMoves' st Piece.king (GameState.next st) (start m)
    = Some ends →
    Z.testbit ends (end_ m) = true →
    BitBoards.unset_bit (GameState.occupancy st) (start m) = Some withoutKing →
    GameState.getAttacks st (end_ m) (GameState.next st) withoutKing = Some 0 →
    promotion m = Piece.empty →
    generated st m
| by_castling (flag empty sq1 sq2 : Z) :
    (GameState.next st, flag, empty, sq1, sq2, m) ∈ castlings →
    CastlingRights.has (GameState.castlingRights st) flag = true →
    Z.land (GameState.occupancy st) empty = 0 →
    GameState.getAttacks' st sq1 (GameState.next st) = Some 0 →
    GameState.getAttacks' st sq2 (GameState.next st) = Some 0 →
    generated st m.

(** White: king e1, rooks a1 and h1.  Black: king e8, rooks a8 and h8.
    White is to move and all four castling rights are held
    ("r3k2r/8/8/8/8/8/8/R3K2R w KQkq - 0 1"). *)
Definition castling_position : GameState.t :=
  GameState.mk
    (place [(Color.white, Piece.king, Square.e1);
            (Color.white, Piece.rook, Square.a1);
            (Color.white, Piece.rook, Square.h1);
            (Color.black, Piece.king, Square.e8);
            (Color.black, Piece.rook, Square.a8);
            (Color.black, Piece.rook, Square.h8)])
    Color.white 15 Square.noSquare 0 [].

(** * Properties *)

(** ** Bits of 64-bit words *)


Lemma all_bits_ones : all_bits = Z.ones 64.
Proof. reflexivity. Qed.

Lemma testbit_all_bits (i : Z) :
  Z.testbit all_bits i = bool_decide (0 ≤ i < 64).
Proof.
  rewrite all_bits_ones, Z.testbit_ones by lia.
  case_bool_decide; lia.
Qed.

Lemma testbit_wrap64 (x i : Z) :
  Z.testbit (wrap64 x) i = Z.testbit x i && bool_decide (0 ≤ i < 64).
Proof. unfold wrap64. by rewrite Z.land_spec, testbit_all_bits. Qed.

Lemma word64_high (x i : Z) : word64 x → 64 ≤ i → Z.testbit x i = false.
Proof.
  intros [H0 H1] Hi.
  by apply (proj1 (Z.bounded_iff_bits_nonneg 64 x ltac:(lia) H0)).
Qed.

Lemma word64_of_bits (x : Z) :
  0 ≤ x → (∀ i, 64 ≤ i → Z.testbit x i = false) → word64 x.
Proof.
  intros H0 H. split; [done|].
  by apply (Z.bounded_iff_bits_nonneg 64 x).
Qed.

Lemma wrap64_word (x : Z) : word64 (wrap64 x).
Proof.
  assert (0 ≤ wrap64 x) by (apply Z.land_nonneg; right; done).
  apply word64_of_bits; [done|].
  intros i Hi. rewrite testbit_wrap64.
  case_bool_decide; [lia|]. by rewrite andb_false_r.
Qed.

Lemma word64_land_l (x y : Z) : word64 x → word64 (Z.land x y).
Proof.
  intros Hx.
  assert (0 ≤ Z.land x y) by (apply Z.land_nonneg; left; apply Hx).
  apply word64_of_bits; [done|].
  intros i Hi. by rewrite Z.land_spec, (word64_high x i).
Qed.

Lemma word64_land_r (x y : Z) : word64 y → word64 (Z.land x y).
Proof. rewrite Z.land_comm. apply word64_land_l. Qed.

Lemma word64_lor (x y : Z) : word64 x → word64 y → word64 (Z.lor x y).
Proof.
  intros Hx Hy.
  assert (0 ≤ Z.lor x y) by (apply Z.lor_nonneg; split; [apply Hx|apply Hy]).
  apply word64_of_bits; [done|].
  intros i Hi. by rewrite Z.lor_spec, (word64_high x i), (word64_high y i).
Qed.

Lemma testbit_true_nonneg (x i : Z) : Z.testbit x i = true → 0 ≤ i.
Proof.
  intros H. destruct (decide (0 ≤ i)) as [|Hn]; [done|].
  rewrite Z.testbit_neg_r in H by lia. done.
Qed.

Lemma word64_bit_range (x i : Z) :
  word64 x → Z.testbit x i = true → 0 ≤ i < 64.
Proof.
  intros Hx Hi. split; [by eapply testbit_true_nonneg|].
  destruct (decide (i < 64)) as [|Hn]; [done|].
  rewrite (word64_high x i) in Hi by (done || lia). done.
Qed.

(** ** Trailing zeros and population count *)

Lemma pos_ctz_nonneg (p : positive) : 0 ≤ pos_ctz p.
Proof. induction p; simpl; lia. Qed.

Lemma pos_ctz_set (p : positive) : Z.testbit (Zpos p) (pos_ctz p) = true.
Proof.
  induction p as [p IH|p IH|]; simpl pos_ctz; [done| |done].
  rewrite Pos2Z.inj_xO, Z.add_1_l.
  rewrite Z.testbit_even_succ by apply pos_ctz_nonneg. done.
Qed.

Lemma pos_ctz_least (p : positive) (j : Z) :
  j < pos_ctz p → Z.testbit (Zpos p) j = false.
Proof.
  revert j. induction p as [p IH|p IH|]; simpl pos_ctz; intros j Hj.
  - apply Z.testbit_neg_r. lia.
  - destruct (decide (j < 0)) as [|Hn]; [by apply Z.testbit_neg_r|].
    destruct (decide (j = 0)) as [->|Hn0]; [done|].
    replace j with (Z.succ (j - 1)) by lia.
    rewrite Pos2Z.inj_xO, Z.testbit_even_succ by lia.
    apply IH. lia.
  - apply Z.testbit_neg_r. lia.
Qed.

Lemma ctzll_spec (x i : Z) :
  ctzll x = Some i →
  Z.testbit x i = true ∧ ∀ j, j < i → Z.testbit x j = false.
Proof.
  destruct x as [|p|p]; simpl; intros [= <-].
  split; [apply pos_ctz_set|apply pos_ctz_least].
Qed.

Lemma ctzll_defined (x : Z) : 0 < x → is_Some (ctzll x).
Proof. destruct x; simpl; (lia || eauto). Qed.


Lemma pos_bits_length (p : positive) (k : Z) :
  Z.of_nat (length (pos_bits p k)) = pos_popcount p.
Proof.
  revert k. induction p as [p IH|p IH|]; intros k; simpl; [|done|done].
  rewrite Nat2Z.inj_succ, IH. lia.
Qed.

Lemma pos_bits_elem (p : positive) (k j : Z) :
  j ∈ pos_bits p k ↔ k ≤ j ∧ Z.testbit (Zpos p) (j - k) = true.
Proof.
  revert k. induction p as [p IH|p IH|]; intros k; simpl.
  - rewrite elem_of_cons, IH. rewrite Pos2Z.inj_xI.
    destruct (decide (j = k)) as [->|Hne].
    + rewrite Z.sub_diag, Z.testbit_odd_0. intuition lia.
    + split.
      * intros [?|[? Hb]]; [done|]. split; [lia|].
        replace (j - k) with (Z.succ (j - (k + 1))) by lia.
        by rewrite Z.testbit_odd_succ by lia.
      * intros [? Hb]. right. split; [lia|].
        replace (j - k) with (Z.succ (j - (k + 1))) in Hb by lia.
        by rewrite Z.testbit_odd_succ in Hb by lia.
  - rewrite IH. rewrite Pos2Z.inj_xO.
    destruct (decide (j = k)) as [->|Hne].
    + rewrite Z.sub_diag, Z.testbit_even_0. intuition (lia || done).
    + split.
      * intros [? Hb]. split; [lia|].
        replace (j - k) with (Z.succ (j - (k + 1))) by lia.
        by rewrite Z.testbit_even_succ by lia.
      * intros [? Hb]. split; [lia|].
        replace (j - k) with (Z.succ (j - (k + 1))) in Hb by lia.
        by rewrite Z.testbit_even_succ in Hb by lia.
  - rewrite list_elem_of_singleton. split.
    + intros ->. by rewrite Z.sub_diag.
    + intros [? Hb]. destruct (decide (j = k)) as [|Hne]; [done|].
      exfalso. change (Z.testbit 1 (j - k) = true) in Hb.
      rewrite Z.bits_above_log2 in Hb; [done|lia|simpl; lia].
Qed.

Lemma pos_bits_NoDup (p : positive) (k : Z) : NoDup (pos_bits p k).
Proof.
  revert k. induction p as [p IH|p IH|]; intros k; simpl.
  - apply NoDup_cons. split; [|apply IH].
    rewrite pos_bits_elem. lia.
  - apply IH.
  - apply NoDup_singleton.
Qed.

(** The population count is the number of set bits. *)
Lemma popcount_bits (x : Z) (l : list Z) :
  0 ≤ x → NoDup l → (∀ j, j ∈ l ↔ Z.testbit x j = true) →
  Z.of_nat (length l) = popcountll x.
Proof.
  intros Hx Hnd Hl. destruct x as [|p|p]; [|  |lia].
  - destruct l as [|j l]; [done|].
    specialize (Hl j). rewrite Z.bits_0 in Hl.
    exfalso. apply (Bool.diff_false_true), Hl. left.
  - simpl. rewrite <- (pos_bits_length p 0). f_equal.
    apply Permutation_length, NoDup_Permutation; [done|apply pos_bits_NoDup|].
    intros j. rewrite Hl, pos_bits_elem, Z.sub_0_r.
    split; [|tauto]. intros Hb. split; [|done].
    by eapply testbit_true_nonneg.
Qed.

(** ** Iteration over a bitboard *)

Lemma sorted_lt_NoDup (l : list Z) : StronglySorted Z.lt l → NoDup l.
Proof.
  induction 1 as [|x l Hs IH Hx]; [apply NoDup_nil_2|].
  apply NoDup_cons. split; [|done].
  intros Hin. rewrite Forall_forall in Hx. specialize (Hx x Hin). lia.
Qed.

Lemma incr_spec (b i : Z) :
  word64 b → ctzll b = Some i →
  ∃ b', BitBoards.Iterator.incr b = Some b' ∧ word64 b' ∧
        ∀ j, Z.testbit b' j = Z.testbit b j && bool_decide (i < j).
Proof.
  intros Hb Hi. unfold BitBoards.Iterator.incr, BitBoards.Iterator.deref.
  rewrite Hi. simpl.
  destruct (ctzll_spec b i Hi) as [Hset Hleast].
  pose proof (word64_bit_range b i Hb Hset) as Hrange.
  case_bool_decide as H63.
  - exists 0. split; [done|]. split; [by compute|].
    intros j. rewrite Z.bits_0. symmetry.
    case_bool_decide; [|by rewrite andb_false_r].
    rewrite (word64_high b j) by (done || lia). done.
  - unfold shl64. assert (0 ≤ i + 1 < 64) as Hr by lia. rewrite (bool_decide_true _ Hr). simpl.
    eexists. split; [done|]. split; [by apply word64_land_l|].
    intros j. rewrite Z.land_spec, testbit_wrap64.
    destruct (decide (0 ≤ j < 64)) as [Hj|Hj].
    + f_equal. rewrite Z.shiftl_spec by lia. rewrite testbit_all_bits.
      repeat case_bool_decide; (done || lia).
    + destruct (Z.testbit b j) eqn:Hbj; [|done].
      pose proof (word64_bit_range b j Hb Hbj). lia.
Qed.

Lemma iterate_S (fuel : nat) (b : Z) :
  BitBoards.iterate (S fuel) b =
    if bool_decide (b = 0) then Some []
    else s ← BitBoards.Iterator.deref b;
         next ← BitBoards.Iterator.incr b;
         rest ← BitBoards.iterate fuel next;
         Some (s :: rest).
Proof. done. Qed.

Lemma iterate_spec (fuel : nat) (b : Z) :
  word64 b →
  (∀ j, Z.testbit b j = true → 64 - Z.of_nat fuel ≤ j) →
  ∃ l, BitBoards.iterate fuel b = Some l ∧
       (∀ j, j ∈ l ↔ Z.testbit b j = true) ∧ StronglySorted Z.lt l.
Proof.
  revert b. induction fuel as [|fuel IH]; intros b Hb Hlow.
  - assert (b = 0) as ->.
    { apply Z.bits_inj_0. intros j.
      destruct (Z.testbit b j) eqn:Hj; [|done].
      pose proof (Hlow j Hj). pose proof (word64_bit_range b j Hb Hj). lia. }
    exists []. simpl. split; [done|]. split; [|constructor].
    intros j. rewrite Z.bits_0. split; [by intros ?%elem_of_nil|done].
  - rewrite iterate_S. case_bool_decide as H0.
    + subst b. exists []. split; [done|]. split; [|constructor].
      intros j. rewrite Z.bits_0. split; [by intros ?%elem_of_nil|done].
    + destruct (ctzll_defined b) as [i Hi]; [unfold word64 in Hb; lia|].
      destruct (incr_spec b i Hb Hi) as (b' & Hincr & Hb' & Hbits).
      destruct (ctzll_spec b i Hi) as [Hset Hleast].
      destruct (IH b' Hb') as (l & Hl & Hmem & Hsorted).
      { intros j. rewrite Hbits. intros [Hj Hij%bool_decide_eq_true]%andb_true_iff.
        pose proof (Hlow i Hset). lia. }
      unfold BitBoards.Iterator.deref at 1. rewrite Hi. simpl.
      rewrite Hincr. simpl. rewrite Hl. simpl.
      exists (i :: l). split; [done|]. split.
      * intros j. rewrite elem_of_cons, Hmem, Hbits, andb_true_iff,
          bool_decide_eq_true.
        split; [intros [->|[? ?]]; done|].
        intros Hj. destruct (decide (j = i)) as [|Hne]; [by left|right].
        split; [done|]. destruct (decide (i < j)); [done|].
        rewrite Hleast in Hj by lia. done.
      * constructor; [done|]. apply Forall_forall. intros j.
        rewrite Hmem, Hbits, andb_true_iff, bool_decide_eq_true. tauto.
Qed.

Lemma squares_spec (b : Z) :
  word64 b →
  ∃ l, BitBoards.squares b = Some l ∧
       (∀ j, j ∈ l ↔ Z.testbit b j = true) ∧ StronglySorted Z.lt l.
Proof.
  intros Hb. apply iterate_spec; [done|].
  intros j Hj. pose proof (word64_bit_range b j Hb Hj). lia.
Qed.

(** A stalled iterator ([operator++] at the highest square) is the empty
    board, not a shift by 64. *)
Lemma incr_last (b : Z) :
  ctzll b = Some 63 → BitBoards.Iterator.incr b = Some 0.
Proof.
  intros H. unfold BitBoards.Iterator.incr, BitBoards.Iterator.deref.
  by rewrite H.
Qed.

(** C8: iterating a bitboard [S] is defined (no shift by 64), yields
    [popcount S] squares, each a member of [S] and each member of [S], without
    repetition and in strictly ascending order; the board
    [0xc0000000000e1805] iterates to [0,2,11,12,17,18,19,62,63]. *)
Theorem bitboard_iteration (S : Z) :
  0 ≤ S < 2 ^ 64 →
  (∃ l, BitBoards.squares S = Some l ∧
        Z.of_nat (length l) = BitBoards.popcount S ∧
        (∀ s, s ∈ l → 0 ≤ s < 64 ∧ Z.testbit S s = true) ∧
        (∀ s, Z.testbit S s = true → s ∈ l) ∧
        NoDup l ∧
        StronglySorted Z.lt l) ∧
  (∀ b, BitBoards.Iterator.deref b = Some 63 →
        BitBoards.Iterator.incr b = Some 0) ∧
  BitBoards.squares 0xc0000000000e1805 =
    Some [0; 2; 11; 12; 17; 18; 19; 62; 63].
Proof.
  intros HS. split; [|split; [apply incr_last|vm_compute; reflexivity]].
  destruct (squares_spec S HS) as (l & Hl & Hmem & Hsorted).
  pose proof (sorted_lt_NoDup l Hsorted) as Hnd.
  exists l. repeat split; try done.
  - apply popcount_bits; [apply HS|done|done].
  - by eapply testbit_true_nonneg, Hmem.
  - by eapply (word64_bit_range S), Hmem.
  - by apply Hmem.
  - intros Hs. by apply Hmem.
Qed.

Lemma bitboard_iteration_witness :
  ∃ l, BitBoards.squares 0xff00 = Some l ∧ Z.of_nat (length l) = 8.
Proof.
  destruct (bitboard_iteration 0xff00 ltac:(lia)) as [(l & H1 & H2 & _) _].
  exists l. split; [exact H1|exact H2].
Defined.

(** ** Splitting the rook rays around the king (C5) *)

(** C5: [below(4)] holds rank 4 itself (a5 is on it), so for a king on e5
    the set [lower] of the check detection, the rook reachability cut by
    [below], holds a5, a square of the king's own rank; [leftOf(0)] is the
    whole board instead of the empty one; [below(0)] shifts by -8. *)
Theorem below_is_not_strictly_below :
  BitBoards.below 4 = Some 0xffffffffff ∧
  Square.rank Examples.a5 = 4 ∧
  Z.testbit 0xffffffffff Examples.a5 = true ∧
  (∃ reach lower,
      MoveTables.rookLookUp Examples.e5 0 = Some reach ∧
      BitBoards.below (Square.rank Examples.e5) = Some lower ∧
      Z.testbit (Z.land reach lower) Examples.a5 = true) ∧
  BitBoards.leftOf 0 = BitBoards.all ∧
  BitBoards.below 0 = None.
Proof.
  split; [vm_compute; reflexivity|].
  split; [vm_compute; reflexivity|].
  split; [vm_compute; reflexivity|].
  split; [|split; vm_compute; reflexivity].
  eexists _, _.
  split; [vm_compute; reflexivity|].
  split; [vm_compute; reflexivity|].
  vm_compute; reflexivity.
Qed.

(** What [below] computes on the ranks where its shift is defined: the
    ranks up to [8 - rank]. *)
Lemma below_spec (rank : Z) :
  1 ≤ rank ≤ 7 →
  ∃ b, BitBoards.below rank = Some b ∧
       ∀ s, 0 ≤ s < 64 → Z.testbit b s = bool_decide (Square.rank s ≤ 8 - rank).
Proof.
  intros Hr. unfold BitBoards.below, shr64, Coord.width.
  rewrite bool_decide_true by lia.
  eexists. split; [done|]. intros s Hs.
  rewrite Z.shiftr_spec by lia. rewrite testbit_all_bits.
  unfold Square.rank. 
  repeat case_bool_decide; try done; exfalso;
    Z.div_mod_to_equations; lia.
Qed.

(** Check detection for a king on the first rank evaluates [below(0)], a
    shift by -8: in the starting position the generator is undefined. *)
Lemma check_detection_on_first_rank :
  BitBoards.below (Square.rank Square.e1) = None ∧
  generateLegalMoves GameState.initial = None.
Proof. split; vm_compute; reflexivity. Qed.

(** ** Pawn pushes from the last rank (C10) *)

(** C10: for a white pawn on rank 7 the single push shifts by
    [square + 8 >= 64], for a black pawn on rank 0 by [square - 8 < 0]:
    the shift count leaves [0, 63] and [getMoves] is undefined there. *)
Theorem getMoves_pawn_last_rank (st : GameState.t) (square occupancy : Z) :
  (Square.rank square = 7 →
     ¬ (0 ≤ square + Square.north < 64) ∧
     GameState.getMoves st Piece.pawn Color.white square occupancy = None) ∧
  (Square.rank square = 0 →
     ¬ (0 ≤ square + Square.south < 64) ∧
     GameState.getMoves st Piece.pawn Color.black square occupancy = None).
Proof.
  unfold Square.rank, Square.north, Square.south.
  split; intros Hr.
  - assert (56 ≤ square) by (Z.div_mod_to_equations; lia).
    split; [lia|].
    unfold GameState.getMoves, shl64, Square.north.
    by rewrite (bool_decide_false (0 ≤ square + 8 < 64)) by lia.
  - assert (square < 8) by (Z.div_mod_to_equations; lia).
    split; [lia|].
    unfold GameState.getMoves, shl64, Square.south.
    by rewrite (bool_decide_false (0 ≤ square + -8 < 64)) by lia.
Qed.

Lemma getMoves_pawn_last_rank_witness :
  GameState.getMoves GameState.initial Piece.pawn Color.white Square.e8
    (GameState.occupancy GameState.initial) = None.
Proof.
  apply (getMoves_pawn_last_rank GameState.initial Square.e8). reflexivity.
Defined.

(** The king-move safety test reaches that case: white king on e7, black
    king on a1; the destination e8 is examined with a white pawn's pattern. *)
Lemma king_moves_reach_last_rank :
  generateLegalMoves
    (GameState.mk (place [(Color.white, Piece.king, Examples.e7);
                          (Color.black, Piece.king, 8)])
                  Color.white 0 Square.noSquare 0 []) = None.
Proof. vm_compute. reflexivity. Qed.

(** ** The en-passant square after a double push (C3) *)

(** C3: 1. e4 from the starting position sets the en-passant square to e3
    although no black pawn stands on d4 or f4 (none has left its home rank). *)
Theorem double_push_sets_en_passant :
  ∃ st, GameState.executeMove GameState.initial
          (plainMove Examples.e2 Examples.e4) = Some st ∧
        GameState.enPassantSquare st = Examples.e3 ∧
        GameState.forPiece st Piece.pawn Color.black = 0x00ff000000000000 ∧
        Z.testbit (GameState.forPiece st Piece.pawn Color.black) Examples.d4 = false ∧
        Z.testbit (GameState.forPiece st Piece.pawn Color.black) Examples.f4 = false.
Proof.
  eexists. split; [vm_compute; reflexivity|].
  split; [vm_compute; reflexivity|].
  split; [vm_compute; reflexivity|].
  split; vm_compute; reflexivity.
Qed.

(** ** En passant with the king on the rank of the captured pawn (C4) *)

(** C4: en passant is available on c6, the white king (a5) shares the rank
    of the captured pawn (c5), exactly one white pawn (d5) can capture, and
    Black has neither rook nor queen; the capture d5xc6 is not generated. *)
Theorem en_passant_never_emitted_on_king_rank :
  let st := Examples.en_passant_position in
  Square.inRange (GameState.enPassantSquare st) = true ∧
  Square.rank Examples.a5 =
    Square.rank (GameState.enPassantCapture (GameState.enPassantSquare st)) ∧
  (∃ m, GameState.getMoves' st Piece.pawn Color.black (GameState.enPassantSquare st)
          = Some m ∧
        Z.land m (GameState.forPiece st Piece.pawn Color.white)
          = Z.shiftl 1 Examples.d5) ∧
  GameState.forPiece st Piece.rook Color.black = 0 ∧
  GameState.forPiece st Piece.queen Color.black = 0 ∧
  ∃ l, generateLegalMoves st = Some l ∧
       plainMove Examples.d5 Examples.c6 ∉ l.
Proof.
  split; [vm_compute; reflexivity|].
  split; [vm_compute; reflexivity|].
  split; [eexists; split; [vm_compute; reflexivity|]; vm_compute; reflexivity|].
  split; [vm_compute; reflexivity|].
  split; [vm_compute; reflexivity|].
  eexists. split; [vm_compute; reflexivity|].
  intros H.
  repeat (apply elem_of_cons in H as [H|H]; [discriminate H|]).
  by apply elem_of_nil in H.
Qed.

(** The ray mask of that branch is taken at the king's square, not at its
    file: for every square beyond the first rank it is the empty board to
    the right and the whole board to the left. *)
Lemma rightOf_square (square : Z) :
  8 ≤ square → BitBoards.rightOf square = 0 ∧
               BitBoards.leftOf (square + 1) = BitBoards.all.
Proof.
  intros H.
  assert (BitBoards.rightOf square = 0) as Hr.
  { unfold BitBoards.rightOf.
    destruct square as [|p|p]; [lia| |lia].
    do 4 (destruct p as [p|p|]; try done). }
  split; [done|]. unfold BitBoards.leftOf.
  replace (square + 1 - 1) with square by lia. by rewrite Hr.
Qed.

(** ** Legal moves and check (C1) *)

(** C1: after 1. e4 e5 2. Qh5 Ke7 3. Qxe5 the black king (e7) is attacked by
    the queen on e5.  The generator returns a7-a6 among the legal moves, and
    after that move the black king is still attacked: [isCheck], asked for
    the side that has moved, answers [true]. *)
Theorem legal_move_leaves_king_in_check :
  ∃ p l p' attackers,
    play GameState.initial Examples.queen_check_game = Some p ∧
    GameState.next p = Color.black ∧
    generateLegalMoves p = Some l ∧
    plainMove Examples.a7 Examples.a6 ∈ l ∧
    GameState.executeMove p (plainMove Examples.a7 Examples.a6) = Some p' ∧
    BitBoards.findFirstSet (GameState.forPiece p' Piece.king Color.black)
      = Some Examples.e7 ∧
    GameState.getAttacks' p' Examples.e7 Color.black = Some attackers ∧
    attackers = Z.shiftl 1 Examples.e5 ∧
    BitBoards.is_empty attackers = false ∧
    GameState.isCheck
      (GameState.mk (GameState.boards p') Color.black
         (GameState.castlingRights p') (GameState.enPassantSquare p')
         (GameState.uneventfulHalfMoves p') (GameState.undoStack p'))
    = Some true.
Proof.
  eexists _, _, _, _.
  split; [vm_compute; reflexivity|].
  split; [vm_compute; reflexivity|].
  split; [vm_compute; reflexivity|].
  split; [apply list_elem_of_further, list_elem_of_here|].
  split; [vm_compute; reflexivity|].
  split; [vm_compute; reflexivity|].
  split; [vm_compute; reflexivity|].
  split; [vm_compute; reflexivity|].
  split; vm_compute; reflexivity.
Qed.

(** ** Moves from text (C7) *)

(** C7: a two-character string is read beyond its end (undefined, not a
    reported error); an unknown promotion letter is accepted. *)
Theorem malformed_moves_not_reported :
  Move_of_string "e2" = Undefined ∧
  Move_of_string "" = Undefined ∧
  Move_of_string "a7a8x" = Returned (plainMove Examples.a7 Square.a8).
Proof. repeat split; vm_compute; reflexivity. Qed.
(** ** Parsing a position (C6) *)

Lemma boards_get_update (b : Boards.t) (c c' : Color.t) (p p' : Piece.t)
    (f : Z → Z) :
  p ≠ Piece.empty →
  Boards.get (Boards.update b c p f) c' p' =
    if bool_decide (c' = c ∧ p' = p) then f (Boards.get b c p)
    else Boards.get b c' p'.
Proof.
  intros Hp. destruct c, c', p, p'; try done.
Qed.

Lemma boards_get_map (b : Boards.t) (c : Color.t) (p : Piece.t) (f : Z → Z) :
  p ≠ Piece.empty → Boards.get (Boards.map f b) c p = f (Boards.get b c p).
Proof. intros Hp. by destruct c, p. Qed.

Lemma boards_eq (a b : Boards.t) :
  (∀ c p, Boards.get a c p = Boards.get b c p) → a = b.
Proof.
  intros H. destruct a as [[] []], b as [[] []].
  pose proof (H Color.white Piece.pawn). pose proof (H Color.white Piece.knight).
  pose proof (H Color.white Piece.bishop). pose proof (H Color.white Piece.rook).
  pose proof (H Color.white Piece.queen). pose proof (H Color.white Piece.king).
  pose proof (H Color.black Piece.pawn). pose proof (H Color.black Piece.knight).
  pose proof (H Color.black Piece.bishop). pose proof (H Color.black Piece.rook).
  pose proof (H Color.black Piece.queen). pose proof (H Color.black Piece.king).
  simpl in *. by subst.
Qed.

Lemma same_status_refl (a : GameState.t) : same_status a a.
Proof. by repeat split. Qed.

Lemma same_status_trans (a b c : GameState.t) :
  same_status a b → same_status b c → same_status a c.
Proof.
  intros (?&?&?&?&?) (?&?&?&?&?). repeat split; congruence.
Qed.



Lemma set_status (st st' : GameState.t) (sq : Z) (p : Piece.t) (c : Color.t) :
  GameState.set st sq p c = Some st' → same_status st st' ∧ keeps_pieces st st'.
Proof.
  unfold GameState.set. destruct (shl64 1 sq) as [m|]; [simpl|done].
  case_bool_decide as Hp; [done|]. intros [= <-].
  split; [by repeat split|].
  intros col pc. unfold GameState.forPiece. simpl.
  destruct (decide (pc = Piece.empty)) as [->|Hpc]; [by destruct col|].
  rewrite boards_get_update by done.
  case_bool_decide as Heq; [|apply Z.land_diag].
  destruct Heq as [-> ->].
  apply Z.bits_inj'. intros i Hi.
  rewrite Z.land_spec, Z.lor_spec. by destruct (Z.testbit _ i).
Qed.









(** ** The positions of the examples *)

(** The starting position and the two en-passant positions are what
    [parseFenString] reads from their descriptions. *)
Lemma examples_parsed :
  Fen.parseFenString GameState.blank
    "rnbqkbnr/pppppppp/8/8/8/8/PPPPPPPP/RNBQKBNR w KQkq - 0 1"
    = Returned GameState.initial ∧
  Fen.parseFenString GameState.blank "8/8/8/K1pP4/8/8/8/7k w - c6 0 1"
    = Returned Examples.en_passant_position ∧
  Fen.parseFenString GameState.blank "8/3k4/8/3P4/8/8/3K4/8 w - e6 0 1"
    = Returned Examples.phantom_en_passant.
Proof. split_and!; vm_compute; reflexivity. Qed.

(** ** Static evaluation (C9) *)

Lemma sorted_seq (a n : nat) : StronglySorted lt (seq a n).
Proof.
  revert a. induction n as [|n IH]; intros a; simpl; constructor; [apply IH|].
  apply Forall_forall. intros x [? ?]%elem_of_seq. lia.
Qed.

Lemma sorted_seqZ (m n : Z) : StronglySorted Z.lt (seqZ m n).
Proof.
  unfold seqZ. eapply StronglySorted_fmap; [|apply sorted_seq].
  intros x y Hxy. simpl. lia.
Qed.

Lemma sorted_filter (P : Z → Prop) `{!∀ x, Decision (P x)} (l : list Z) :
  StronglySorted Z.lt l → StronglySorted Z.lt (filter P l).
Proof.
  induction 1 as [|x l Hs IH Hx]; [constructor|].
  rewrite filter_cons. destruct (decide (P x)); [|done].
  constructor; [done|]. apply Forall_forall.
  intros y Hy. apply list_elem_of_filter in Hy as [_ Hy].
  rewrite Forall_forall in Hx. by apply Hx.
Qed.

Lemma members_elem (b s : Z) :
  s ∈ Eval.members b ↔ 0 ≤ s < 64 ∧ Z.testbit b s = true.
Proof.
  unfold Eval.members. rewrite list_elem_of_filter, elem_of_seqZ. intuition lia.
Qed.

(** The range-for loop visits exactly the members of the board, in order. *)
Lemma squares_members (b : Z) :
  word64 b → BitBoards.squares b = Some (Eval.members b).
Proof.
  intros Hb. destruct (squares_spec b Hb) as (l & -> & Hmem & Hsorted).
  f_equal. apply (StronglySorted_unique_strong Z.lt); [|done| |].
  - intros x y _ _ ? ?. lia.
  - apply sorted_filter, sorted_seqZ.
  - apply NoDup_Permutation.
    + by apply sorted_lt_NoDup.
    + apply sorted_lt_NoDup, sorted_filter, sorted_seqZ.
    + intros s. rewrite Hmem, members_elem. split; [|tauto].
      intros Hs. split; [|done]. by eapply word64_bit_range.
Qed.

Lemma members_length (b : Z) : (length (Eval.members b) ≤ 64)%nat.
Proof.
  unfold Eval.members.
  etrans; [apply length_filter|]. by rewrite length_seqZ.
Qed.

Lemma popcount_range (b : Z) : word64 b → 0 ≤ popcountll b ≤ 64.
Proof.
  intros Hb. destruct (squares_spec b Hb) as (l & Hl & Hmem & Hsorted).
  rewrite squares_members in Hl by done. injection Hl as <-.
  rewrite <- (popcount_bits b (Eval.members b)); [| apply Hb | |done].
  - pose proof (members_length b). lia.
  - by apply sorted_lt_NoDup.
Qed.

Lemma opening_table_bounded (i : nat) (v : Z) :
  Eval.opening_table !! i = Some v → -50 ≤ v ≤ 50.
Proof.
  assert (Forall (λ v, -50 ≤ v ≤ 50) Eval.opening_table) as H.
  { apply (bool_decide_unpack (Forall (λ v, -50 ≤ v ≤ 50) Eval.opening_table)).
    vm_compute. reflexivity. }
  intros Hi. exact (Forall_lookup_1 _ _ i v H Hi).
Qed.

Lemma reverseForColor_range (s : Z) (c : Color.t) :
  0 ≤ s < 64 → 0 ≤ Square.reverseForColor s c < 64.
Proof.
  intros Hs. destruct c; simpl; [done|].
  unfold Square.index, Square.file, Square.rank.
  Z.div_mod_to_equations. lia.
Qed.

Lemma table_at_defined (s : Z) (c : Color.t) (piece : Piece.t) :
  0 ≤ s < 64 → piece ∈ Piece.nonKing →
  ∃ v, Eval.table_at (Square.reverseForColor s c + Piece.index piece * Square.size)
         = Some v ∧
       Eval.opening_table !! Z.to_nat (Square.reverseForColor s c
                                       + 64 * Piece.index piece) = Some v ∧
       -50 ≤ v ≤ 50 ∧
       Eval.int (Square.reverseForColor s c + Piece.index piece * Square.size)
         = Some (Square.reverseForColor s c + Piece.index piece * Square.size).
Proof.
  intros Hs Hp. pose proof (reverseForColor_range s c Hs) as Hr.
  assert (0 ≤ Piece.index piece ≤ 4) as Hi.
  { unfold Piece.nonKing in Hp.
    repeat (apply elem_of_cons in Hp as [->|Hp]; [simpl; lia|]).
    by apply elem_of_nil in Hp. }
  unfold Square.size, Eval.table_at, Eval.int.
  replace (Piece.index piece * 64) with (64 * Piece.index piece) by lia.
  set (i := Square.reverseForColor s c + 64 * Piece.index piece) in *.
  assert (0 ≤ i < 384) as Hrange by lia.
  destruct (lookup_lt_is_Some_2 Eval.opening_table (Z.to_nat i)) as [v Hv].
  { change (length Eval.opening_table) with 384%nat. lia. }
  exists v. rewrite !bool_decide_true by lia.
  split; [done|]. split; [done|]. split; [by eapply opening_table_bounded|done].
Qed.

Lemma int_in_range (n : Z) :
  -2147483648 ≤ n ≤ 2147483647 → Eval.int n = Some n.
Proof. intros H. unfold Eval.int. by rewrite bool_decide_true. Qed.

Section EvalProof.
Variable worth : Piece.t → Z.
Variable state : GameState.t.
Hypothesis worth_bounded : ∀ piece, -1000000 ≤ worth piece ≤ 1000000.
Hypothesis boards_word64 :
  ∀ color piece, word64 (GameState.forPiece state piece color).

Let us := GameState.us state.

(** The bonus of the squares [l] for one piece kind. *)
Let bonus (piece : Piece.t) (l : list Z) : Z :=
  foldr (λ s acc,
           default 0 (Eval.opening_table !!
                        Z.to_nat (Square.reverseForColor s us
                                  + 64 * Piece.index piece)) + acc) 0 l.

Lemma bonus_loop (piece : Piece.t) (l : list Z) (r : Z) :
  piece ∈ Piece.nonKing →
  Forall (λ s, 0 ≤ s < 64) l →
  -2147483648 + 50 * Z.of_nat (length l) ≤ r
    ≤ 2147483647 - 50 * Z.of_nat (length l) →
  foldl (λ result square,
           result ← result;
           let forWhite := Square.reverseForColor square us in
           index ← Eval.int (forWhite + Piece.index piece * Square.size);
           bonus ← Eval.table_at index;
           Eval.int (result + bonus))
        (Some r) l = Some (r + bonus piece l) ∧
  - 50 * Z.of_nat (length l) ≤ bonus piece l ≤ 50 * Z.of_nat (length l).
Proof.
  intros Hp Hl. revert r. induction Hl as [|s l Hs Hl IH]; intros r Hr.
  { simpl. split; [f_equal; lia|lia]. }
  destruct (table_at_defined s us piece Hs Hp) as (v & Hat & Hv & Hvb & Hint).
  rewrite length_cons, Nat2Z.inj_succ in Hr.
  cbn [foldl foldr bonus]. simpl mbind. rewrite Hint. simpl. rewrite Hat. simpl.
  rewrite (int_in_range (r + v)) by lia.
  destruct (IH (r + v)) as [IHeq Hb]; [lia|].
  fold (bonus piece l). rewrite Hv. simpl.
  split; [|lia].
  etrans; [exact IHeq|]; f_equal; lia.
Qed.

Let material (piece : Piece.t) : Z :=
  (popcountll (GameState.forPiece state piece us) -
   popcountll (GameState.forPiece state piece (GameState.them state)))
  * worth piece.

Lemma evalPiece_spec (piece : Piece.t) (r bound : Z) :
  piece ∈ Piece.nonKing →
  - bound ≤ r ≤ bound → 0 ≤ bound ≤ 4 * 64003200 →
  let r' := r + material piece
            + bonus piece (Eval.members (GameState.forPiece state piece us)) in
  Eval.evalPiece worth state r piece = Some r' ∧
  - (bound + 64003200) ≤ r' ≤ bound + 64003200.
Proof.
  intros Hp Hr Hbound. cbv zeta.
  pose proof (popcount_range _ (boards_word64 us piece)) as Hours.
  pose proof (popcount_range _ (boards_word64 (GameState.them state) piece))
    as Htheirs.
  pose proof (worth_bounded piece) as Hw.
  unfold Eval.evalPiece. fold us.
  set (ours := popcountll (GameState.forPiece state piece us)) in *.
  set (theirs := popcountll (GameState.forPiece state piece
                               (GameState.them state))) in *.
  assert (- 64000000 ≤ (ours - theirs) * worth piece ≤ 64000000) as Hm by nia.
  unfold BitBoards.popcount. fold ours theirs.
  rewrite (int_in_range (ours - theirs)) by lia. simpl.
  rewrite (int_in_range ((ours - theirs) * worth piece)) by lia. simpl.
  rewrite (int_in_range (r + (ours - theirs) * worth piece)) by lia. simpl.
  rewrite squares_members by apply boards_word64. simpl.
  pose proof (members_length (GameState.forPiece state piece us)) as Hlen.
  destruct (bonus_loop piece (Eval.members (GameState.forPiece state piece us))
              (r + (ours - theirs) * worth piece) Hp) as [Heq Hb].
  - apply Forall_forall. by intros s [? _]%members_elem.
  - lia.
  - unfold material. fold ours theirs. split; [|lia].
    etrans; [exact Heq|]; f_equal; lia.
Qed.

Lemma evalPiece_step (piece : Piece.t) (r bound : Z) :
  piece ∈ Piece.nonKing →
  - bound ≤ r ≤ bound → 0 ≤ bound ≤ 4 * 64003200 →
  ∃ r', (Some r ≫= λ result, Eval.evalPiece worth state result piece) = Some r' ∧
        r' = r + material piece
             + bonus piece (Eval.members (GameState.forPiece state piece us)) ∧
        - (bound + 64003200) ≤ r' ≤ bound + 64003200.
Proof.
  intros Hp Hr Hb. destruct (evalPiece_spec piece r bound Hp Hr Hb) as [E H].
  eexists. split; [exact E|]. split; [done|exact H].
Qed.

Lemma eval_loop :
  foldl (λ result piece, result ← result; Eval.evalPiece worth state result piece)
        (Some 0) Piece.nonKing
  = Some (Eval.material_spec worth state
          + Eval.bonus_over Piece.nonKing state).
Proof.
  unfold Piece.nonKing. cbn [foldl].
  destruct (evalPiece_step Piece.pawn 0 0) as (r1 & -> & E1 & H1);
    [repeat constructor|lia|lia|].
  destruct (evalPiece_step Piece.knight r1 (0 + 64003200))
    as (r2 & -> & E2 & H2); [repeat constructor|lia|lia|].
  destruct (evalPiece_step Piece.bishop r2 (0 + 64003200 + 64003200))
    as (r3 & -> & E3 & H3); [repeat constructor|lia|lia|].
  destruct (evalPiece_step Piece.rook r3 (0 + 64003200 + 64003200 + 64003200))
    as (r4 & -> & E4 & H4); [repeat constructor|lia|lia|].
  destruct (evalPiece_step Piece.queen r4
              (0 + 64003200 + 64003200 + 64003200 + 64003200))
    as (r5 & -> & E5 & H5); [repeat constructor|lia|lia|].
  f_equal. unfold Eval.material_spec, Eval.bonus_over, Piece.nonKing.
  cbn [foldr]. unfold material, bonus, us in *. lia.
Qed.

Lemma eval_code :
  Eval.eval worth state
  = Some (if bool_decide (50 ≤ GameState.uneventfulHalfMoves state) then 0
          else Eval.material_spec worth state
               + Eval.bonus_over Piece.nonKing state).
Proof. unfold Eval.eval. rewrite eval_loop. simpl. by case_bool_decide. Qed.
End EvalProof.

(** The bonus the specification asks for is the one of the five kinds of
    the loop plus the one of the king. *)
Lemma bonus_spec_split (state : GameState.t) :
  Eval.bonus_spec state
  = Eval.bonus_over Piece.nonKing state + Eval.bonus_over [Piece.king] state.
Proof.
  unfold Eval.bonus_spec, Eval.bonus_over, Piece.all, Piece.nonKing.
  cbn [foldr]. lia.
Qed.

(** C9 (what the code does): [eval] returns 0 once [uneventfulHalfMoves]
    has reached 50, as the specification says.  Below 50 it returns the
    value of the specification less the piece-square bonus of the king:
    the loop runs over [Piece::nonKing], so the king block of
    [opening_table] is never read.  (The boards are 64-bit words and the
    weights of [Piece::worth] small enough for [int].) *)
Theorem eval_skips_the_king_table (worth : Piece.t → Z) (state : GameState.t) :
  (∀ piece, -1000000 ≤ worth piece ≤ 1000000) →
  (∀ color piece, word64 (GameState.forPiece state piece color)) →
  (50 ≤ GameState.uneventfulHalfMoves state →
   Eval.eval worth state = Some 0 ∧ Eval.eval_spec worth state = 0) ∧
  (GameState.uneventfulHalfMoves state < 50 →
   Eval.eval worth state
   = Some (Eval.eval_spec worth state - Eval.bonus_over [Piece.king] state) ∧
   Eval.eval_spec worth state
   = Eval.material_spec worth state + Eval.bonus_spec state).
Proof.
  intros Hw Hb. rewrite (eval_code worth state Hw Hb).
  unfold Eval.eval_spec. split; intros H.
  - by rewrite bool_decide_true.
  - rewrite bool_decide_false by lia. split; [|done].
    f_equal. rewrite bonus_spec_split. lia.
Qed.

(** With the white king on a5 and a white pawn on d5 the code returns 20,
    the bonus of the pawn; the specification's value is 0, the king's
    bonus on a5 being -20. *)
Lemma eval_skips_the_king_table_witness :
  Eval.eval example_worth Examples.en_passant_position = Some 20 ∧
  Eval.eval_spec example_worth Examples.en_passant_position = 0.
Proof.
  destruct (eval_skips_the_king_table example_worth
              Examples.en_passant_position) as [_ H].
  - intros []; simpl; lia.
  - intros [] []; vm_compute; (split; [discriminate|reflexivity]).
  - destruct H as [H _]; [by compute|].
    split; [rewrite H|]; vm_compute; reflexivity.
Defined.

(** ** Single squares *)

Lemma testbit_bit (sq i : Z) :
  0 ≤ sq → Z.testbit (Z.shiftl 1 sq) i = bool_decide (i = sq).
Proof.
  intros Hsq. rewrite Z.shiftl_1_l, Z.pow2_bits_eqb by done.
  case_bool_decide; lia.
Qed.

Lemma wrap64_bit (sq : Z) : 0 ≤ sq < 64 → wrap64 (Z.shiftl 1 sq) = Z.shiftl 1 sq.
Proof.
  intros Hsq. apply Z.bits_inj'. intros i Hi.
  rewrite testbit_wrap64, testbit_bit by lia.
  repeat case_bool_decide; (done || lia).
Qed.

Lemma shl64_bit (sq : Z) : 0 ≤ sq < 64 → shl64 1 sq = Some (Z.shiftl 1 sq).
Proof.
  intros Hsq. unfold shl64. rewrite bool_decide_true by done.
  by rewrite wrap64_bit.
Qed.

Lemma shl64_bit_inv (sq m : Z) :
  shl64 1 sq = Some m → 0 ≤ sq < 64 ∧ m = Z.shiftl 1 sq.
Proof.
  unfold shl64. case_bool_decide as H; [|done]. intros [= <-].
  split; [done|]. by apply wrap64_bit.
Qed.

Lemma testbit_lnot64 (x i : Z) :
  Z.testbit (lnot64 x) i = negb (Z.testbit x i) && bool_decide (0 ≤ i < 64).
Proof.
  unfold lnot64. rewrite testbit_wrap64.
  case_bool_decide as H; [|by rewrite !andb_false_r].
  by rewrite Z.lnot_spec by lia.
Qed.

(** ** Pseudo-legal moves never land on an own piece *)

Lemma getMoves_not_own (st : GameState.t) (piece : Piece.t) (color : Color.t)
    (square occupancy m : Z) :
  GameState.getMoves st piece color square occupancy = Some m →
  word64 m ∧
  ∀ e, Z.testbit m e = true → Z.testbit (GameState.forColor st color) e = false.
Proof.
  assert (∀ x, word64 (Z.land x (lnot64 (GameState.forColor st color))) ∧
               ∀ e, Z.testbit (Z.land x (lnot64 (GameState.forColor st color))) e
                    = true →
                    Z.testbit (GameState.forColor st color) e = false) as Hres.
  { intros x. split; [apply word64_land_r, wrap64_word|].
    intros e. rewrite Z.land_spec, testbit_lnot64.
    destruct (Z.testbit (GameState.forColor st color) e); [|done].
    by rewrite andb_false_r. }
  unfold GameState.getMoves. intros H.
  destruct piece; simplify_option_eq; try apply Hres.
  split; [by compute|]. intros e. by rewrite Z.bits_0.
Qed.

Lemma getMoves_king_table (st : GameState.t) (color : Color.t)
    (square occupancy m e : Z) :
  GameState.getMoves st Piece.king color square occupancy = Some m →
  Z.testbit m e = true →
  ∃ t, MoveTables.kingMoves square = Some t ∧ Z.testbit t e = true.
Proof.
  unfold GameState.getMoves. intros H He. simplify_option_eq.
  eexists. split; [done|].
  rewrite Z.land_spec in He. by apply andb_true_iff in He as [? _].
Qed.

Lemma squares_elem (b : Z) (l : list Z) (s : Z) :
  word64 b → BitBoards.squares b = Some l → s ∈ l →
  0 ≤ s < 64 ∧ Z.testbit b s = true.
Proof.
  intros Hb Hl Hs. destruct (squares_spec b Hb) as (l' & Hl' & Hmem & _).
  rewrite Hl in Hl'. injection Hl' as <-.
  apply Hmem in Hs. split; [by eapply word64_bit_range|done].
Qed.

Lemma findFirstSet_elem (b s : Z) :
  word64 b → BitBoards.findFirstSet b = Some s →
  0 ≤ s < 64 ∧ Z.testbit b s = true.
Proof.
  intros Hb Hs. apply ctzll_spec in Hs as [Hs _].
  split; [by eapply word64_bit_range|done].
Qed.

(** ** Folding a step that may be undefined *)

Lemma foldl_option_invariant {A B : Type} (f : A → B → option A)
    (Inv : A → Prop) (l : list B) (a a' : A) :
  Inv a →
  (∀ a b a', b ∈ l → Inv a → f a b = Some a' → Inv a') →
  foldl (λ acc b, acc ≫= λ a, f a b) (Some a) l = Some a' →
  Inv a'.
Proof.
  revert a. induction l as [|b l IH]; intros a Ha Hstep; simpl.
  - by intros [= <-].
  - destruct (f a b) as [a1|] eqn:Hf.
    + apply IH; [|intros ? ? ? ?; apply Hstep; by right].
      eapply Hstep; [by left|done|done].
    + intros H. exfalso. clear -H.
      induction l as [|b' l IHl]; [done|]. by apply IHl.
Qed.

(** ** The generated moves are sound *)

Lemma occupancy_spec (st : GameState.t) (i : Z) :
  Z.testbit (GameState.occupancy st) i
  = Z.testbit (GameState.forColor st Color.white) i
    || Z.testbit (GameState.forColor st Color.black) i.
Proof. unfold GameState.occupancy. by rewrite Z.lor_spec. Qed.

Lemma forColor_spec (st : GameState.t) (color : Color.t) (i : Z) :
  Z.testbit (GameState.forColor st color) i = true ↔
  ∃ kind, Z.testbit (GameState.forPiece st kind color) i = true.
Proof.
  unfold GameState.forColor, Piece.all. cbn [foldr].
  rewrite !Z.lor_spec, Z.bits_0, !orb_true_iff. split.
  - intros [?|[?|[?|[?|[?|[?|?]]]]]]; try done; eauto.
  - intros [[] H]; try tauto.
    unfold GameState.forPiece in H. simpl in H. by rewrite Z.bits_0 in H.
Qed.

Lemma forColor_false (st : GameState.t) (color : Color.t) (kind : Piece.t) (i : Z) :
  Z.testbit (GameState.forColor st color) i = false →
  Z.testbit (GameState.forPiece st kind color) i = false.
Proof.
  intros H. destruct (Z.testbit (GameState.forPiece st kind color) i) eqn:Hk;
    [|done].
  rewrite <- H. symmetry. apply forColor_spec. eauto.
Qed.

Lemma forColor_word64 (st : GameState.t) (color : Color.t) :
  boards_word64 st → word64 (GameState.forColor st color).
Proof.
  intros H. unfold GameState.forColor, Piece.all. cbn [foldr].
  repeat (apply word64_lor; [apply H|]). by compute.
Qed.

Section GeneratorSound.
Variable st : GameState.t.
Hypothesis Hinv : data_model_invariants st.
Hypothesis Hep : en_passant_consistent st.


Lemma enterMoves_sound (g g' : MoveGenerator.t) (start ends : Z)
    (piece : Piece.t) :
  Forall (sound_move st) (MoveGenerator.moves g) →
  Z.testbit (GameState.forPiece st piece (GameState.next st)) start = true →
  piece ≠ Piece.king →
  word64 ends →
  (∀ e, Z.testbit ends e = true → Z.testbit (GameState.forColor st (GameState.next st)) e = false) →
  MoveGenerator.enterMoves st g start piece ends = Some g' →
  Forall (sound_move st) (MoveGenerator.moves g').
Proof.
  intros Hg Hstart Hk Hw Hends. unfold MoveGenerator.enterMoves.
  intros (l & Hl & [= <-])%bind_Some. simpl.
  apply Forall_app. split; [done|].
  apply Forall_flat_map, Forall_forall. intros e He.
  destruct (squares_elem _ _ _ (word64_land_l _ _ Hw) Hl He) as [Hrange Hbit].
  rewrite Z.land_spec in Hbit. apply andb_true_iff in Hbit as [Hbit _].
  pose proof (word64_bit_range _ _ (inv_word64 st Hinv (GameState.next st) piece) Hstart).
  assert (∀ promo, (promo ≠ Piece.empty → piece = Piece.pawn) →
                   sound_move st (mkMove start e promo)) as Hmove.
  { intros promo Hpromo. split; [done|]. split; [done|].
    split; [by apply Hends|]. exists piece. by repeat split. }
  destruct (bool_decide (piece = Piece.pawn)) eqn:Hpawn.
  - apply bool_decide_eq_true in Hpawn.
    destruct (_ || _); simpl;
      repeat (apply Forall_cons; split; [by apply Hmove|]); by apply Forall_nil.
  - simpl. apply Forall_cons. split; [by apply Hmove|by apply Forall_nil].
Qed.

Lemma handleLeaperAttacks_moves (kingSquare : Z) (piece : Piece.t)
    (g g' : MoveGenerator.t) :
  MoveGenerator.handleLeaperAttacks st kingSquare piece g = Some g' →
  MoveGenerator.moves g' = MoveGenerator.moves g.
Proof.
  unfold MoveGenerator.handleLeaperAttacks.
  intros (m & _ & H)%bind_Some. by destruct (negb _); injection H as <-.
Qed.

Lemma handleSliderRay_moves (sliders ray : Z) (g g' : MoveGenerator.t) :
  MoveGenerator.handleSliderRay st sliders ray g = Some g' →
  MoveGenerator.moves g' = MoveGenerator.moves g.
Proof.
  unfold MoveGenerator.handleSliderRay.
  destruct (BitBoards.is_empty (Z.land sliders ray)); [by intros [= <-]|].
  destruct (BitBoards.is_empty _); [by intros [= <-]|].
  destruct (_ && _); [|by intros [= <-]].
  by intros (s & _ & [= <-])%bind_Some.
Qed.

Lemma handleSliderAttacks_moves (kingSquare : Z) (g g' : MoveGenerator.t) :
  MoveGenerator.handleSliderAttacks st kingSquare g = Some g' →
  MoveGenerator.moves g' = MoveGenerator.moves g.
Proof.
  unfold MoveGenerator.handleSliderAttacks. intros H.
  repeat (apply bind_Some in H as (? & ? & H)).
  repeat match goal with
         | H : MoveGenerator.handleSliderRay _ _ _ _ = Some _ |- _ =>
             apply handleSliderRay_moves in H
         end.
  congruence.
Qed.

Lemma standardNonPinsFor_sound (piece : Piece.t) (g g' : MoveGenerator.t) :
  piece ≠ Piece.king →
  Forall (sound_move st) (MoveGenerator.moves g) →
  MoveGenerator.standardNonPinsFor st piece g = Some g' →
  Forall (sound_move st) (MoveGenerator.moves g').
Proof.
  intros Hk Hg. unfold MoveGenerator.standardNonPinsFor.
  intros (starts & Hstarts & H)%bind_Some.
  apply bind_Some in H as (g1 & Hg1 & H).
  apply bind_Some in H as (pinned & Hpinned & H).
  assert (Forall (sound_move st) (MoveGenerator.moves g1)) as Hsound1.
  { revert Hg1. apply (foldl_option_invariant _
      (λ g, Forall (sound_move st) (MoveGenerator.moves g))); [done|].
    intros a s a' Hs Ha (ends & Hends & Henter)%bind_Some.
    apply (squares_elem _ _ _
             (word64_land_l _ _ (inv_word64 st Hinv (GameState.next st) piece)) Hstarts) in Hs
      as [_ Hs].
    rewrite Z.land_spec in Hs. apply andb_true_iff in Hs as [Hs _].
    apply getMoves_not_own in Hends as [? ?].
    by eapply enterMoves_sound. }
  revert H. apply (foldl_option_invariant _
      (λ g, Forall (sound_move st) (MoveGenerator.moves g))); [done|].
  intros a s a' Hs Ha (one & _ & Hstep)%bind_Some.
  destruct (negb _); [|by injection Hstep as <-].
  apply bind_Some in Hstep as (ends & Hends & Henter).
  apply (squares_elem _ _ _
           (word64_land_l _ _ (inv_word64 st Hinv (GameState.next st) piece)) Hpinned) in Hs
    as [_ Hs].
  rewrite Z.land_spec in Hs. apply andb_true_iff in Hs as [Hs _].
  apply getMoves_not_own in Hends as [Hw Hown].
  eapply enterMoves_sound; [exact Ha|exact Hs|done| | |exact Henter].
  - by apply word64_land_l.
  - intros e. rewrite Z.land_spec. intros [? _]%andb_true_iff. by apply Hown.
Qed.

Lemma standardNonPins_sound (g g' : MoveGenerator.t) :
  Forall (sound_move st) (MoveGenerator.moves g) → MoveGenerator.standardNonPins st g = Some g' → Forall (sound_move st) (MoveGenerator.moves g').
Proof.
  intros Hg. unfold MoveGenerator.standardNonPins.
  apply (foldl_option_invariant _
      (λ g, Forall (sound_move st) (MoveGenerator.moves g))); [done|].
  intros a piece a' Hpiece Ha. apply standardNonPinsFor_sound; [|done].
  intros ->. unfold Piece.nonKing in Hpiece.
  repeat (apply elem_of_cons in Hpiece as [Hpiece|Hpiece]; [done|]).
  by apply elem_of_nil in Hpiece.
Qed.

Lemma castle_sound (flag empty sq1 sq2 : Z) (m : Move) (g g' : MoveGenerator.t) :
  Forall (sound_move st) (MoveGenerator.moves g) →
  (CastlingRights.has (GameState.castlingRights st) flag = true →
   Z.land (GameState.occupancy st) empty = 0 →
   sound_move st m) →
  MoveGenerator.castle st flag empty sq1 sq2 m g = Some g' →
  Forall (sound_move st) (MoveGenerator.moves g').
Proof.
  intros Hg Hm. unfold MoveGenerator.castle.
  destruct (CastlingRights.has _ _) eqn:Hhas; [|by intros [= <-]].
  unfold BitBoards.is_empty at 1. case_bool_decide as Hfree; [|by intros [= <-]].
  intros (a1 & _ & H)%bind_Some.
  destruct (BitBoards.is_empty a1); [|by injection H as <-].
  apply bind_Some in H as (a2 & _ & H).
  destruct (BitBoards.is_empty a2); injection H as <-; [|done].
  simpl. apply Forall_app. split; [done|].
  apply Forall_cons. split; [by apply Hm|by apply Forall_nil].
Qed.

Lemma free_squares (mask sq : Z) :
  Z.land (GameState.occupancy st) mask = 0 → Z.testbit mask sq = true →
  Z.testbit (GameState.occupancy st) sq = false ∧
  ∀ color, Z.testbit (GameState.forColor st color) sq = false.
Proof.
  intros H Hsq.
  assert (Z.testbit (GameState.occupancy st) sq = false) as Hocc.
  { pose proof (f_equal (λ x, Z.testbit x sq) H) as Hb. simpl in Hb.
    rewrite Z.land_spec, Hsq, Z.bits_0, andb_true_r in Hb. done. }
  split; [done|]. intros color.
  rewrite occupancy_spec in Hocc. apply orb_false_iff in Hocc as [? ?].
  by destruct color.
Qed.

Lemma castle_move_sound (flag mask kingSq rookSq viaSq toSq : Z) (color : Color.t) :
  home st flag color kingSq rookSq →
  GameState.next st = color →
  0 ≤ kingSq < 64 → 0 ≤ toSq < 64 →
  Z.testbit mask viaSq = true → Z.testbit mask toSq = true →
  castle_ready st (plainMove kingSq toSq) →
  CastlingRights.has (GameState.castlingRights st) flag = true →
  Z.land (GameState.occupancy st) mask = 0 →
  sound_move st (plainMove kingSq toSq).
Proof.
  intros Hhome Hnext Hk Ht Hvia Hto Hready Hhas Hfree.
  destruct (Hhome Hhas) as [Hking Hrook].
  destruct (free_squares mask toSq Hfree Hto) as [_ Hown].
  split; [done|]. split; [done|]. split; [apply Hown|].
  exists Piece.king. unfold GameState.us. rewrite Hnext.
  split; [done|]. split; [done|]. done.
Qed.

Lemma generateCastling_sound (g g' : MoveGenerator.t) :
  Forall (sound_move st) (MoveGenerator.moves g) →
  MoveGenerator.generateCastling st g = Some g' →
  Forall (sound_move st) (MoveGenerator.moves g').
Proof.
  intros Hg. unfold MoveGenerator.generateCastling, MoveGenerator.myColor.
  destruct (inv_castling st Hinv) as (Hwk & Hwq & Hbk & Hbq).
  destruct (GameState.next st) eqn:Hnext; intros (g1 & Hg1 & Hg2)%bind_Some.
  - assert (Forall (sound_move st) (MoveGenerator.moves g1)) as Hs1.
    { eapply castle_sound; [exact Hg| |exact Hg1]. intros Hhas Hfree.
      eapply (castle_move_sound _ _ Square.e1 Square.a1 Square.d1 Square.c1);
        try done; try reflexivity.
      unfold castle_ready. split_and!; intros Heq; try discriminate Heq.
      split_and!; [done|by destruct (Hwq Hhas)|by apply (free_squares 0xe Square.d1)]. }
    eapply castle_sound; [exact Hs1| |exact Hg2]. intros Hhas Hfree.
    eapply (castle_move_sound _ _ Square.e1 Square.h1 Square.f1 Square.g1);
      try done; try reflexivity.
    unfold castle_ready. split_and!; intros Heq; try discriminate Heq.
    split_and!; [done|by destruct (Hwk Hhas)|by apply (free_squares 0x60 Square.f1)].
  - assert (Forall (sound_move st) (MoveGenerator.moves g1)) as Hs1.
    { eapply castle_sound; [exact Hg| |exact Hg1]. intros Hhas Hfree.
      eapply (castle_move_sound _ _ Square.e8 Square.a8 Square.d8 Square.c8);
        try done; try reflexivity.
      unfold castle_ready. split_and!; intros Heq; try discriminate Heq.
      split_and!; [done|by destruct (Hbq Hhas)|
                   by apply (free_squares 0xe00000000000000 Square.d8)]. }
    eapply castle_sound; [exact Hs1| |exact Hg2]. intros Hhas Hfree.
    eapply (castle_move_sound _ _ Square.e8 Square.h8 Square.f8 Square.g8);
      try done; try reflexivity.
    unfold castle_ready. split_and!; intros Heq; try discriminate Heq.
    split_and!; [done|by destruct (Hbk Hhas)|by apply (free_squares 0x6000000000000000 Square.f8)].
Qed.

Lemma en_passant_square_free (one e : Z) :
  BitBoards.single (GameState.enPassantSquare st) = Some one →
  word64 one ∧
  (Z.testbit one e = true →
   Z.testbit (GameState.forColor st (GameState.next st)) e = false).
Proof.
  intros [Hrange ->]%shl64_bit_inv. split.
  { rewrite <- wrap64_bit by done. apply wrap64_word. }
  rewrite testbit_bit by lia. intros ->%bool_decide_eq_true.
  destruct Hep as [Hfree _].
  { unfold Square.inRange. by apply bool_decide_eq_true. }
  rewrite occupancy_spec in Hfree. apply orb_false_iff in Hfree as [? ?].
  by destruct (GameState.next st).
Qed.

Lemma enPassantCaptures_sound (kingSquare : Z) (g g' : MoveGenerator.t) :
  Forall (sound_move st) (MoveGenerator.moves g) →
  MoveGenerator.enPassantCaptures st kingSquare g = Some g' →
  Forall (sound_move st) (MoveGenerator.moves g').
Proof.
  intros Hg. unfold MoveGenerator.enPassantCaptures, MoveGenerator.myColor.
  intros (m & Hm & H)%bind_Some.
  apply bind_Some in H as (isTarget & _ & H).
  apply bind_Some in H as (g1 & Hg1 & H).
  assert (Forall (sound_move st) (MoveGenerator.moves g1)) as Hs1.
  { destruct isTarget; [|by injection Hg1 as <-].
    by apply bind_Some in Hg1 as (tg & _ & [= <-]). }
  clear Hg1 Hg.
  set (electable := Z.land m (GameState.forPiece st Piece.pawn
                                (GameState.next st))) in *.
  assert (word64 electable) as Hw
    by apply word64_land_r, (inv_word64 st Hinv).
  assert (∀ s, Z.testbit electable s = true →
               Z.testbit (GameState.forPiece st Piece.pawn (GameState.next st)) s
               = true) as Hpawn.
  { intros s. unfold electable. rewrite Z.land_spec.
    by intros [_ ?]%andb_true_iff. }
  destruct (_ && _).
  - apply bind_Some in H as (attacker & Hattacker & H).
    apply bind_Some in H as (occ & _ & H).
    apply bind_Some in H as (rays & _ & H).
    apply bind_Some in H as (one & Hone & H).
    apply findFirstSet_elem in Hattacker as [_ Hattacker]; [|done].
    eapply enterMoves_sound; [exact Hs1|by apply Hpawn|done| | |exact H].
    + apply word64_land_l. by eapply en_passant_square_free.
    + intros e. rewrite Z.land_spec. intros [? _]%andb_true_iff.
      by eapply en_passant_square_free.
  - apply bind_Some in H as (starts & Hstarts & H). revert H.
    apply (foldl_option_invariant _
      (λ g, Forall (sound_move st) (MoveGenerator.moves g))); [done|].
    intros a s a' Hs Ha (pinned & _ & Hstep)%bind_Some.
    apply bind_Some in Hstep as (one & Hone & Hstep).
    apply (squares_elem _ _ _ Hw Hstarts) in Hs as [_ Hs].
    destruct pinned.
    + eapply enterMoves_sound; [exact Ha|by apply Hpawn|done| | |exact Hstep].
      * apply word64_land_l. by eapply en_passant_square_free.
      * intros e. rewrite Z.land_spec. intros [? _]%andb_true_iff.
        by eapply en_passant_square_free.
    + eapply enterMoves_sound; [exact Ha|by apply Hpawn|done| | |exact Hstep].
      * by eapply en_passant_square_free.
      * intros e. by eapply en_passant_square_free.
Qed.

(** A king's step is never one of the four castling moves. *)
Lemma king_step_not_castle (kingSquare e t : Z) :
  MoveTables.kingMoves kingSquare = Some t → Z.testbit t e = true →
  plainMove kingSquare e ≠ wkCastle ∧ plainMove kingSquare e ≠ wqCastle ∧
  plainMove kingSquare e ≠ bkCastle ∧ plainMove kingSquare e ≠ bqCastle.
Proof.
  intros Ht He.
  split_and!; intros [= -> ->]; vm_compute in Ht; injection Ht as <-;
    vm_compute in He; discriminate He.
Qed.

Lemma generatePlainKingMoves_sound (kingSquare : Z) (g g' : MoveGenerator.t) :
  BitBoards.findFirstSet
    (GameState.forPiece st Piece.king (GameState.next st)) = Some kingSquare →
  Forall (sound_move st) (MoveGenerator.moves g) →
  MoveGenerator.generatePlainKingMoves st kingSquare g = Some g' →
  Forall (sound_move st) (MoveGenerator.moves g').
Proof.
  intros Hking Hg.
  unfold MoveGenerator.generatePlainKingMoves, MoveGenerator.myColor.
  apply findFirstSet_elem in Hking as [Hrange Hking];
    [|apply (inv_word64 st Hinv)].
  intros (withoutKing & _ & H)%bind_Some.
  apply bind_Some in H as (ends & Hends & H).
  apply bind_Some in H as (l & Hl & H). revert H.
  apply (foldl_option_invariant _
    (λ g, Forall (sound_move st) (MoveGenerator.moves g))); [done|].
  intros a e a' He Ha (attacks & _ & Hstep)%bind_Some.
  destruct (BitBoards.is_empty attacks); injection Hstep as <-; [|done].
  simpl. apply Forall_app. split; [done|].
  apply Forall_cons. split; [|by apply Forall_nil].
  unfold GameState.getMoves' in Hends.
  pose proof Hends as Hown. apply getMoves_not_own in Hown as [Hw Hown].
  apply (squares_elem _ _ _ Hw Hl) in He as [He Hbit].
  destruct (getMoves_king_table _ _ _ _ _ _ Hends Hbit) as (t & Ht & Hte).
  destruct (king_step_not_castle _ _ _ Ht Hte) as (? & ? & ? & ?).
  split; [done|]. split; [done|]. split; [by apply Hown|].
  exists Piece.king. split; [done|]. split; [done|].
  intros _. by split_and!.
Qed.

Lemma run_sound (kingSquare : Z) (g : MoveGenerator.t) :
  BitBoards.findFirstSet
    (GameState.forPiece st Piece.king (GameState.next st)) = Some kingSquare →
  MoveGenerator.run st kingSquare = Some g →
  Forall (sound_move st) (MoveGenerator.moves g).
Proof.
  intros Hking. unfold MoveGenerator.run.
  intros (g1 & Hg1%handleLeaperAttacks_moves & H)%bind_Some.
  apply bind_Some in H as (g2 & Hg2%handleLeaperAttacks_moves & H).
  apply bind_Some in H as (g3 & Hg3%handleSliderAttacks_moves & H).
  apply bind_Some in H as (g4 & Hg4 & H).
  assert (Forall (sound_move st) (MoveGenerator.moves g3)) as Hs3.
  { rewrite Hg3, Hg2, Hg1. by apply Forall_nil. }
  eapply generatePlainKingMoves_sound; [exact Hking| |exact H].
  destruct (bool_decide (MoveGenerator.attacksOnKing g3 ≤ 1));
    [|by injection Hg4 as <-].
  apply bind_Some in Hg4 as (g5 & Hg5%standardNonPins_sound & Hg4); [|done].
  apply bind_Some in Hg4 as (g6 & Hg6 & Hg4).
  assert (Forall (sound_move st) (MoveGenerator.moves g6)) as Hs6.
  { destruct (bool_decide (MoveGenerator.attacksOnKing g5 = 0));
      [eapply generateCastling_sound; [exact Hg5|exact Hg6]|
       by injection Hg6 as <-]. }
  destruct (Square.inRange _); [|by injection Hg4 as <-].
  eapply enPassantCaptures_sound; [exact Hs6|exact Hg4].
Qed.

Lemma generateLegalMoves_sound (l : list Move) :
  generateLegalMoves st = Some l → Forall (sound_move st) l.
Proof.
  unfold generateLegalMoves, MoveGenerator.make.
  intros (g & Hg & [= <-])%bind_Some.
  apply bind_Some in Hg as (kingSquare & Hking & Hrun).
  by eapply run_sound.
Qed.
End GeneratorSound.

(** ** What stands on a square *)

Lemma mbind_Some {A B : Type} (x : A) (f : A → option B) : Some x ≫= f = f x.
Proof. done. Qed.

Lemma land_bit_nonzero (x sq : Z) :
  0 ≤ sq → Z.land x (Z.shiftl 1 sq) ≠ 0 ↔ Z.testbit x sq = true.
Proof.
  intros Hsq. split.
  - intros Hne. destruct (Z.testbit x sq) eqn:Hb; [done|].
    exfalso. apply Hne. apply Z.bits_inj'. intros i Hi.
    rewrite Z.land_spec, testbit_bit, Z.bits_0 by done.
    case_bool_decide as Heq; [subst; by rewrite Hb|by rewrite andb_false_r].
  - intros Hb Hz. pose proof (f_equal (λ y, Z.testbit y sq) Hz) as Hc.
    simpl in Hc. rewrite Z.land_spec, Hb, testbit_bit, Z.bits_0 in Hc by done.
    by rewrite bool_decide_true in Hc.
Qed.

Lemma stands_of_bit (st : GameState.t) (sq : Z) (color : Color.t)
    (kind : Piece.t) :
  boards_disjoint st →
  Z.testbit (GameState.forPiece st kind color) sq = true →
  stands st sq color kind.
Proof.
  intros Hd Hb c k. case_bool_decide as Heq.
  - by destruct Heq as [-> ->].
  - assert ((c, k) ≠ (color, kind)) as Hne by (intros [= -> ->]; by apply Heq).
    pose proof (f_equal (λ y, Z.testbit y sq) (Hd c k color kind Hne)) as Hc.
    simpl in Hc. rewrite Z.land_spec, Hb, Z.bits_0, andb_true_r in Hc. done.
Qed.

Lemma vacant_of_occupancy (st : GameState.t) (sq : Z) :
  Z.testbit (GameState.occupancy st) sq = false → vacant st sq.
Proof.
  rewrite occupancy_spec. intros [? ?]%orb_false_iff c k.
  destruct c; by apply forColor_false.
Qed.

Lemma stands_kind (st : GameState.t) (sq : Z) (color : Color.t) (kind : Piece.t) :
  stands st sq color kind → kind ≠ Piece.empty.
Proof.
  intros H ->. specialize (H color Piece.empty).
  rewrite bool_decide_true in H by done.
  unfold GameState.forPiece in H. simpl in H. by rewrite Z.bits_0 in H.
Qed.

(** A square the side to move does not hold is free or holds an enemy. *)
Lemma not_own_content (st : GameState.t) (sq : Z) (color : Color.t) :
  boards_disjoint st →
  Z.testbit (GameState.forColor st color) sq = false →
  vacant st sq ∨ ∃ kind, stands st sq (Color.opponent color) kind.
Proof.
  intros Hd Hown.
  destruct (Z.testbit (GameState.forColor st (Color.opponent color)) sq) eqn:Hopp.
  - right. apply forColor_spec in Hopp as [kind Hkind].
    exists kind. by apply stands_of_bit.
  - left. apply vacant_of_occupancy. rewrite occupancy_spec.
    destruct color; simpl in Hopp; by rewrite Hown, Hopp.
Qed.

Lemma getPiece_test (st : GameState.t) (sq : Z) (k : Piece.t) :
  0 ≤ sq →
  bool_decide (Z.land (Z.lor (GameState.forPiece st k Color.white)
                             (GameState.forPiece st k Color.black))
                      (Z.shiftl 1 sq) ≠ 0)
  = Z.testbit (GameState.forPiece st k Color.white) sq
    || Z.testbit (GameState.forPiece st k Color.black) sq.
Proof.
  intros Hsq. rewrite <- Z.lor_spec.
  destruct (Z.testbit _ sq) eqn:Hb.
  - apply bool_decide_eq_true. by apply land_bit_nonzero.
  - apply bool_decide_eq_false. rewrite land_bit_nonzero by done. by rewrite Hb.
Qed.

Lemma getPiece_stands (st : GameState.t) (sq : Z) (color : Color.t)
    (kind : Piece.t) :
  0 ≤ sq < 64 → stands st sq color kind →
  GameState.getPiece st sq = Some kind.
Proof.
  intros Hsq Hst. pose proof (stands_kind _ _ _ _ Hst) as Hk.
  unfold GameState.getPiece. rewrite shl64_bit, mbind_Some by done. f_equal.
  unfold Piece.all. cbn [find].
  rewrite !getPiece_test by lia. rewrite !Hst.
  destruct color, kind; done.
Qed.

Lemma getPiece_vacant (st : GameState.t) (sq : Z) :
  0 ≤ sq < 64 → vacant st sq → GameState.getPiece st sq = Some Piece.empty.
Proof.
  intros Hsq Hv. unfold GameState.getPiece.
  rewrite shl64_bit, mbind_Some by done.
  f_equal. unfold Piece.all. cbn [find].
  rewrite !getPiece_test by lia. by rewrite !Hv.
Qed.

(** ** Putting and removing a piece *)

Lemma forPiece_get (st : GameState.t) (k : Piece.t) (c : Color.t) :
  GameState.forPiece st k c = Boards.get (GameState.boards st) c k.
Proof. done. Qed.

Lemma unset_spec (st : GameState.t) (sq : Z) :
  0 ≤ sq < 64 →
  ∃ st', GameState.unset st sq = Some st' ∧
         same_status st st' ∧
         boards_word64 st' ∧
         ∀ c k i, 0 ≤ i < 64 →
           Z.testbit (GameState.forPiece st' k c) i
           = Z.testbit (GameState.forPiece st k c) i && negb (bool_decide (i = sq)).
Proof.
  intros Hsq. unfold GameState.unset. rewrite shl64_bit by done. simpl.
  eexists. split; [done|]. split; [by repeat split|]. split.
  - intros c k. rewrite forPiece_get. simpl.
    destruct (decide (k = Piece.empty)) as [->|Hk]; [by destruct c|].
    rewrite boards_get_map by done. apply word64_land_r, wrap64_word.
  - intros c k i Hi. rewrite !forPiece_get. simpl.
    destruct (decide (k = Piece.empty)) as [->|Hk].
    { destruct c; simpl; by rewrite Z.bits_0. }
    rewrite boards_get_map by done.
    rewrite Z.land_spec, testbit_lnot64, testbit_bit by lia.
    by rewrite (bool_decide_true (0 ≤ i < 64)), andb_true_r by done.
Qed.

Lemma set_spec (st : GameState.t) (sq : Z) (kind : Piece.t) (color : Color.t) :
  0 ≤ sq < 64 → kind ≠ Piece.empty → boards_word64 st →
  ∃ st', GameState.set st sq kind color = Some st' ∧
         same_status st st' ∧
         boards_word64 st' ∧
         ∀ c k i, 0 ≤ i < 64 →
           Z.testbit (GameState.forPiece st' k c) i
           = Z.testbit (GameState.forPiece st k c) i
             || bool_decide (c = color ∧ k = kind) && bool_decide (i = sq).
Proof.
  intros Hsq Hkind Hw. unfold GameState.set. rewrite shl64_bit by done. simpl.
  rewrite bool_decide_false by done.
  eexists. split; [done|]. split; [by repeat split|]. split.
  - intros c k. rewrite forPiece_get. simpl.
    rewrite boards_get_update by done. case_bool_decide as Heq; [|apply Hw].
    apply word64_lor; [apply Hw|].
    rewrite <- wrap64_bit by done. apply wrap64_word.
  - intros c k i Hi. rewrite !forPiece_get. simpl.
    rewrite boards_get_update by done.
    case_bool_decide as Heq; simpl; [|by rewrite orb_false_r].
    destruct Heq as [-> ->]. by rewrite Z.lor_spec, testbit_bit by lia.
Qed.

Lemma state_eq (a b : GameState.t) :
  same_status a b → boards_word64 a → boards_word64 b →
  (∀ c k i, 0 ≤ i < 64 →
     Z.testbit (GameState.forPiece a k c) i = Z.testbit (GameState.forPiece b k c) i) →
  a = b.
Proof.
  intros (Hn & Hr & He & Hh & Hs) Ha Hb Hbits.
  destruct a as [ba ? ? ? ? ?], b as [bb ? ? ? ? ?]. simpl in *. subst.
  f_equal. apply boards_eq. intros c k. apply Z.bits_inj'. intros i Hi.
  destruct (decide (i < 64)) as [Hlt|Hge]; [by apply Hbits|].
  specialize (Ha c k). specialize (Hb c k). rewrite forPiece_get in Ha, Hb.
  simpl in Ha, Hb. by rewrite (word64_high _ i Ha), (word64_high _ i Hb) by lia.
Qed.

(** ** Make and unmake on the boards *)

Lemma stands_vacant_ne (st : GameState.t) (a b : Z) (c : Color.t) (k : Piece.t) :
  stands st a c k → vacant st b → a ≠ b.
Proof.
  intros Hs Hv ->. specialize (Hs c k). rewrite Hv in Hs.
  by rewrite bool_decide_true in Hs.
Qed.

Lemma stands_stands_ne (st : GameState.t) (a b : Z) (c c' : Color.t)
    (k k' : Piece.t) :
  stands st a c k → stands st b c' k' → c ≠ c' → a ≠ b.
Proof.
  intros Hs Hs' Hne ->. specialize (Hs c k). rewrite Hs' in Hs.
  rewrite (bool_decide_false (c = c' ∧ k = k')) in Hs by (by intros [? _]).
  by rewrite bool_decide_true in Hs.
Qed.

Lemma opponent_ne (c : Color.t) : c ≠ Color.opponent c.
Proof. by destruct c. Qed.

Lemma boards_eq_bits (a b : GameState.t) :
  boards_word64 a → boards_word64 b →
  (∀ c k i, 0 ≤ i < 64 →
     Z.testbit (GameState.forPiece a k c) i = Z.testbit (GameState.forPiece b k c) i) →
  GameState.boards a = GameState.boards b.
Proof.
  intros Ha Hb Hbits. apply boards_eq. intros c k.
  apply Z.bits_inj'. intros i Hi.
  destruct (decide (i < 64)) as [Hlt|Hge]; [by apply Hbits|].
  specialize (Ha c k). specialize (Hb c k). rewrite forPiece_get in Ha, Hb.
  by rewrite (word64_high _ i Ha), (word64_high _ i Hb) by lia.
Qed.

Lemma boards_word64_boards (a b : GameState.t) :
  GameState.boards a = GameState.boards b → boards_word64 a → boards_word64 b.
Proof. intros H Ha c k. rewrite forPiece_get, <- H. apply Ha. Qed.

(** Symbolic execution of the board changes: the next [unset] or [set] of
    the goal is replaced by the state it returns; its side to move is
    expressed by that of [sa]. *)
Ltac norm_next :=
  unfold GameState.us, GameState.them;
  repeat match goal with
         | N : GameState.next ?s = GameState.next _
           |- context [GameState.next ?s] => rewrite N
         end.

Ltac step_unset sa s' :=
  norm_next;
  match goal with
  | |- context [GameState.unset ?st ?sq] =>
      let E := fresh "E" in
      let S := fresh "S" in
      let W := fresh "W" in
      let B := fresh "B" in
      let N := fresh "N" in
      destruct (unset_spec st sq) as (s' & E & S & W & B); [done|];
      rewrite E, ?mbind_Some; cbv beta; clear E;
      assert (GameState.next s' = GameState.next sa) as N
        by (destruct S as (? & _); congruence)
  end.

Ltac step_set sa s' :=
  norm_next;
  match goal with
  | |- context [GameState.set ?st ?sq ?kind ?color] =>
      let E := fresh "E" in
      let S := fresh "S" in
      let W := fresh "W" in
      let B := fresh "B" in
      let N := fresh "N" in
      destruct (set_spec st sq kind color) as (s' & E & S & W & B);
      [done|done|done|];
      rewrite E, ?mbind_Some; cbv beta; clear E;
      assert (GameState.next s' = GameState.next sa) as N
        by (destruct S as (? & _); congruence)
  end.

Ltac status_chain :=
  repeat match goal with
         | S : same_status ?a ?b |- same_status ?a ?c =>
             first [exact S | apply (same_status_trans a b c S)]
         end.

Ltac rewrite_bits :=
  repeat match goal with
         | B : ∀ c k i, 0 ≤ i < 64 → Z.testbit (GameState.forPiece ?s k c) i = _
           |- context [Z.testbit (GameState.forPiece ?s _ _) _] =>
             rewrite B by done
         end.

(** The bits of a board at a square whose content is known. *)
Ltac at_square i q H :=
  destruct (decide (i = q)) as [->|?];
  [ rewrite ?H | ].

Ltac close_bits :=
  norm_next;
  repeat match goal with
         | |- context [bool_decide (?a = ?b)] =>
             first [ rewrite (bool_decide_true (a = b)) by lia
                   | rewrite (bool_decide_false (a = b)) by lia ]
         end;
  cbn [andb orb negb];
  rewrite ?andb_false_r, ?orb_false_r, ?andb_true_r, ?orb_true_r;
  repeat case_bool_decide; simplify_eq; try done;
  try (by destruct (Z.testbit _ _));
  try (exfalso; intuition congruence).

(** The tests of the goal that the context decides. *)
Ltac decide_conds :=
  repeat match goal with
         | |- context [bool_decide ?P] =>
             first [ rewrite (bool_decide_true P) by done
                   | rewrite (bool_decide_false P)
                       by (first [ done
                                 | let H := fresh in
                                   intros H; first [ done | by apply H ] ]) ]
         end;
  rewrite ?andb_true_l, ?andb_false_l, ?andb_false_r, ?andb_true_r;
  cbv beta iota; rewrite ?mbind_Some; cbv beta.

Ltac finish_state :=
  eexists; split; [reflexivity|]; split; [status_chain|].

Ltac compare_boards sc Hbsc :=
  apply boards_eq_bits; [done|done|];
  let c := fresh "c" in
  let k := fresh "k" in
  let i := fresh "i" in
  let Hi := fresh "Hi" in
  intros c k i Hi; rewrite_bits;
  rewrite !(forPiece_get sc), Hbsc, <- !forPiece_get; rewrite_bits.

Lemma boards_round_trip (sa : GameState.t) (info : UndoInfo.t) (promo : Piece.t) :
  boards_word64 sa → faithful_info sa info →
  ∃ sb, GameState.applyToBoards sa info promo = Some sb ∧
        same_status sa sb ∧
        ∀ sc, GameState.boards sc = GameState.boards sb →
              GameState.next sc = GameState.next sa →
              ∃ sd, GameState.revertBoards sc info = Some sd ∧
                    same_status sc sd ∧
                    GameState.boards sd = GameState.boards sa.
Proof.
  intros Hw (Hs & He & Hstart & Hflags).
  pose proof (stands_kind _ _ _ _ Hstart) as Hpiece.
  unfold GameState.applyToBoards, GameState.revertBoards, GameState.moveRook.
  destruct info as [piece capture s e epq rights half flags].
  unfold end_content, castle_squares in Hflags.
  cbn [UndoInfo.piece UndoInfo.capture UndoInfo.start UndoInfo.end_
       UndoInfo.enPassant UndoInfo.flags] in *.
  assert (∀ st color, ∃ kind, kind ≠ Piece.empty ∧
            (if bool_decide (promo ≠ Piece.empty)
             then GameState.set st e promo color
             else GameState.set st e piece color)
            = GameState.set st e kind color) as Hkind.
  { intros st color. case_bool_decide; eauto. }
  pose proof (opponent_ne (GameState.next sa)) as Hopp.
  destruct flags; unfold end_content, castle_squares in Hflags;
    cbn [UndoInfo.piece UndoInfo.capture UndoInfo.start UndoInfo.end_
         UndoInfo.enPassant UndoInfo.flags] in Hflags.
  - (* no flag *)
    destruct Hflags as [[-> Hv]|Hcap].
    + pose proof (stands_vacant_ne _ _ _ _ _ Hstart Hv).
      decide_conds. step_unset sa t1.
      norm_next. destruct (Hkind t1 (GameState.next sa)) as (kind & ? & ->).
      step_set sa t2. finish_state.
      intros sc Hbsc Nsc.
      assert (boards_word64 sc) as Wsc by (by eapply boards_word64_boards).
      step_unset sa t3. step_set sa t4. finish_state.
      compare_boards sc Hbsc.
      at_square i s Hstart; [|at_square i e Hv]; close_bits.
    + pose proof (stands_kind _ _ _ _ Hcap).
      pose proof (stands_stands_ne _ _ _ _ _ _ _ Hstart Hcap Hopp).
      decide_conds. step_unset sa t1. step_unset sa t2.
      norm_next. destruct (Hkind t2 (GameState.next sa)) as (kind & ? & ->).
      step_set sa t3. finish_state.
      intros sc Hbsc Nsc.
      assert (boards_word64 sc) as Wsc by (by eapply boards_word64_boards).
      step_unset sa t4. step_set sa t5. step_set sa t6. finish_state.
      compare_boards sc Hbsc.
      at_square i s Hstart; [|at_square i e Hcap]; close_bits.
  - (* en passant *)
    destruct Hflags as (-> & -> & Hv & Hc & Hcap).
    pose proof (stands_vacant_ne _ _ _ _ _ Hstart Hv).
    pose proof (stands_vacant_ne _ _ _ _ _ Hcap Hv).
    pose proof (stands_stands_ne _ _ _ _ _ _ _ Hstart Hcap Hopp).
    decide_conds. step_unset sa t1. step_unset sa t2. step_unset sa t3.
    norm_next. destruct (Hkind t3 (GameState.next sa)) as (kind & ? & ->).
    step_set sa t4. finish_state.
    intros sc Hbsc Nsc.
    assert (boards_word64 sc) as Wsc by (by eapply boards_word64_boards).
    step_unset sa t5. step_set sa t6. step_set sa t7. finish_state.
    compare_boards sc Hbsc.
    at_square i s Hstart;
      [|at_square i e Hv;
        [|at_square i (GameState.enPassantCapture epq) Hcap]]; close_bits.
  - (* white, king side *)
    unfold Square.e1, Square.g1, Square.h1, Square.f1 in *.
    destruct Hflags as (-> & -> & Hrook & Hvia & [[-> Hv]|Hcap]).
    + decide_conds. step_unset sa t1. step_set sa t2. step_unset sa t3.
      norm_next. destruct (Hkind t3 (GameState.next sa)) as (kind & ? & ->).
      step_set sa t4. finish_state.
      intros sc Hbsc Nsc.
      assert (boards_word64 sc) as Wsc by (by eapply boards_word64_boards).
      step_unset sa t5. step_unset sa t6. step_set sa t7. step_set sa t8.
      finish_state.
      compare_boards sc Hbsc.
      at_square i 4 Hstart;
        [|at_square i 6 Hv;
          [|at_square i 7 Hrook; [|at_square i 5 Hvia]]];
        close_bits.
    + pose proof (stands_kind _ _ _ _ Hcap).
      decide_conds. step_unset sa t1. step_unset sa t2. step_set sa t3.
      step_unset sa t4.
      norm_next. destruct (Hkind t4 (GameState.next sa)) as (kind & ? & ->).
      step_set sa t5. finish_state.
      intros sc Hbsc Nsc.
      assert (boards_word64 sc) as Wsc by (by eapply boards_word64_boards).
      step_unset sa t6. step_set sa t7. step_unset sa t8. step_set sa t9.
      step_set sa t10. finish_state.
      compare_boards sc Hbsc.
      at_square i 4 Hstart;
        [|at_square i 6 Hcap;
          [|at_square i 7 Hrook; [|at_square i 5 Hvia]]];
        close_bits.
  - (* white, queen side *)
    unfold Square.e1, Square.c1, Square.a1, Square.d1 in *.
    destruct Hflags as (-> & -> & Hrook & Hvia & [[-> Hv]|Hcap]).
    + decide_conds. step_unset sa t1. step_set sa t2. step_unset sa t3.
      norm_next. destruct (Hkind t3 (GameState.next sa)) as (kind & ? & ->).
      step_set sa t4. finish_state.
      intros sc Hbsc Nsc.
      assert (boards_word64 sc) as Wsc by (by eapply boards_word64_boards).
      step_unset sa t5. step_unset sa t6. step_set sa t7. step_set sa t8.
      finish_state.
      compare_boards sc Hbsc.
      at_square i 4 Hstart;
        [|at_square i 2 Hv;
          [|at_square i 0 Hrook; [|at_square i 3 Hvia]]];
        close_bits.
    + pose proof (stands_kind _ _ _ _ Hcap).
      decide_conds. step_unset sa t1. step_unset sa t2. step_set sa t3.
      step_unset sa t4.
      norm_next. destruct (Hkind t4 (GameState.next sa)) as (kind & ? & ->).
      step_set sa t5. finish_state.
      intros sc Hbsc Nsc.
      assert (boards_word64 sc) as Wsc by (by eapply boards_word64_boards).
      step_unset sa t6. step_set sa t7. step_unset sa t8. step_set sa t9.
      step_set sa t10. finish_state.
      compare_boards sc Hbsc.
      at_square i 4 Hstart;
        [|at_square i 2 Hcap;
          [|at_square i 0 Hrook; [|at_square i 3 Hvia]]];
        close_bits.
  - (* black, king side *)
    unfold Square.e8, Square.g8, Square.h8, Square.f8 in *.
    destruct Hflags as (-> & -> & Hrook & Hvia & [[-> Hv]|Hcap]).
    + decide_conds. step_unset sa t1. step_set sa t2. step_unset sa t3.
      norm_next. destruct (Hkind t3 (GameState.next sa)) as (kind & ? & ->).
      step_set sa t4. finish_state.
      intros sc Hbsc Nsc.
      assert (boards_word64 sc) as Wsc by (by eapply boards_word64_boards).
      step_unset sa t5. step_unset sa t6. step_set sa t7. step_set sa t8.
      finish_state.
      compare_boards sc Hbsc.
      at_square i 60 Hstart;
        [|at_square i 62 Hv;
          [|at_square i 63 Hrook; [|at_square i 61 Hvia]]];
        close_bits.
    + pose proof (stands_kind _ _ _ _ Hcap).
      decide_conds. step_unset sa t1. step_unset sa t2. step_set sa t3.
      step_unset sa t4.
      norm_next. destruct (Hkind t4 (GameState.next sa)) as (kind & ? & ->).
      step_set sa t5. finish_state.
      intros sc Hbsc Nsc.
      assert (boards_word64 sc) as Wsc by (by eapply boards_word64_boards).
      step_unset sa t6. step_set sa t7. step_unset sa t8. step_set sa t9.
      step_set sa t10. finish_state.
      compare_boards sc Hbsc.
      at_square i 60 Hstart;
        [|at_square i 62 Hcap;
          [|at_square i 63 Hrook; [|at_square i 61 Hvia]]];
        close_bits.
  - (* black, queen side *)
    unfold Square.e8, Square.c8, Square.a8, Square.d8 in *.
    destruct Hflags as (-> & -> & Hrook & Hvia & [[-> Hv]|Hcap]).
    + decide_conds. step_unset sa t1. step_set sa t2. step_unset sa t3.
      norm_next. destruct (Hkind t3 (GameState.next sa)) as (kind & ? & ->).
      step_set sa t4. finish_state.
      intros sc Hbsc Nsc.
      assert (boards_word64 sc) as Wsc by (by eapply boards_word64_boards).
      step_unset sa t5. step_unset sa t6. step_set sa t7. step_set sa t8.
      finish_state.
      compare_boards sc Hbsc.
      at_square i 60 Hstart;
        [|at_square i 58 Hv;
          [|at_square i 56 Hrook; [|at_square i 59 Hvia]]];
        close_bits.
    + pose proof (stands_kind _ _ _ _ Hcap).
      decide_conds. step_unset sa t1. step_unset sa t2. step_set sa t3.
      step_unset sa t4.
      norm_next. destruct (Hkind t4 (GameState.next sa)) as (kind & ? & ->).
      step_set sa t5. finish_state.
      intros sc Hbsc Nsc.
      assert (boards_word64 sc) as Wsc by (by eapply boards_word64_boards).
      step_unset sa t6. step_set sa t7. step_unset sa t8. step_set sa t9.
      step_set sa t10. finish_state.
      compare_boards sc Hbsc.
      at_square i 60 Hstart;
        [|at_square i 58 Hcap;
          [|at_square i 56 Hrook; [|at_square i 59 Hvia]]];
        close_bits.
  - (* promotion *)
    destruct Hflags as (-> & [[-> Hv]|Hcap]).
    + pose proof (stands_vacant_ne _ _ _ _ _ Hstart Hv).
      decide_conds. step_unset sa t1.
      norm_next. destruct (Hkind t1 (GameState.next sa)) as (kind & ? & ->).
      step_set sa t2. finish_state.
      intros sc Hbsc Nsc.
      assert (boards_word64 sc) as Wsc by (by eapply boards_word64_boards).
      step_unset sa t3. step_set sa t4. finish_state.
      compare_boards sc Hbsc.
      at_square i s Hstart; [|at_square i e Hv]; close_bits.
    + pose proof (stands_kind _ _ _ _ Hcap).
      pose proof (stands_stands_ne _ _ _ _ _ _ _ Hstart Hcap Hopp).
      decide_conds. step_unset sa t1. step_unset sa t2.
      norm_next. destruct (Hkind t2 (GameState.next sa)) as (kind & ? & ->).
      step_set sa t3. finish_state.
      intros sc Hbsc Nsc.
      assert (boards_word64 sc) as Wsc by (by eapply boards_word64_boards).
      step_unset sa t4. step_set sa t5. step_set sa t6. finish_state.
      compare_boards sc Hbsc.
      at_square i s Hstart; [|at_square i e Hcap]; close_bits.
Qed.

(** ** The undo record of a sound move *)

Lemma stands_boards (a b : GameState.t) (sq : Z) (c : Color.t) (k : Piece.t) :
  GameState.boards a = GameState.boards b → stands a sq c k → stands b sq c k.
Proof.
  intros H Hs c' k'. specialize (Hs c' k'). by rewrite !forPiece_get, <- H.
Qed.

Lemma vacant_boards (a b : GameState.t) (sq : Z) :
  GameState.boards a = GameState.boards b → vacant a sq → vacant b sq.
Proof.
  intros H Hv c k. specialize (Hv c k). by rewrite !forPiece_get, <- H.
Qed.

Lemma end_content_boards (a b : GameState.t) (info : UndoInfo.t) :
  GameState.boards a = GameState.boards b →
  GameState.next a = GameState.next b →
  end_content a info → end_content b info.
Proof.
  intros Hb Hn [[? ?]|?]; [left|right].
  - split; [done|by eapply vacant_boards].
  - unfold GameState.them. rewrite <- Hn. by eapply stands_boards.
Qed.

Lemma castle_squares_boards (a b : GameState.t) (info : UndoInfo.t)
    (k t r v : Z) :
  GameState.boards a = GameState.boards b →
  GameState.next a = GameState.next b →
  castle_squares a info k t r v → castle_squares b info k t r v.
Proof.
  intros Hb Hn (? & ? & ? & ? & ?). split_and!; try done; try lia.
  - unfold GameState.us. rewrite <- Hn. by eapply stands_boards.
  - by eapply vacant_boards.
  - by eapply end_content_boards.
Qed.

Lemma faithful_info_boards (a b : GameState.t) (info : UndoInfo.t) :
  GameState.boards a = GameState.boards b →
  GameState.next a = GameState.next b →
  faithful_info a info → faithful_info b info.
Proof.
  intros Hb Hn (? & ? & Hstart & Hflags). split_and!; try done; try lia.
  - unfold GameState.us. rewrite <- Hn. by eapply stands_boards.
  - destruct (UndoInfo.flags info);
      try (by eapply castle_squares_boards);
      try (by eapply end_content_boards).
    + destruct Hflags as (? & ? & ? & ? & ?). split_and!; try done; try lia.
      * by eapply vacant_boards.
      * unfold GameState.them. rewrite <- Hn. by eapply stands_boards.
    + destruct Hflags as [? ?]. split; [done|by eapply end_content_boards].
Qed.

Lemma makeUndoInfo_faithful (st : GameState.t) (m : Move) :
  data_model_invariants st → en_passant_consistent st → sound_move st m →
  ∃ info, GameState.makeUndoInfo st m = Some info ∧
          faithful_info st info ∧
          UndoInfo.enPassant info = GameState.enPassantSquare st ∧
          UndoInfo.castlingRights info = GameState.castlingRights st ∧
          UndoInfo.uneventfulHalfMoves info = GameState.uneventfulHalfMoves st.
Proof.
  intros Hinv Hep (Hs & He & Hown & kind & Hkind & Hpromo & Hcastle).
  pose proof (stands_of_bit _ _ _ _ (inv_disjoint st Hinv) Hkind) as Hstart.
  assert (∃ capture, GameState.getPiece st (end_ m) = Some capture ∧
            (capture = Piece.empty ∧ vacant st (end_ m) ∨
             stands st (end_ m) (GameState.them st) capture))
    as (capture & Hcapture & Hend).
  { destruct (not_own_content _ _ _ (inv_disjoint st Hinv) Hown) as [Hv|[k Hk]].
    - exists Piece.empty. split; [by apply getPiece_vacant|by left].
    - exists k. split; [by eapply getPiece_stands|by right]. }
  unfold GameState.makeUndoInfo.
  rewrite (getPiece_stands _ _ _ _ Hs Hstart), mbind_Some, Hcapture, mbind_Some.
  eexists. split; [reflexivity|].
  destruct (bool_decide (GameState.enPassantSquare st = end_ m) &&
            bool_decide (kind = Piece.pawn)) eqn:Hflag.
  { apply andb_true_iff in Hflag
      as [Heq%bool_decide_eq_true ->%bool_decide_eq_true].
    destruct Hep as [Hfree Hpawn].
    { rewrite Heq. unfold Square.inRange. by apply bool_decide_eq_true. }
    split; [|done]. split; [done|]. split; [done|]. split; [done|].
    cbn. split; [done|]. split; [done|].
    split; [apply vacant_of_occupancy; by rewrite <- Heq|].
    split; [by eapply word64_bit_range; [apply (inv_word64 st Hinv)|]|].
    by apply stands_of_bit; [apply (inv_disjoint st Hinv)|]. }
  assert (∀ flag (r v k t : Z) (color : Color.t) (mv : Move),
            mv = plainMove k t →
            (mv = m → GameState.next st = color ∧
               Z.testbit (GameState.forPiece st Piece.rook color) r = true ∧
               Z.testbit (GameState.occupancy st) v = false) →
            m = mv →
            castle_squares st
              (UndoInfo.mk kind capture (start m) (end_ m)
                 (GameState.enPassantSquare st) (GameState.castlingRights st)
                 (GameState.uneventfulHalfMoves st) flag) k t r v) as Hsquares.
  { intros flag r v k t color mv -> Hready ->.
    destruct Hready as (Hn & Hrook & Hvia); [done|].
    split; [done|]. split; [done|]. unfold GameState.us. rewrite Hn.
    split; [by apply stands_of_bit; [apply (inv_disjoint st Hinv)|]|].
    split; [by apply vacant_of_occupancy|done]. }
  destruct (bool_decide (m = wkCastle) && bool_decide (kind = Piece.king))
    eqn:Hwk.
  { apply andb_true_iff in Hwk as [Heq%bool_decide_eq_true Hk%bool_decide_eq_true].
    destruct (Hcastle Hk) as (Hready & _).
    split; [|done]. split; [done|]. split; [done|]. split; [done|].
    eapply (Hsquares _ _ _ _ _ _ wkCastle); [done| |done].
    intros ?. by apply Hready. }
  destruct (bool_decide (m = wqCastle) && bool_decide (kind = Piece.king))
    eqn:Hwq.
  { apply andb_true_iff in Hwq as [Heq%bool_decide_eq_true Hk%bool_decide_eq_true].
    destruct (Hcastle Hk) as (_ & Hready & _).
    split; [|done]. split; [done|]. split; [done|]. split; [done|].
    eapply (Hsquares _ _ _ _ _ _ wqCastle); [done| |done].
    intros ?. by apply Hready. }
  destruct (bool_decide (m = bkCastle) && bool_decide (kind = Piece.king))
    eqn:Hbk.
  { apply andb_true_iff in Hbk as [Heq%bool_decide_eq_true Hk%bool_decide_eq_true].
    destruct (Hcastle Hk) as (_ & _ & Hready & _).
    split; [|done]. split; [done|]. split; [done|]. split; [done|].
    eapply (Hsquares _ _ _ _ _ _ bkCastle); [done| |done].
    intros ?. by apply Hready. }
  destruct (bool_decide (m = bqCastle) && bool_decide (kind = Piece.king))
    eqn:Hbq.
  { apply andb_true_iff in Hbq as [Heq%bool_decide_eq_true Hk%bool_decide_eq_true].
    destruct (Hcastle Hk) as (_ & _ & _ & Hready).
    split; [|done]. split; [done|]. split; [done|]. split; [done|].
    eapply (Hsquares _ _ _ _ _ _ bqCastle); [done| |done].
    intros ?. by apply Hready. }
  destruct (bool_decide (promotion m ≠ Piece.empty)) eqn:Hp.
  - apply bool_decide_eq_true in Hp.
    split; [|done]. split; [done|]. split; [done|]. split; [done|].
    cbn. split; [by apply Hpromo|done].
  - split; [|done]. split; [done|]. split; [done|]. split; [done|]. done.
Qed.

(** ** The reach of a rook lies on its file and its rank *)

Lemma bit_at_test (f r e : Z) :
  Z.testbit (MoveTables.bit_at f r) e = true →
  0 ≤ f < 8 ∧ 0 ≤ r < 8 ∧ e = Square.index f r.
Proof.
  unfold MoveTables.bit_at, Coord.inRange.
  destruct (bool_decide (0 ≤ f < 8)) eqn:Hf; cbn [andb];
    [|by rewrite Z.bits_0].
  destruct (bool_decide (0 ≤ r < 8)) eqn:Hr; [|by rewrite Z.bits_0].
  apply bool_decide_eq_true in Hf, Hr.
  rewrite testbit_bit by (unfold Square.index; lia).
  by intros ->%bool_decide_eq_true.
Qed.

Lemma ray_line (steps : nat) (f r df dr blockers e : Z) :
  Z.testbit (MoveTables.ray steps f r df dr blockers) e = true →
  ∃ k, 0 < k ∧ 0 ≤ f + k * df < 8 ∧ 0 ≤ r + k * dr < 8 ∧
       e = Square.index (f + k * df) (r + k * dr).
Proof.
  revert f r. induction steps as [|steps IH]; intros f r; cbn [MoveTables.ray].
  { by rewrite Z.bits_0. }
  assert (Z.testbit (MoveTables.bit_at (f + df) (r + dr)) e = true →
          ∃ k, 0 < k ∧ 0 ≤ f + k * df < 8 ∧ 0 ≤ r + k * dr < 8 ∧
               e = Square.index (f + k * df) (r + k * dr)) as Hfirst.
  { intros (? & ? & ->)%bit_at_test. exists 1.
    rewrite !Z.mul_1_l. split_and!; (done || lia). }
  destruct (_ && _); [|by rewrite Z.bits_0].
  destruct (Z.testbit blockers _); [exact Hfirst|].
  rewrite Z.lor_spec. intros [H|H]%orb_true_iff; [by apply Hfirst|].
  apply IH in H as (k & Hk & Hf & Hr & ->). exists (k + 1).
  replace (f + (k + 1) * df) with (f + df + k * df) by lia.
  replace (r + (k + 1) * dr) with (r + dr + k * dr) by lia.
  split_and!; (done || lia).
Qed.

Lemma rook_reach_line (sq blockers reach e : Z) :
  MoveTables.rookLookUp sq blockers = Some reach →
  Z.testbit reach e = true →
  Square.file e = Square.file sq ∨ Square.rank e = Square.rank sq.
Proof.
  unfold MoveTables.rookLookUp, Square.inRange.
  case_bool_decide as Hsq; [|done]. intros Heq.
  assert (reach = MoveTables.rays sq [(0, 1); (1, 0); (0, -1); (-1, 0)] blockers)
    as -> by congruence.
  clear Heq. unfold MoveTables.rays. cbn [foldr fst snd].
  rewrite !Z.lor_spec, Z.bits_0, orb_false_r, !orb_true_iff.
  unfold Square.file, Square.rank.
  intros [H|[H|[H|H]]];
    apply ray_line in H as (k & Hk & Hf & Hr & ->); unfold Square.index;
    [left|right|left|right]; Z.div_mod_to_equations; lia.
Qed.

(** ** En passant with the king on the rank of the captured pawn, in general *)

(** Whenever the branch for a king on the rank of the captured pawn is
    taken, it enters no move: the destination is intersected with the rook
    rays of the king, and the en-passant square, one rank off the king's and
    on the file of another square of that rank, is on none of them. *)
Lemma enPassantCaptures_king_rank (st : GameState.t) (kingSquare m : Z)
    (g g' : MoveGenerator.t) :
  let ep := GameState.enPassantSquare st in
  let capturePawn := GameState.enPassantCapture ep in
  Square.inRange ep = true → en_passant_rank st →
  Square.rank kingSquare = Square.rank capturePawn →
  kingSquare ≠ capturePawn →
  GameState.getMoves' st Piece.pawn (Color.opponent (GameState.next st)) ep
    = Some m →
  BitBoards.popcount (Z.land m (GameState.forPiece st Piece.pawn
                                  (GameState.next st))) = 1 →
  MoveGenerator.enPassantCaptures st kingSquare g = Some g' →
  MoveGenerator.moves g' = MoveGenerator.moves g.
Proof.
  intros ep capturePawn Hin Hrank Hking Hne Hm Hcount.
  unfold MoveGenerator.enPassantCaptures, MoveGenerator.myColor,
    MoveGenerator.opponentColor.
  fold ep. fold capturePawn. rewrite Hm, mbind_Some.
  intros (isTarget & _ & H)%bind_Some.
  apply bind_Some in H as (g1 & Hg1 & H).
  assert (MoveGenerator.moves g1 = MoveGenerator.moves g) as <-.
  { destruct isTarget; [|by injection Hg1 as <-].
    by apply bind_Some in Hg1 as (tg & _ & [= <-]). }
  rewrite (bool_decide_true (Square.rank kingSquare = Square.rank capturePawn)),
    (bool_decide_true (BitBoards.popcount _ = 1)) in H by done.
  cbn [andb] in H.
  apply bind_Some in H as (attacker & _ & H).
  apply bind_Some in H as (occ & _ & H).
  apply bind_Some in H as (rays & Hrays & H).
  apply bind_Some in H as (one & [Hep ->]%shl64_bit_inv & H).
  assert (Square.rank ep = 2 ∨ Square.rank ep = 5) as Hep_rank.
  { destruct Hrank as [Hno|[_ ?]]; [|done].
    fold ep in Hno. rewrite Hno in Hin. by vm_compute in Hin. }
  assert ((Square.file kingSquare = Square.file ep → False) ∧
          Square.rank kingSquare ≠ Square.rank ep) as (Hfile & Hrk).
  { unfold capturePawn, GameState.enPassantCapture in Hking, Hne.
    unfold Square.rank, Square.file, Square.north, Square.south
      in Hking, Hne, Hep_rank |- *.
    destruct (bool_decide (ep `div` 8 = 2)) eqn:Hside;
      [apply bool_decide_eq_true in Hside|apply bool_decide_eq_false in Hside];
      cbv iota in Hking, Hne;
      (split; intros ?); Z.div_mod_to_equations; lia. }
  assert (Z.testbit rays ep = false) as Hoff.
  { unfold GameState.getMoves in Hrays.
    apply bind_Some in Hrays as (reach & Hreach & [= <-]).
    rewrite Z.land_spec.
    destruct (Z.testbit reach ep) eqn:Hbit; [|done].
    destruct (rook_reach_line _ _ _ _ Hreach Hbit) as [?|?]; [|done].
    exfalso. by apply Hfile. }
  assert (Z.land (Z.shiftl 1 ep)
            (Z.land rays (if bool_decide (kingSquare < attacker)
                          then BitBoards.rightOf kingSquare
                          else BitBoards.leftOf kingSquare)) = 0) as Hnone.
  { apply Z.bits_inj'. intros i Hi.
    rewrite !Z.land_spec, testbit_bit, Z.bits_0 by lia.
    destruct (bool_decide (i = ep)) eqn:Hie; [|done].
    apply bool_decide_eq_true in Hie. subst i. by rewrite Hoff. }
  rewrite Hnone in H. unfold MoveGenerator.enterMoves in H.
  rewrite Z.land_0_l in H. by injection H as <-; simpl; rewrite app_nil_r.
Qed.

(** ** Where the generator is defined *)

Lemma getMoves_pawn_ahead (st : GameState.t) (color : Color.t)
    (square occupancy : Z) :
  0 ≤ square < 64 → has_square_ahead color square →
  is_Some (GameState.getMoves st Piece.pawn color square occupancy).
Proof.
  intros Hsq Hahead.
  unfold GameState.getMoves, MoveTables.pawnAttacks, Square.inRange.
  rewrite (bool_decide_true (0 ≤ square < 64)) by lia.
  unfold Square.north, Square.south, Square.rank.
  destruct color; simpl in Hahead.
  - rewrite (shl64_bit (square + 8)), mbind_Some by lia.
    case_bool_decide as Hrank; simpl.
    + destruct (BitBoards.is_empty _); simpl; [done|].
      rewrite (shl64_bit (square + 2 * 8)) by (Z.div_mod_to_equations; lia).
      done.
    + done.
  - rewrite (shl64_bit (square + -8)), mbind_Some by lia.
    case_bool_decide as Hrank; simpl.
    + destruct (BitBoards.is_empty _); simpl; [done|].
      rewrite (shl64_bit (square + 2 * -8)) by (Z.div_mod_to_equations; lia).
      done.
    + done.
Qed.

Lemma getMoves_defined (st : GameState.t) (piece : Piece.t) (color : Color.t)
    (square occupancy : Z) :
  0 ≤ square < 64 →
  (piece = Piece.pawn → has_square_ahead color square) →
  is_Some (GameState.getMoves st piece color square occupancy).
Proof.
  intros Hsq Hpawn.
  destruct (decide (piece = Piece.pawn)) as [->|Hp].
  { by apply getMoves_pawn_ahead; [|apply Hpawn]. }
  unfold GameState.getMoves, MoveTables.knightMoves, MoveTables.kingMoves,
    MoveTables.bishopLookUp, MoveTables.rookLookUp, Square.inRange.
  rewrite (bool_decide_true (0 ≤ square < 64)) by lia.
  by destruct piece.
Qed.

Lemma getAttacks_defined (st : GameState.t) (square : Z) (color : Color.t)
    (occupancy : Z) :
  0 ≤ square < 64 → has_square_ahead color square →
  is_Some (GameState.getAttacks st square color occupancy).
Proof.
  intros Hsq Hahead. unfold GameState.getAttacks, Piece.all. cbn [foldl].
  repeat match goal with
         | |- context [GameState.getMoves st ?p color square occupancy] =>
             let m := fresh "m" in
             let Hm := fresh "Hm" in
             destruct (getMoves_defined st p color square occupancy Hsq
                         (λ _, Hahead)) as [m Hm];
             rewrite Hm; clear Hm
         end.
  done.
Qed.

Lemma popcount_one_first (x : Z) : popcountll x = 1 → is_Some (ctzll x).
Proof. destruct x; simpl; (done || eauto). Qed.

Lemma foldl_option_defined {A B : Type} (f : A → B → option A) (l : list B)
    (a : A) :
  (∀ a b, b ∈ l → is_Some (f a b)) →
  is_Some (foldl (λ acc b, acc ≫= λ a, f a b) (Some a) l).
Proof.
  revert a. induction l as [|b l IH]; intros a Hf; simpl; [done|].
  destruct (Hf a b) as [a' ->]; [by left|].
  apply IH. intros a1 b1 Hb1. apply Hf. by right.
Qed.

Section GeneratorDefined.
Variable st : GameState.t.
Hypothesis Hword : boards_word64 st.

Lemma enterMoves_defined (g : MoveGenerator.t) (start ends : Z)
    (piece : Piece.t) :
  word64 ends → is_Some (MoveGenerator.enterMoves st g start piece ends).
Proof.
  intros Hw. unfold MoveGenerator.enterMoves.
  destruct (squares_spec (Z.land ends (MoveGenerator.targets g)))
    as (l & -> & _); [by apply word64_land_l|]. done.
Qed.

Lemma handleLeaperAttacks_defined (kingSquare : Z) (piece : Piece.t)
    (g : MoveGenerator.t) :
  0 ≤ kingSquare < 64 →
  (piece = Piece.pawn → has_square_ahead (GameState.next st) kingSquare) →
  is_Some (MoveGenerator.handleLeaperAttacks st kingSquare piece g).
Proof.
  intros Hk Hp.
  unfold MoveGenerator.handleLeaperAttacks, GameState.getMoves',
    MoveGenerator.myColor.
  destruct (getMoves_defined st piece (GameState.next st) kingSquare
              (GameState.occupancy st) Hk Hp) as [m ->].
  rewrite mbind_Some. by destruct (negb _).
Qed.

Lemma handleSliderRay_defined (sliders ray : Z) (g : MoveGenerator.t) :
  is_Some (MoveGenerator.handleSliderRay st sliders ray g).
Proof.
  unfold MoveGenerator.handleSliderRay.
  destruct (BitBoards.is_empty (Z.land sliders ray)); [done|].
  destruct (BitBoards.is_empty _); [done|].
  destruct (bool_decide (BitBoards.popcount _ = 1)) eqn:Hone; cbn [andb];
    [|done].
  destruct (bool_decide (MoveGenerator.attacksOnKing g ≤ 1)); [|done].
  apply bool_decide_eq_true in Hone. unfold BitBoards.findFirstSet.
  by destruct (popcount_one_first _ Hone) as [s ->].
Qed.

Lemma handleSliderAttacks_defined (kingSquare : Z) (g : MoveGenerator.t) :
  0 ≤ kingSquare < 64 → 1 ≤ Square.rank kingSquare ≤ 6 →
  is_Some (MoveGenerator.handleSliderAttacks st kingSquare g).
Proof.
  intros Hk Hrank.
  unfold MoveGenerator.handleSliderAttacks, MoveTables.rookLookUp,
    MoveTables.bishopLookUp, Square.inRange, BitBoards.above, BitBoards.below,
    shl64, shr64, Coord.width.
  rewrite (bool_decide_true (0 ≤ kingSquare < 64)) by done.
  rewrite (bool_decide_true (0 ≤ (Square.rank kingSquare + 1) * 8 < 64)) by lia.
  rewrite (bool_decide_true (0 ≤ (Square.rank kingSquare - 1) * 8 < 64)) by lia.
  repeat first
    [ rewrite mbind_Some
    | match goal with
      | |- is_Some (MoveGenerator.handleSliderRay st ?s ?r ?a ≫= _) =>
          let g' := fresh "g" in
          destruct (handleSliderRay_defined s r a) as [g' ->]
      end ].
  apply handleSliderRay_defined.
Qed.

Lemma standardNonPinsFor_defined (piece : Piece.t) (g : MoveGenerator.t) :
  (piece = Piece.pawn →
   ∀ s, Z.testbit (GameState.forPiece st Piece.pawn (GameState.next st)) s = true →
        has_square_ahead (GameState.next st) s) →
  is_Some (MoveGenerator.standardNonPinsFor st piece g).
Proof.
  intros Hpawn.
  assert (∀ x start,
            Z.testbit (Z.land (GameState.forPiece st piece (GameState.next st)) x)
              start = true →
            0 ≤ start < 64 ∧
            ∃ ends, GameState.getMoves' st piece (GameState.next st) start
                    = Some ends ∧ word64 ends) as Hmoves.
  { intros x start Hs. rewrite Z.land_spec in Hs.
    apply andb_true_iff in Hs as [Hs _].
    pose proof (word64_bit_range _ _ (Hword (GameState.next st) piece) Hs)
      as Hrange.
    split; [done|].
    destruct (getMoves_defined st piece (GameState.next st) start
                (GameState.occupancy st) Hrange) as [ends Hends].
    { intros ->. by apply Hpawn. }
    exists ends. split; [done|]. by apply getMoves_not_own in Hends as [? _]. }
  unfold MoveGenerator.standardNonPinsFor, MoveGenerator.myColor.
  destruct (squares_spec (Z.land (GameState.forPiece st piece (GameState.next st))
                            (lnot64 (MoveGenerator.pins g))))
    as (starts & -> & Hstarts & _); [apply word64_land_l, Hword|].
  rewrite mbind_Some.
  match goal with
  | |- is_Some (foldl ?F (Some g) starts ≫= _) =>
      destruct (foldl_option_defined
                  (λ g start,
                     GameState.getMoves' st piece (GameState.next st) start
                     ≫= λ ends, MoveGenerator.enterMoves st g start piece ends)
                  starts g) as [g1 Hg1]
  end.
  { intros a start Hs. apply Hstarts, Hmoves in Hs as (_ & ends & -> & Hw).
    rewrite mbind_Some. by apply enterMoves_defined. }
  rewrite Hg1, mbind_Some.
  destruct (squares_spec (Z.land (GameState.forPiece st piece (GameState.next st))
                            (MoveGenerator.pins g1)))
    as (pinned & -> & Hpinned & _); [apply word64_land_l, Hword|].
  rewrite mbind_Some.
  apply (foldl_option_defined
           (λ g start,
              BitBoards.single start ≫= λ one,
              if negb (BitBoards.is_empty
                         (Z.land (MoveGenerator.pinRay g start) one))
              then GameState.getMoves' st piece (GameState.next st) start
                   ≫= λ ends, MoveGenerator.enterMoves st g start piece
                                (Z.land ends (MoveGenerator.pinRay g start))
              else Some g)).
  intros a start Hs. apply Hpinned, Hmoves in Hs as (Hrange & ends & -> & Hw).
  unfold BitBoards.single. rewrite shl64_bit, !mbind_Some by done.
  destruct (negb _); [|done].
  by apply enterMoves_defined, word64_land_l.
Qed.

Lemma standardNonPins_defined (g : MoveGenerator.t) :
  (∀ s, Z.testbit (GameState.forPiece st Piece.pawn (GameState.next st)) s = true →
        has_square_ahead (GameState.next st) s) →
  is_Some (MoveGenerator.standardNonPins st g).
Proof.
  intros Hpawns. unfold MoveGenerator.standardNonPins.
  apply (foldl_option_defined
           (λ g piece, MoveGenerator.standardNonPinsFor st piece g)).
  intros a piece _. by apply standardNonPinsFor_defined.
Qed.

Lemma castle_defined (flag empty sq1 sq2 : Z) (m : Move) (g : MoveGenerator.t) :
  0 ≤ sq1 < 64 → has_square_ahead (GameState.next st) sq1 →
  0 ≤ sq2 < 64 → has_square_ahead (GameState.next st) sq2 →
  is_Some (MoveGenerator.castle st flag empty sq1 sq2 m g).
Proof.
  intros H1 Ha1 H2 Ha2.
  unfold MoveGenerator.castle, GameState.getAttacks', MoveGenerator.myColor.
  destruct (CastlingRights.has _ _); [|done].
  destruct (BitBoards.is_empty _); [|done].
  destruct (getAttacks_defined st sq1 (GameState.next st)
              (GameState.occupancy st) H1 Ha1) as [a1 ->].
  rewrite mbind_Some. destruct (BitBoards.is_empty a1); [|done].
  destruct (getAttacks_defined st sq2 (GameState.next st)
              (GameState.occupancy st) H2 Ha2) as [a2 ->].
  rewrite mbind_Some. by destruct (BitBoards.is_empty a2).
Qed.

Lemma generateCastling_defined (g : MoveGenerator.t) :
  is_Some (MoveGenerator.generateCastling st g).
Proof.
  unfold MoveGenerator.generateCastling, MoveGenerator.myColor.
  destruct (GameState.next st) eqn:Hnext.
  - destruct (castle_defined CastlingRights.whiteQueenSide 0xe
                Square.d1 Square.c1 wqCastle g) as [g1 ->];
      rewrite ?Hnext; unfold Square.d1, Square.c1; simpl; try lia.
    apply castle_defined;
      rewrite ?Hnext; unfold Square.f1, Square.g1; simpl; lia.
  - destruct (castle_defined CastlingRights.blackQueenSide 0xe00000000000000
                Square.d8 Square.c8 bqCastle g) as [g1 ->];
      rewrite ?Hnext; unfold Square.d8, Square.c8; simpl; try lia.
    apply castle_defined;
      rewrite ?Hnext; unfold Square.f8, Square.g8; simpl; lia.
Qed.

Lemma enPassantCaptures_defined (kingSquare : Z) (g : MoveGenerator.t) :
  0 ≤ kingSquare < 64 →
  Square.inRange (GameState.enPassantSquare st) = true →
  en_passant_rank st →
  is_Some (MoveGenerator.enPassantCaptures st kingSquare g).
Proof.
  intros Hk Hin Hrank.
  set (ep := GameState.enPassantSquare st) in *.
  assert (0 ≤ ep < 64) as Hep.
  { unfold Square.inRange in Hin. by apply bool_decide_eq_true in Hin. }
  assert (Square.rank ep = 2 ∨ Square.rank ep = 5) as Hep_rank.
  { destruct Hrank as [Hno|[_ ?]]; [|done].
    fold ep in Hno. rewrite Hno in Hin. by vm_compute in Hin. }
  assert (0 ≤ GameState.enPassantCapture ep < 64) as Hcap.
  { unfold GameState.enPassantCapture, Square.rank, Square.north, Square.south
      in *.
    destruct (bool_decide (ep `div` 8 = 2)) eqn:Hside;
      [apply bool_decide_eq_true in Hside|apply bool_decide_eq_false in Hside];
      Z.div_mod_to_equations; lia. }
  unfold MoveGenerator.enPassantCaptures, GameState.getMoves',
    MoveGenerator.myColor, MoveGenerator.opponentColor.
  fold ep.
  destruct (getMoves_pawn_ahead st (Color.opponent (GameState.next st)) ep
              (GameState.occupancy st) Hep) as [m Hm].
  { unfold Square.rank in Hep_rank.
    destruct (GameState.next st); simpl; Z.div_mod_to_equations; lia. }
  rewrite Hm, mbind_Some.
  set (electable := Z.land m (GameState.forPiece st Piece.pawn
                                (GameState.next st))).
  assert (word64 electable) as Hw by apply word64_land_r, Hword.
  assert (word64 (Z.shiftl 1 ep)) as Hone.
  { rewrite <- wrap64_bit by done. apply wrap64_word. }
  unfold BitBoards.is_set.
  rewrite (shl64_bit (GameState.enPassantCapture ep)), !mbind_Some by done.
  match goal with
  | |- is_Some (?x ≫= _) => assert (is_Some x) as [g1 ->]
  end.
  { destruct (bool_decide _); [|done].
    unfold BitBoards.set_bit. by rewrite (shl64_bit ep), mbind_Some by done. }
  rewrite mbind_Some.
  destruct (_ && _) eqn:Hcond.
  - apply andb_true_iff in Hcond as [_ Hcount%bool_decide_eq_true].
    unfold BitBoards.findFirstSet.
    destruct (popcount_one_first _ Hcount) as [attacker ->].
    rewrite mbind_Some. unfold BitBoards.unset_bit, BitBoards.single.
    rewrite (shl64_bit (GameState.enPassantCapture ep)), !mbind_Some by done.
    match goal with
    | |- is_Some (GameState.getMoves st Piece.rook ?c ?k ?o ≫= _) =>
        destruct (getMoves_defined st Piece.rook c k o Hk)
          as [rays ->]; [done|]
    end.
    rewrite mbind_Some, (shl64_bit ep), mbind_Some by done.
    by apply enterMoves_defined, word64_land_l.
  - destruct (squares_spec electable Hw) as (starts & -> & Hstarts & _).
    rewrite mbind_Some.
    apply (foldl_option_defined
             (λ g start,
                BitBoards.is_set (MoveGenerator.pins g) start ≫= λ pinned,
                BitBoards.single ep ≫= λ one,
                if (pinned : bool)
                then MoveGenerator.enterMoves st g start Piece.pawn
                       (Z.land one (MoveGenerator.pinRay g start))
                else MoveGenerator.enterMoves st g start Piece.pawn one)).
    intros b start Hs. apply Hstarts in Hs.
    unfold BitBoards.is_set, BitBoards.single.
    rewrite (shl64_bit start), (shl64_bit ep), !mbind_Some
      by (done || by apply (word64_bit_range electable)).
    destruct (bool_decide (Z.land (MoveGenerator.pins b) _ ≠ 0));
      [by apply enterMoves_defined, word64_land_l
      |by apply enterMoves_defined].
Qed.

(** A king's step changes the rank by at most one. *)
Lemma kingMoves_near (kingSquare t e : Z) :
  MoveTables.kingMoves kingSquare = Some t → Z.testbit t e = true →
  0 ≤ e < 64 ∧
  Square.rank kingSquare - 1 ≤ Square.rank e ≤ Square.rank kingSquare + 1.
Proof.
  unfold MoveTables.kingMoves, Square.inRange.
  case_bool_decide as Hk; [|done]. intros Heq.
  assert (t = MoveTables.leaper kingSquare
                [(0, 1); (1, 1); (1, 0); (1, -1);
                 (0, -1); (-1, -1); (-1, 0); (-1, 1)]) as -> by congruence.
  clear Heq. unfold MoveTables.leaper. cbn [foldr fst snd].
  rewrite !Z.lor_spec, Z.bits_0, orb_false_r, !orb_true_iff.
  unfold Square.rank.
  intros H; repeat destruct H as [H|H];
    apply bit_at_test in H as (Hf & Hr & ->); unfold Square.index;
    split; Z.div_mod_to_equations; lia.
Qed.

Lemma generatePlainKingMoves_defined (kingSquare : Z) (g : MoveGenerator.t) :
  0 ≤ kingSquare < 64 →
  king_off_the_edges (GameState.next st) kingSquare →
  is_Some (MoveGenerator.generatePlainKingMoves st kingSquare g).
Proof.
  intros Hk Hedge.
  unfold MoveGenerator.generatePlainKingMoves, MoveGenerator.myColor,
    GameState.getMoves', BitBoards.unset_bit.
  rewrite (shl64_bit kingSquare), !mbind_Some by done.
  destruct (getMoves_defined st Piece.king (GameState.next st) kingSquare
              (GameState.occupancy st) Hk) as [ends Hends]; [done|].
  rewrite Hends, mbind_Some.
  pose proof Hends as [Hw _]%getMoves_not_own.
  destruct (squares_spec ends Hw) as (l & -> & Hl & _).
  rewrite mbind_Some.
  apply (foldl_option_defined
           (λ g e,
              GameState.getAttacks st e (GameState.next st)
                (Z.land (GameState.occupancy st) (lnot64 (Z.shiftl 1 kingSquare)))
              ≫= λ attacks,
              if BitBoards.is_empty attacks
              then Some (MoveGenerator.with_moves g
                           (MoveGenerator.moves g ++ [plainMove kingSquare e]))
              else Some g)).
  intros a e He. apply Hl in He.
  destruct (getMoves_king_table _ _ _ _ _ _ Hends He) as (t & Ht & Hte).
  destruct (kingMoves_near _ _ _ Ht Hte) as [Hrange Hnear].
  destruct (getAttacks_defined st e (GameState.next st)
              (Z.land (GameState.occupancy st) (lnot64 (Z.shiftl 1 kingSquare)))
              Hrange) as [attacks ->].
  { unfold king_off_the_edges, has_square_ahead, Square.rank in *.
    destruct (GameState.next st); Z.div_mod_to_equations; lia. }
  rewrite mbind_Some. by destruct (BitBoards.is_empty attacks).
Qed.

Lemma run_defined (kingSquare : Z) :
  0 ≤ kingSquare < 64 →
  king_off_the_edges (GameState.next st) kingSquare →
  (∀ s, Z.testbit (GameState.forPiece st Piece.pawn (GameState.next st)) s = true →
        has_square_ahead (GameState.next st) s) →
  en_passant_rank st →
  is_Some (MoveGenerator.run st kingSquare).
Proof.
  intros Hk Hedge Hpawns Hep. unfold MoveGenerator.run.
  assert (has_square_ahead (GameState.next st) kingSquare ∧
          1 ≤ Square.rank kingSquare ≤ 6) as [Hahead Hrank].
  { unfold king_off_the_edges, has_square_ahead, Square.rank in *.
    destruct (GameState.next st); split; Z.div_mod_to_equations; lia. }
  destruct (handleLeaperAttacks_defined kingSquare Piece.pawn
              (MoveGenerator.mk 0 BitBoards.all 0 ∅ []) Hk) as [g1 ->]; [done|].
  rewrite mbind_Some.
  destruct (handleLeaperAttacks_defined kingSquare Piece.knight g1 Hk)
    as [g2 ->]; [done|].
  rewrite mbind_Some.
  destruct (handleSliderAttacks_defined kingSquare g2 Hk Hrank) as [g3 ->].
  rewrite mbind_Some.
  match goal with
  | |- is_Some (?x ≫= _) => assert (is_Some x) as [g4 ->]
  end.
  { destruct (bool_decide (MoveGenerator.attacksOnKing g3 ≤ 1)); [|done].
    destruct (standardNonPins_defined g3 Hpawns) as [g5 ->].
    rewrite mbind_Some.
    match goal with
    | |- is_Some (?x ≫= _) => assert (is_Some x) as [g6 ->]
    end.
    { destruct (bool_decide _); [apply generateCastling_defined|done]. }
    rewrite mbind_Some.
    destruct (Square.inRange _) eqn:Hin; [|done].
    by apply enPassantCaptures_defined. }
  rewrite mbind_Some. by apply generatePlainKingMoves_defined.
Qed.
End GeneratorDefined.

(** On a position that satisfies the invariants of the data model and keeps
    clear of the edges, [generateLegalMoves] returns: no shift count leaves
    [0, 63] and no empty board is asked for its first square. *)
Lemma generateLegalMoves_defined (st : GameState.t) :
  data_model_invariants st → clear_of_edges st →
  is_Some (generateLegalMoves st).
Proof.
  intros Hinv [Hking Hpawns].
  unfold generateLegalMoves, MoveGenerator.make, BitBoards.findFirstSet.
  destruct (popcount_one_first _ (inv_kings st Hinv (GameState.next st)))
    as [kingSquare HkingSquare].
  rewrite HkingSquare, mbind_Some.
  apply findFirstSet_elem in HkingSquare as [Hrange Hbit];
    [|apply (inv_word64 st Hinv)].
  destruct (run_defined st (inv_word64 st Hinv) kingSquare Hrange)
    as [g ->]; [by apply Hking|done|apply (inv_en_passant st Hinv)|].
  done.
Qed.

(** ** Make and unmake (C2) *)

Lemma getMoves_pawn_defined (st : GameState.t) (color : Color.t)
    (square occupancy : Z) :
  8 ≤ square < 56 →
  is_Some (GameState.getMoves st Piece.pawn color square occupancy).
Proof.
  intros Hsq. unfold GameState.getMoves, MoveTables.pawnAttacks, Square.inRange.
  rewrite (bool_decide_true (0 ≤ square < 64)) by lia.
  unfold Square.north, Square.south, Square.rank.
  destruct color.
  - rewrite (shl64_bit (square + 8)), mbind_Some by lia.
    case_bool_decide as Hrank; simpl.
    + destruct (BitBoards.is_empty _); simpl; [done|].
      rewrite (shl64_bit (square + 2 * 8)) by (Z.div_mod_to_equations; lia).
      done.
    + done.
  - rewrite (shl64_bit (square + -8)), mbind_Some by lia.
    case_bool_decide as Hrank; simpl.
    + destruct (BitBoards.is_empty _); simpl; [done|].
      rewrite (shl64_bit (square + 2 * -8)) by (Z.div_mod_to_equations; lia).
      done.
    + done.
Qed.

Lemma nextEnPassant_defined (st : GameState.t) (info : UndoInfo.t) :
  is_Some (GameState.nextEnPassant st info).
Proof.
  unfold GameState.nextEnPassant, GameState.getMoves'.
  assert (∀ sq, 8 ≤ sq < 56 →
            is_Some (m ← GameState.getMoves st Piece.pawn (GameState.us st) sq
                          (GameState.occupancy st);
                     Some (negb (BitBoards.is_empty m)))) as Hdef.
  { intros sq Hsq.
    by destruct (getMoves_pawn_defined st (GameState.us st) sq
                   (GameState.occupancy st) Hsq) as [m ->]. }
  destruct (bool_decide (UndoInfo.piece info = Piece.pawn)); cbn [andb];
    [|done].
  destruct (bool_decide (Square.rank (UndoInfo.start info) = 1)) eqn:H1;
    cbn [andb].
  - apply bool_decide_eq_true in H1.
    rewrite (bool_decide_false (Square.rank (UndoInfo.start info) = 6)) by lia.
    cbn [andb]. rewrite mbind_Some.
    destruct (bool_decide (Square.rank (UndoInfo.end_ info) = 3)); [|done].
    destruct (Hdef (UndoInfo.start info + Square.north)) as [b ->].
    { unfold Square.rank, Square.north in *. Z.div_mod_to_equations. lia. }
    rewrite mbind_Some. by destruct b.
  - rewrite mbind_Some.
    destruct (bool_decide (Square.rank (UndoInfo.start info) = 6)) eqn:H6;
      cbn [andb]; [|done].
    apply bool_decide_eq_true in H6.
    destruct (bool_decide (Square.rank (UndoInfo.end_ info) = 4)); [|done].
    destruct (Hdef (UndoInfo.start info + Square.south)) as [b ->]; [|done].
    unfold Square.rank, Square.south in *. Z.div_mod_to_equations. lia.
Qed.

(** The guard of the en-passant update asks for the moves of an own pawn
    on the skipped square.  They hold the push onto the destination of the
    double step, which is free: the guard holds for every double step. *)
Lemma skipped_square_has_a_push (st : GameState.t) (color : Color.t)
    (behind : Z) :
  let offset := match color with
                | Color.white => Square.north
                | Color.black => Square.south
                end in
  8 ≤ behind < 56 →
  Z.testbit (GameState.occupancy st) (behind + offset) = false →
  ∃ m, GameState.getMoves' st Piece.pawn color behind = Some m ∧
       BitBoards.is_empty m = false.
Proof.
  intros offset Hb Hfree.
  assert (0 ≤ behind + offset < 64) as Hrange.
  { unfold offset, Square.north, Square.south. destruct color; lia. }
  assert (Z.testbit (GameState.forColor st color) (behind + offset) = false)
    as Hown.
  { rewrite occupancy_spec in Hfree. apply orb_false_iff in Hfree as [? ?].
    by destruct color. }
  destruct (getMoves_pawn_defined st color behind (GameState.occupancy st) Hb)
    as [m Hm].
  exists m. split; [exact Hm|].
  unfold BitBoards.is_empty. apply bool_decide_eq_false. intros ->.
  revert Hm. unfold GameState.getMoves, MoveTables.pawnAttacks, Square.inRange.
  rewrite (bool_decide_true (0 ≤ behind < 64)) by lia.
  fold offset. rewrite (shl64_bit (behind + offset)), mbind_Some by done.
  assert (∀ x y, Z.land (Z.lor (Z.lor (Z.land (Z.shiftl 1 (behind + offset))
                    (lnot64 (GameState.occupancy st))) x) y)
                    (lnot64 (GameState.forColor st color)) ≠ 0) as Hbit.
  { intros x y H0.
    apply (f_equal (λ b, Z.testbit b (behind + offset))) in H0.
    rewrite Z.land_spec, !Z.lor_spec, Z.land_spec, testbit_bit,
      !testbit_lnot64, Hfree, Hown, Z.bits_0 in H0 by lia.
    rewrite !bool_decide_true in H0 by done. done. }
  destruct (_ && _).
  - destruct (shl64 1 (behind + 2 * offset)) as [two|]; [|done].
    cbn. destruct color; intros [= H]; by apply Hbit in H.
  - cbn. destruct color; intros [= H];
      rewrite <- (Z.lor_0_r (Z.land (Z.shiftl 1 _) _)) in H; by apply Hbit in H.
Qed.

(** After a double step of a white pawn onto a free square the en-passant
    square is set, whether or not a black pawn stands beside the
    destination. *)
Lemma nextEnPassant_double_step (st : GameState.t) (info : UndoInfo.t) :
  UndoInfo.piece info = Piece.pawn →
  GameState.next st = Color.white →
  Square.rank (UndoInfo.start info) = 1 →
  UndoInfo.end_ info = UndoInfo.start info + 2 * Square.north →
  Z.testbit (GameState.occupancy st) (UndoInfo.end_ info) = false →
  GameState.nextEnPassant st info = Some (UndoInfo.start info + Square.north).
Proof.
  intros Hp Hw Hr He Hfree.
  unfold Square.rank, Square.north in *.
  assert (8 ≤ UndoInfo.start info < 16) as Hs by (Z.div_mod_to_equations; lia).
  destruct (skipped_square_has_a_push st Color.white (UndoInfo.start info + 8))
    as (m & Hm & Hne); [lia| |].
  { unfold Square.north. rewrite He in Hfree.
    by replace (UndoInfo.start info + 8 + 8)
      with (UndoInfo.start info + 2 * 8) by lia. }
  unfold GameState.nextEnPassant, GameState.us, Square.rank, Square.north.
  rewrite Hp, Hw, He.
  rewrite (bool_decide_true (Piece.pawn = Piece.pawn)) by done.
  rewrite (bool_decide_true (UndoInfo.start info `div` 8 = 1)) by done.
  rewrite (bool_decide_true ((UndoInfo.start info + 2 * 8) `div` 8 = 3))
    by (Z.div_mod_to_equations; lia).
  cbn [andb]. rewrite Hm, mbind_Some, Hne. done.
Qed.

Lemma opponent_opponent (c : Color.t) : Color.opponent (Color.opponent c) = c.
Proof. by destruct c. Qed.

(** A sound move is undone exactly. *)
Lemma sound_move_round_trip (st : GameState.t) (m : Move) :
  data_model_invariants st → en_passant_consistent st → sound_move st m →
  ∃ st', GameState.executeMove st m = Some st' ∧
         GameState.undoMove st' = Some st.
Proof.
  intros Hinv Hep Hm.
  destruct (makeUndoInfo_faithful st m Hinv Hep Hm)
    as (info & Hinfo & Hfaithful & Hie & Hir & Hih).
  unfold GameState.executeMove. rewrite Hinfo, mbind_Some. cbv zeta.
  destruct (nextEnPassant_defined
    (GameState.mk (GameState.boards st) (GameState.next st)
       (GameState.updateCastlingRights (GameState.castlingRights st)
          (UndoInfo.start info) (UndoInfo.end_ info))
       (GameState.enPassantSquare st)
       (if bool_decide (UndoInfo.piece info ≠ Piece.pawn) &&
           bool_decide (UndoInfo.capture info = Piece.empty)
        then wrap_counter (GameState.uneventfulHalfMoves st + 1) else 0)
       (info :: GameState.undoStack st)) info) as [ep Hepq].
  cbn [GameState.boards GameState.next GameState.castlingRights
       GameState.enPassantSquare GameState.uneventfulHalfMoves
       GameState.undoStack] in *.
  rewrite Hepq, mbind_Some.
  match goal with
  | |- context [GameState.applyToBoards ?sa info (promotion m)] =>
      destruct (boards_round_trip sa info (promotion m))
        as (sb & -> & Hstatus & Hrevert)
  end.
  { intros c k. apply (inv_word64 st Hinv c k). }
  { by eapply faithful_info_boards; [| |exact Hfaithful]. }
  rewrite mbind_Some. eexists. split; [reflexivity|].
  destruct Hstatus as (Hn & Hr & He & Hh & Hs). simpl in Hn, Hr, He, Hh, Hs.
  unfold GameState.undoMove, GameState.them.
  cbn [GameState.boards GameState.next GameState.castlingRights
       GameState.enPassantSquare GameState.uneventfulHalfMoves
       GameState.undoStack] in *.
  rewrite <- Hs, <- Hn, opponent_opponent, Hie, Hir, Hih.
  match goal with
  | |- GameState.revertBoards ?sc info = _ =>
      destruct (Hrevert sc) as (sd & -> & Hstatus & Hboards); [done|done|]
  end.
  f_equal. destruct Hstatus as (Hn' & Hr' & He' & Hh' & Hs').
  simpl in Hn', Hr', He', Hh', Hs', Hboards.
  destruct sd, st; simpl in *. congruence.
Qed.

(** The invariants of a concrete position, by evaluation. *)
Ltac check_invariants :=
  split;
  [ intros [] []; vm_compute; (split; [discriminate|reflexivity])
  | intros c k c' k' Hne; destruct c, k, c', k';
      first [ reflexivity | exfalso; apply Hne; reflexivity ]
  | intros []; vm_compute; reflexivity
  | first [ left; reflexivity
          | right; split; [reflexivity|];
            first [ left; reflexivity | right; reflexivity ] ]
  | split_and!; intros H; vm_compute in H; discriminate H
  | vm_compute; discriminate ].

Lemma en_passant_position_invariants :
  data_model_invariants Examples.en_passant_position.
Proof. check_invariants. Qed.

Lemma phantom_en_passant_invariants :
  data_model_invariants Examples.phantom_en_passant.
Proof. check_invariants. Qed.

(** The claim as stated fails: with the en-passant square e6 set and no
    black pawn on e5 the invariants of the data model hold, d5xe6 is
    generated, and undoing it puts a black pawn on e5 that was never there. *)
Lemma round_trip_needs_the_captured_pawn :
  ¬ (∀ st l m,
       data_model_invariants st →
       generateLegalMoves st = Some l → m ∈ l →
       ∃ st', GameState.executeMove st m = Some st' ∧
              GameState.undoMove st' = Some st).
Proof.
  intros H.
  destruct (H Examples.phantom_en_passant
              [plainMove 35 43; plainMove 35 44; plainMove 11 2; plainMove 11 3;
               plainMove 11 4; plainMove 11 10; plainMove 11 12;
               plainMove 11 18; plainMove 11 19; plainMove 11 20]
              (plainMove Examples.d5 Examples.e6))
    as (st' & Hexec & Hundo).
  - apply phantom_en_passant_invariants.
  - vm_compute. reflexivity.
  - apply list_elem_of_further, list_elem_of_here.
  - vm_compute in Hexec. injection Hexec as <-.
    vm_compute in Hundo. discriminate Hundo.
Qed.

(** Make and unmake on such a position: the generator returns a list, and
    every move of it is executed and undone exactly. *)
Lemma round_trip_clear_of_edges (st : GameState.t) :
  data_model_invariants st → en_passant_consistent st → clear_of_edges st →
  ∃ l, generateLegalMoves st = Some l ∧
       ∀ m, m ∈ l →
            ∃ st', GameState.executeMove st m = Some st' ∧
                   GameState.undoMove st' = Some st.
Proof.
  intros Hinv Hep Hclear.
  destruct (generateLegalMoves_defined st Hinv Hclear) as [l Hl].
  exists l. split; [done|]. intros m Hm.
  apply sound_move_round_trip; [done|done|].
  pose proof (generateLegalMoves_sound st Hinv Hep l Hl) as Hsound.
  rewrite Forall_forall in Hsound. by apply Hsound.
Qed.

(** * Further properties of the code *)

Lemma all_in_spec (lo n : Z) (test : Z → bool) (x : Z) :
  all_in lo n test = true → lo ≤ x < lo + n → test x = true.
Proof.
  unfold all_in. rewrite forallb_forall. intros H Hx. apply H.
  apply list_elem_of_In, elem_of_seqZ. lia.
Qed.

(** ** bitboard.h: single squares *)

Lemma is_set_testbit (b s : Z) :
  0 ≤ s < 64 → BitBoards.is_set b s = Some (Z.testbit b s).
Proof.
  intros Hs. unfold BitBoards.is_set. rewrite shl64_bit, mbind_Some by done.
  f_equal. destruct (Z.testbit b s) eqn:Hb.
  - apply bool_decide_eq_true. apply land_bit_nonzero; [lia|done].
  - apply bool_decide_eq_false. rewrite land_bit_nonzero by lia. by rewrite Hb.
Qed.

Lemma word64_bit (s : Z) : 0 ≤ s < 64 → word64 (Z.shiftl 1 s).
Proof. intros Hs. rewrite <- wrap64_bit by done. apply wrap64_word. Qed.

(** X1: on a square of the board, [set_bit] makes [is_set] true there and
    [unset_bit] makes it false, both leave every other square as it was
    and keep the board a 64-bit word; with a square off the board all three
    shift out of range and are undefined. *)
Theorem set_unset_is_set (b s : Z) :
  word64 b →
  (0 ≤ s < 64 →
     ∃ b1 b0,
       BitBoards.set_bit b s = Some b1 ∧ BitBoards.unset_bit b s = Some b0 ∧
       word64 b1 ∧ word64 b0 ∧
       BitBoards.is_set b1 s = Some true ∧
       BitBoards.is_set b0 s = Some false ∧
       ∀ t, 0 ≤ t < 64 → t ≠ s →
            BitBoards.is_set b1 t = BitBoards.is_set b t ∧
            BitBoards.is_set b0 t = BitBoards.is_set b t) ∧
  (¬ 0 ≤ s < 64 →
     BitBoards.is_set b s = None ∧ BitBoards.set_bit b s = None ∧
     BitBoards.unset_bit b s = None).
Proof.
  intros Hb. split; intros Hs.
  - unfold BitBoards.set_bit, BitBoards.unset_bit.
    rewrite shl64_bit, !mbind_Some by done.
    eexists _, _. split; [done|]. split; [done|].
    split; [by apply word64_lor, word64_bit|].
    split; [by apply word64_land_l|].
    rewrite !is_set_testbit by done.
    rewrite Z.lor_spec, Z.land_spec, testbit_lnot64, !testbit_bit by lia.
    rewrite !bool_decide_true by done.
    split; [by rewrite orb_true_r|]. split; [by rewrite andb_false_r|].
    intros t Ht Hne. rewrite !is_set_testbit by done.
    rewrite Z.lor_spec, Z.land_spec, testbit_lnot64, !testbit_bit by lia.
    rewrite (bool_decide_false (t = s)), (bool_decide_true (0 ≤ t < 64)) by done.
    by rewrite orb_false_r, andb_true_r.
  - unfold BitBoards.is_set, BitBoards.set_bit, BitBoards.unset_bit, shl64.
    by rewrite bool_decide_false.
Qed.

Lemma set_unset_is_set_witness :
  ∃ b1 b0,
    BitBoards.set_bit 0xff 12 = Some b1 ∧ BitBoards.unset_bit 0xff 3 = Some b0 ∧
    BitBoards.is_set b1 12 = Some true ∧ BitBoards.is_set b0 3 = Some false.
Proof.
  destruct (proj1 (set_unset_is_set 0xff 12 ltac:(done)) ltac:(lia))
    as (b1 & _ & H1 & _ & _ & _ & Hs1 & _).
  destruct (proj1 (set_unset_is_set 0xff 3 ltac:(done)) ltac:(lia))
    as (_ & b0 & _ & H0 & _ & _ & _ & Hs0 & _).
  exists b1, b0. by split_and!.
Defined.

Lemma sorted_singleton (l : list Z) (s : Z) :
  StronglySorted Z.lt l → (∀ j, j ∈ l ↔ j = s) → l = [s].
Proof.
  intros Hsorted Hmem.
  destruct l as [|a l]; [by specialize (proj2 (Hmem s) eq_refl) as ?%elem_of_nil|].
  assert (a = s) as -> by (apply Hmem; left).
  destruct l as [|a' l]; [done|].
  assert (a' = s) as -> by (apply Hmem; right; left).
  apply StronglySorted_inv in Hsorted as [_ Hlt].
  apply Forall_cons in Hlt as [Hlt _]. lia.
Qed.

(** X2: [single(s)] for a square of the board holds that square and no
    other: its population count is 1, its first set square is [s], and
    iterating it yields [s] alone. *)
Theorem single_square (s : Z) :
  0 ≤ s < 64 →
  ∃ b, BitBoards.single s = Some b ∧ word64 b ∧
       (∀ t, Z.testbit b t = bool_decide (t = s)) ∧
       BitBoards.popcount b = 1 ∧
       BitBoards.findFirstSet b = Some s ∧
       BitBoards.squares b = Some [s].
Proof.
  intros Hs. unfold BitBoards.single. rewrite shl64_bit by done.
  pose proof (word64_bit s Hs) as Hw.
  assert (∀ t, Z.testbit (Z.shiftl 1 s) t = bool_decide (t = s)) as Hbits.
  { intros t. apply testbit_bit. lia. }
  destruct (squares_spec _ Hw) as (l & Hl & Hmem & Hsorted).
  assert (l = [s]) as ->.
  { apply sorted_singleton; [done|]. intros j.
    rewrite Hmem, Hbits. apply bool_decide_eq_true. }
  eexists. split; [done|]. split; [done|]. split; [done|].
  split.
  { unfold BitBoards.popcount.
    rewrite <- (popcount_bits _ [s]); [done|apply Hw| |done].
    apply NoDup_singleton. }
  split; [|done].
  unfold BitBoards.findFirstSet.
  destruct (ctzll_defined (Z.shiftl 1 s)) as [i Hi].
  { rewrite Z.shiftl_1_l. apply Z.pow_pos_nonneg; lia. }
  rewrite Hi. f_equal. apply ctzll_spec in Hi as [Hi _].
  rewrite Hbits in Hi. by apply bool_decide_eq_true in Hi.
Qed.

Lemma single_square_witness :
  ∃ b, BitBoards.single 27 = Some b ∧ BitBoards.squares b = Some [27].
Proof.
  destruct (single_square 27 ltac:(lia)) as (b & H1 & _ & _ & _ & _ & H2).
  by exists b.
Defined.

(** X3: [findFirstSet] is undefined on the empty board; on any other
    board it returns the lowest square of the board, which is also the
    first square an iteration yields. *)
Theorem findFirstSet_lowest (b : Z) :
  word64 b →
  (b = 0 → BitBoards.findFirstSet b = None) ∧
  (b ≠ 0 →
   ∃ s rest, BitBoards.findFirstSet b = Some s ∧
             0 ≤ s < 64 ∧ Z.testbit b s = true ∧
             (∀ t, Z.testbit b t = true → s ≤ t) ∧
             BitBoards.squares b = Some (s :: rest)).
Proof.
  intros Hb. split; [by intros ->|]. intros Hne.
  unfold BitBoards.findFirstSet.
  destruct (ctzll_defined b) as [s Hs]; [unfold word64 in Hb; lia|].
  pose proof Hs as [Hbit Hleast]%ctzll_spec.
  assert (∀ t, Z.testbit b t = true → s ≤ t) as Hlow.
  { intros t Ht. destruct (decide (s ≤ t)); [done|].
    rewrite Hleast in Ht by lia. done. }
  destruct (squares_spec b Hb) as (l & Hl & Hmem & Hsorted).
  destruct l as [|a rest].
  { by apply Hmem, elem_of_nil in Hbit. }
  assert (a = s) as ->.
  { assert (s ≤ a) by (apply Hlow, Hmem; left).
    apply Hmem, elem_of_cons in Hbit as [?|Hin]; [done|].
    apply StronglySorted_inv in Hsorted as [_ Hlt].
    rewrite Forall_forall in Hlt. specialize (Hlt s Hin). lia. }
  exists s, rest. split; [done|].
  split; [by eapply word64_bit_range|]. by split_and!.
Qed.

Lemma findFirstSet_lowest_witness :
  ∃ s rest, BitBoards.findFirstSet 0xc0000000000e1800 = Some s ∧
            BitBoards.squares 0xc0000000000e1800 = Some (s :: rest).
Proof.
  destruct (proj2 (findFirstSet_lowest 0xc0000000000e1800 ltac:(done))
              ltac:(done)) as (s & rest & H1 & _ & _ & _ & H2).
  by exists s, rest.
Defined.

(** ** bitboard.h: files, ranks and the masks beside them *)

(** X4: for a file and a rank of the board, [wholeFile] is exactly the
    squares of that file and [wholeRank] exactly the squares of that rank;
    [wholeRank] of a rank from 8 on shifts by 64 or more and is undefined. *)
Theorem wholeFile_wholeRank (c : Z) :
  (0 ≤ c < 8 →
     ∃ f r, BitBoards.wholeFile c = Some f ∧ BitBoards.wholeRank c = Some r ∧
            word64 f ∧ word64 r ∧
            ∀ s, 0 ≤ s < 64 →
                 Z.testbit f s = bool_decide (Square.file s = c) ∧
                 Z.testbit r s = bool_decide (Square.rank s = c)) ∧
  (8 ≤ c → BitBoards.wholeRank c = None).
Proof.
  split.
  - intros Hc.
    pose (test := λ c, match BitBoards.wholeFile c, BitBoards.wholeRank c with
                       | Some f, Some r =>
                           bool_decide (word64 f) && bool_decide (word64 r) &&
                           all_in 0 64 (λ s,
                             bool_decide (Z.testbit f s
                                          = bool_decide (Square.file s = c)) &&
                             bool_decide (Z.testbit r s
                                          = bool_decide (Square.rank s = c)))
                       | _, _ => false
                       end).
    assert (all_in 0 8 test = true) as Hall by (vm_compute; reflexivity).
    pose proof (all_in_spec 0 8 test c Hall ltac:(lia)) as Htest.
    unfold test in Htest.
    destruct (BitBoards.wholeFile c) as [f|]; [|done].
    destruct (BitBoards.wholeRank c) as [r|]; [|done].
    apply andb_true_iff in Htest as [[Hf%bool_decide_eq_true
                                        Hr%bool_decide_eq_true]%andb_true_iff
                                       Hbits].
    exists f, r. split_and!; try done.
    intros s Hs.
    pose proof (all_in_spec 0 64 _ s Hbits ltac:(lia)) as Hbit.
    cbv beta in Hbit.
    by apply andb_true_iff in Hbit as [?%bool_decide_eq_true
                                        ?%bool_decide_eq_true].
  - intros Hc. unfold BitBoards.wholeRank, shl64, Coord.width.
    by rewrite bool_decide_false by lia.
Qed.

Lemma wholeFile_wholeRank_witness :
  ∃ f r, BitBoards.wholeFile 3 = Some f ∧ BitBoards.wholeRank 3 = Some r ∧
         Z.testbit f 27 = true ∧ Z.testbit r 27 = true.
Proof.
  destruct (proj1 (wholeFile_wholeRank 3) ltac:(lia))
    as (f & r & Hf & Hr & _ & _ & Hbits).
  exists f, r. destruct (Hbits 27 ltac:(lia)) as [-> ->].
  by split_and!.
Defined.

(** X5: [rightOf(f)] is exactly the squares to the right of file [f] for
    every file of the board, and the empty board for any other argument;
    [leftOf(f)] is exactly the squares to the left for the files 1 to 7;
    [above(r)] is exactly the squares above rank [r] for the ranks 0 to 6. *)
Theorem masks_beside (c : Z) :
  (0 ≤ c < 8 →
     ∀ s, 0 ≤ s < 64 →
          Z.testbit (BitBoards.rightOf c) s = bool_decide (c < Square.file s)) ∧
  (c < 0 ∨ 7 ≤ c → BitBoards.rightOf c = 0) ∧
  (1 ≤ c < 8 →
     ∀ s, 0 ≤ s < 64 →
          Z.testbit (BitBoards.leftOf c) s = bool_decide (Square.file s < c)) ∧
  (0 ≤ c < 7 →
     ∃ a, BitBoards.above c = Some a ∧ word64 a ∧
          ∀ s, 0 ≤ s < 64 → Z.testbit a s = bool_decide (c < Square.rank s)).
Proof.
  split_and!.
  - intros Hc s Hs.
    pose (test := λ c, all_in 0 64 (λ s,
            bool_decide (Z.testbit (BitBoards.rightOf c) s
                         = bool_decide (c < Square.file s)))).
    assert (all_in 0 8 test = true) as Hall by (vm_compute; reflexivity).
    pose proof (all_in_spec 0 8 test c Hall ltac:(lia)) as Htest.
    pose proof (all_in_spec 0 64 _ s Htest ltac:(lia)) as Hbit.
    by apply bool_decide_eq_true in Hbit.
  - intros Hc. unfold BitBoards.rightOf.
    destruct c as [|p|p]; [lia| |done].
    do 3 (destruct p as [p|p|]; try done; try lia).
  - intros Hc s Hs.
    pose (test := λ c, all_in 0 64 (λ s,
            bool_decide (Z.testbit (BitBoards.leftOf c) s
                         = bool_decide (Square.file s < c)))).
    assert (all_in 1 7 test = true) as Hall by (vm_compute; reflexivity).
    pose proof (all_in_spec 1 7 test c Hall ltac:(lia)) as Htest.
    pose proof (all_in_spec 0 64 _ s Htest ltac:(lia)) as Hbit.
    by apply bool_decide_eq_true in Hbit.
  - intros Hc.
    pose (test := λ c, match BitBoards.above c with
                       | Some a =>
                           bool_decide (word64 a) &&
                           all_in 0 64 (λ s,
                             bool_decide (Z.testbit a s
                                          = bool_decide (c < Square.rank s)))
                       | None => false
                       end).
    assert (all_in 0 7 test = true) as Hall by (vm_compute; reflexivity).
    pose proof (all_in_spec 0 7 test c Hall ltac:(lia)) as Htest.
    unfold test in Htest.
    destruct (BitBoards.above c) as [a|]; [|done].
    apply andb_true_iff in Htest as [Ha%bool_decide_eq_true Hbits].
    exists a. split_and!; try done.
    intros s Hs.
    pose proof (all_in_spec 0 64 _ s Hbits ltac:(lia)) as Hbit.
    by apply bool_decide_eq_true in Hbit.
Qed.

Lemma masks_beside_witness :
  Z.testbit (BitBoards.rightOf 4) 39 = true ∧
  Z.testbit (BitBoards.leftOf 4) 39 = false.
Proof.
  split.
  - by rewrite (proj1 (masks_beside 4) ltac:(lia) 39 ltac:(lia)).
  - by rewrite (proj1 (proj2 (proj2 (masks_beside 4))) ltac:(lia) 39 ltac:(lia)).
Defined.

(** X6: [set_bit_if_index_valid] is defined for every pair of coordinates:
    on the board it adds the square with that file and rank and nothing
    else, off the board it returns the board unchanged. *)
Theorem set_bit_if_index_valid_guarded (b file rank : Z) :
  word64 b →
  ∃ b', BitBoards.set_bit_if_index_valid b file rank = Some b' ∧ word64 b' ∧
        if Coord.inRange file && Coord.inRange rank
        then Square.file (Square.index file rank) = file ∧
             Square.rank (Square.index file rank) = rank ∧
             ∀ s, 0 ≤ s < 64 →
                  Z.testbit b' s
                  = Z.testbit b s || bool_decide (s = Square.index file rank)
        else b' = b.
Proof.
  intros Hb. unfold BitBoards.set_bit_if_index_valid, Coord.inRange.
  destruct (bool_decide (0 ≤ file < 8)) eqn:Hf; cbn [andb]; [|by exists b].
  destruct (bool_decide (0 ≤ rank < 8)) eqn:Hr; [|by exists b].
  apply bool_decide_eq_true in Hf, Hr.
  assert (0 ≤ Square.index file rank < 64) as Hi by (unfold Square.index; lia).
  unfold BitBoards.set_bit. rewrite shl64_bit, mbind_Some by done.
  eexists. split; [done|]. split; [by apply word64_lor, word64_bit|].
  unfold Square.file, Square.rank, Square.index in *.
  split; [Z.div_mod_to_equations; lia|].
  split; [Z.div_mod_to_equations; lia|].
  intros s Hs. by rewrite Z.lor_spec, testbit_bit by lia.
Qed.

Lemma set_bit_if_index_valid_guarded_witness :
  ∃ b', BitBoards.set_bit_if_index_valid 0 8 3 = Some b' ∧ b' = 0.
Proof.
  destruct (set_bit_if_index_valid_guarded 0 8 3 ltac:(done))
    as (b' & H & _ & Hb).
  by exists b'.
Defined.

(** ** movetables.h: the hash of the blocking pieces *)

(** X7: with a shift of 32 to 63 bits and entries that end below 2^32,
    [hash] returns an index among the [2^(64 - downShift)] entries that
    start at [tableOffset], so [lookUp] stays inside a table that holds
    them; the index depends on the blockers under the mask only.  A shift
    count outside 0 to 63 is undefined. *)
Theorem hash_in_its_entries (h : MoveTables.BlockerHash.t) (blockers : Z) :
  let entries := 2 ^ (64 - MoveTables.BlockerHash.downShift h) in
  (32 ≤ MoveTables.BlockerHash.downShift h < 64 →
   0 ≤ MoveTables.BlockerHash.tableOffset h →
   MoveTables.BlockerHash.tableOffset h + entries ≤ 2 ^ 32 →
   ∃ i, MoveTables.BlockerHash.hash h blockers = Some i ∧
        MoveTables.BlockerHash.tableOffset h ≤ i
          < MoveTables.BlockerHash.tableOffset h + entries ∧
        (∀ others,
           Z.land others (MoveTables.BlockerHash.blockerMask h)
           = Z.land blockers (MoveTables.BlockerHash.blockerMask h) →
           MoveTables.BlockerHash.hash h others = Some i) ∧
        (∀ slidingMoves : list Z,
           MoveTables.BlockerHash.tableOffset h + entries
             ≤ Z.of_nat (length slidingMoves) →
           is_Some (MoveTables.BlockerHash.lookUp slidingMoves h blockers))) ∧
  (¬ 0 ≤ MoveTables.BlockerHash.downShift h < 64 →
   MoveTables.BlockerHash.hash h blockers = None).
Proof.
  intros entries. split.
  - intros Hd Ho Hfit.
    set (d := MoveTables.BlockerHash.downShift h) in *.
    assert (0 < entries) by (unfold entries; apply Z.pow_pos_nonneg; lia).
    assert (∀ x, MoveTables.BlockerHash.hash h x
                 = Some (Z.shiftr
                           (wrap64 (Z.land x (MoveTables.BlockerHash.blockerMask h)
                                    * MoveTables.BlockerHash.magic h)) d
                         + MoveTables.BlockerHash.tableOffset h) ∧
                 0 ≤ Z.shiftr
                       (wrap64 (Z.land x (MoveTables.BlockerHash.blockerMask h)
                                * MoveTables.BlockerHash.magic h)) d
                   < entries) as Hcalc.
    { intros x. unfold MoveTables.BlockerHash.hash, shr64. fold d.
      rewrite bool_decide_true by lia. rewrite mbind_Some.
      set (product := wrap64 _).
      destruct (wrap64_word (Z.land x (MoveTables.BlockerHash.blockerMask h)
                             * MoveTables.BlockerHash.magic h)) as [Hp0 Hp1].
      fold product in Hp0, Hp1.
      assert (0 ≤ Z.shiftr product d < entries) as Hs.
      { rewrite Z.shiftr_div_pow2 by lia. split; [apply Z.div_pos; lia|].
        apply Z.div_lt_upper_bound; [lia|].
        unfold entries. fold d. rewrite <- Z.pow_add_r by lia.
        by replace (d + (64 - d)) with 64 by lia. }
      split; [|done]. unfold MoveTables.BlockerHash.wrap32.
      rewrite (Z.mod_small (Z.shiftr product d)) by lia.
      by rewrite Z.mod_small by lia. }
    destruct (Hcalc blockers) as [Hhash Hrange].
    eexists. split; [exact Hhash|]. split; [lia|]. split.
    + intros others Heq. destruct (Hcalc others) as [-> _]. by rewrite Heq.
    + intros slidingMoves Hlen. unfold MoveTables.BlockerHash.lookUp.
      rewrite Hhash, mbind_Some. apply lookup_lt_is_Some. lia.
  - intros Hd. unfold MoveTables.BlockerHash.hash, shr64.
    by rewrite bool_decide_false.
Qed.

Lemma hash_in_its_entries_witness :
  ∃ i, MoveTables.BlockerHash.hash
         (MoveTables.BlockerHash.mk 0x7e 0x8000000000000001 58 4096) 0xff
       = Some i ∧ 4096 ≤ i < 4096 + 64.
Proof.
  destruct (proj1 (hash_in_its_entries
                     (MoveTables.BlockerHash.mk 0x7e 0x8000000000000001 58 4096)
                     0xff))
    as (i & Hi & Hrange & _); [simpl; lia|simpl; lia|simpl; lia|].
  exists i. split; [exact Hi|exact Hrange].
Defined.

(** ** game_state.cpp: pseudo-legal moves and attacks *)

(** X8: whatever piece, colour, square and occupancy [getMoves] is asked
    for, the board it returns is a 64-bit word that holds no square on
    which a piece of that colour stands. *)
Theorem getMoves_spares_own_pieces (st : GameState.t) (piece : Piece.t)
    (color : Color.t) (square occupancy m : Z) :
  GameState.getMoves st piece color square occupancy = Some m →
  word64 m ∧ Z.land m (GameState.forColor st color) = 0.
Proof.
  intros [Hw Hown]%getMoves_not_own. split; [done|].
  apply Z.bits_inj'. intros i _. rewrite Z.land_spec, Z.bits_0.
  destruct (Z.testbit m i) eqn:Hm; [|done]. by rewrite (Hown i Hm).
Qed.

Lemma getMoves_spares_own_pieces_witness :
  ∃ m, GameState.getMoves GameState.initial Piece.knight Color.white 1
         (GameState.occupancy GameState.initial) = Some m ∧
       Z.land m (GameState.forColor GameState.initial Color.white) = 0.
Proof.
  eexists. split; [vm_compute; reflexivity|].
  apply (getMoves_spares_own_pieces GameState.initial Piece.knight Color.white 1
           (GameState.occupancy GameState.initial)).
  vm_compute. reflexivity.
Defined.

(** X9: the free squares a pawn can move to are straight ahead: the next
    square, or the one after it when the pawn stands on its starting rank
    and the next square is free too; the next square is among the moves
    whenever it is free.  Every other destination is an occupied square. *)
Theorem pawn_moves_to_free_squares (st : GameState.t) (color : Color.t)
    (square occupancy m : Z) :
  let offset := match color with
                | Color.white => Square.north
                | Color.black => Square.south
                end in
  let startRank := match color with Color.white => 1 | Color.black => 6 end in
  GameState.getMoves st Piece.pawn color square occupancy = Some m →
  (∀ e, Z.testbit m e = true → Z.testbit occupancy e = false →
        Z.testbit occupancy (square + offset) = false ∧
        (e = square + offset ∨
         e = square + 2 * offset ∧ Square.rank square = startRank)) ∧
  (Z.testbit occupancy (square + offset) = false →
   Z.testbit (GameState.forColor st color) (square + offset) = false →
   Z.testbit m (square + offset) = true).
Proof.
  intros offset startRank. unfold GameState.getMoves.
  assert (offset = match color with
                   | Color.white => Square.north
                   | Color.black => Square.south
                   end) as Hoff by done.
  rewrite <- Hoff.
  intros (one & [Hrange ->]%shl64_bit_inv & H)%bind_Some.
  apply bind_Some in H as (moves & Hmoves & H).
  apply bind_Some in H as (attacks & _ & [= <-]).
  assert (∀ e, Z.testbit (Z.land (Z.shiftl 1 (square + offset))
                            (lnot64 occupancy)) e
               = bool_decide (e = square + offset)
                 && negb (Z.testbit occupancy e)) as Hone.
  { intros e. rewrite Z.land_spec, testbit_lnot64, testbit_bit by lia.
    destruct (bool_decide (e = square + offset)) eqn:He; [|done].
    apply bool_decide_eq_true in He. subst e.
    by rewrite bool_decide_true, andb_true_r by done. }
  assert (∀ e, Z.testbit moves e = true →
               Z.testbit occupancy (square + offset) = false ∧
               Z.testbit occupancy e = false ∧
               (e = square + offset ∨
                e = square + 2 * offset ∧ Square.rank square = startRank))
    as Hpush.
  { intros e He. revert Hmoves.
    destruct (_ && _) eqn:Hdouble.
    - apply andb_true_iff in Hdouble as [Hcan Hfirst].
      apply negb_true_iff, bool_decide_eq_false in Hfirst.
      assert (Z.testbit occupancy (square + offset) = false) as Hfree.
      { destruct (Z.testbit occupancy (square + offset)) eqn:Hocc; [|done].
        exfalso. apply Hfirst. apply Z.bits_inj'. intros i _.
        rewrite Hone, Z.bits_0.
        destruct (bool_decide (i = square + offset)) eqn:Hi; [|done].
        apply bool_decide_eq_true in Hi. subst i. by rewrite Hocc. }
      intros (two & [Hrange2 ->]%shl64_bit_inv & [= <-])%bind_Some.
      rewrite Z.lor_spec, Hone, Z.land_spec, testbit_lnot64, testbit_bit in He
        by lia.
      split; [done|].
      apply orb_true_iff in He as [He|He].
      + apply andb_true_iff in He as [->%bool_decide_eq_true _].
        split; [done|by left].
      + apply andb_true_iff in He as [->%bool_decide_eq_true He].
        apply andb_true_iff in He as [Hocc%negb_true_iff _].
        split; [done|]. right. split; [done|].
        unfold startRank. destruct color; by apply bool_decide_eq_true in Hcan.
    - intros [= <-]. rewrite Hone in He.
      apply andb_true_iff in He as [->%bool_decide_eq_true Hocc%negb_true_iff].
      split; [done|]. split; [done|]. by left. }
  split.
  - intros e He Hocc.
    rewrite Z.land_spec, Z.lor_spec, Z.land_spec, Hocc, andb_false_r,
      orb_false_r in He.
    apply andb_true_iff in He as [He _].
    destruct (Hpush e He) as (? & _ & ?). done.
  - intros Hfree Hown.
    rewrite Z.land_spec, Z.lor_spec, testbit_lnot64, Hown.
    rewrite (bool_decide_true (0 ≤ square + offset < 64)) by done.
    cbn [negb andb]. rewrite andb_true_r. apply orb_true_iff. left.
    assert (Z.testbit (Z.land (Z.shiftl 1 (square + offset))
                         (lnot64 occupancy)) (square + offset) = true) as Hbit.
    { by rewrite Hone, Hfree, bool_decide_true. }
    revert Hmoves. destruct (_ && _).
    + intros (two & _ & [= <-])%bind_Some. by rewrite Z.lor_spec, Hbit.
    + by intros [= <-].
Qed.

Lemma pawn_moves_to_free_squares_witness :
  ∃ m, GameState.getMoves GameState.initial Piece.pawn Color.white Examples.e2
         (GameState.occupancy GameState.initial) = Some m ∧
       Z.testbit m Examples.e3 = true.
Proof.
  eexists. split; [vm_compute; reflexivity|].
  apply (proj2 (pawn_moves_to_free_squares GameState.initial Color.white
                  Examples.e2 (GameState.occupancy GameState.initial) _
                  ltac:(vm_compute; reflexivity)));
    vm_compute; reflexivity.
Defined.

(** X10: a square is among the attackers [getAttacks] returns exactly when
    a piece of the other colour stands on it and a piece of the same kind
    and of the attacked colour, placed on the attacked square, could move
    there; so the attackers are pieces of the other colour only. *)
Theorem getAttacks_are_opposing_pieces (st : GameState.t) (square : Z)
    (color : Color.t) (occupancy attackers : Z) :
  GameState.getAttacks st square color occupancy = Some attackers →
  word64 attackers ∧
  (∀ e, Z.testbit attackers e = true ↔
        ∃ piece m,
          piece ∈ Piece.all ∧
          GameState.getMoves st piece color square occupancy = Some m ∧
          Z.testbit m e = true ∧
          Z.testbit (GameState.forPiece st piece (Color.opponent color)) e
            = true) ∧
  (∀ e, Z.testbit attackers e = true →
        Z.testbit (GameState.forColor st (Color.opponent color)) e = true).
Proof.
  unfold GameState.getAttacks, Piece.all. cbn [foldl]. intros H.
  apply bind_Some in H as (a5 & H & Hk).
  apply bind_Some in Hk as (m6 & Hm6 & [= <-]).
  apply bind_Some in H as (a4 & H & Hk).
  apply bind_Some in Hk as (m5 & Hm5 & [= <-]).
  apply bind_Some in H as (a3 & H & Hk).
  apply bind_Some in Hk as (m4 & Hm4 & [= <-]).
  apply bind_Some in H as (a2 & H & Hk).
  apply bind_Some in Hk as (m3 & Hm3 & [= <-]).
  apply bind_Some in H as (a1 & H & Hk).
  apply bind_Some in Hk as (m2 & Hm2 & [= <-]).
  apply bind_Some in H as (a0 & [= <-] & Hk).
  apply bind_Some in Hk as (m1 & Hm1 & [= <-]).
  assert (∀ e, Z.testbit
                 (Z.lor (Z.lor (Z.lor (Z.lor (Z.lor (Z.lor 0
                    (Z.land m1 (GameState.forPiece st Piece.pawn
                                  (Color.opponent color))))
                    (Z.land m2 (GameState.forPiece st Piece.knight
                                  (Color.opponent color))))
                    (Z.land m3 (GameState.forPiece st Piece.bishop
                                  (Color.opponent color))))
                    (Z.land m4 (GameState.forPiece st Piece.rook
                                  (Color.opponent color))))
                    (Z.land m5 (GameState.forPiece st Piece.queen
                                  (Color.opponent color))))
                    (Z.land m6 (GameState.forPiece st Piece.king
                                  (Color.opponent color)))) e = true ↔
               ∃ piece m,
                 piece ∈ Piece.all ∧
                 GameState.getMoves st piece color square occupancy = Some m ∧
                 Z.testbit m e = true ∧
                 Z.testbit (GameState.forPiece st piece (Color.opponent color)) e
                   = true) as Hiff.
  { intros e. rewrite !Z.lor_spec, !Z.land_spec, Z.bits_0, orb_false_l.
    rewrite !orb_true_iff, !andb_true_iff. split.
    - intros [[[[[[? ?]|[? ?]]|[? ?]]|[? ?]]|[? ?]]|[? ?]];
        [ exists Piece.pawn, m1 | exists Piece.knight, m2
        | exists Piece.bishop, m3 | exists Piece.rook, m4
        | exists Piece.queen, m5 | exists Piece.king, m6 ];
        (split; [apply list_elem_of_In; simpl; tauto|done]).
    - intros (piece & m & _ & Hm & Hbit & Hopp).
      destruct piece;
        [ assert (m = m1) as -> by congruence
        | assert (m = m2) as -> by congruence
        | assert (m = m3) as -> by congruence
        | assert (m = m4) as -> by congruence
        | assert (m = m5) as -> by congruence
        | assert (m = m6) as -> by congruence
        | ]; try tauto.
      unfold GameState.forPiece in Hopp. simpl in Hopp.
      by rewrite Z.bits_0 in Hopp. }
  split; [|split; [exact Hiff|]].
  - pose proof (proj1 (getMoves_not_own _ _ _ _ _ _ Hm1)).
    pose proof (proj1 (getMoves_not_own _ _ _ _ _ _ Hm2)).
    pose proof (proj1 (getMoves_not_own _ _ _ _ _ _ Hm3)).
    pose proof (proj1 (getMoves_not_own _ _ _ _ _ _ Hm4)).
    pose proof (proj1 (getMoves_not_own _ _ _ _ _ _ Hm5)).
    pose proof (proj1 (getMoves_not_own _ _ _ _ _ _ Hm6)).
    repeat (apply word64_lor; [|by apply word64_land_l]). by compute.
  - intros e (piece & m & _ & _ & _ & Hopp)%Hiff.
    apply forColor_spec. eauto.
Qed.

Lemma getAttacks_are_opposing_pieces_witness :
  ∃ attackers,
    GameState.getAttacks Examples.en_passant_position Examples.c5 Color.black
      (GameState.occupancy Examples.en_passant_position) = Some attackers ∧
    word64 attackers.
Proof.
  eexists. split; [vm_compute; reflexivity|].
  apply (getAttacks_are_opposing_pieces Examples.en_passant_position Examples.c5
           Color.black (GameState.occupancy Examples.en_passant_position)).
  vm_compute. reflexivity.
Defined.

(** ** game_state.cpp: what a move does to the status of the position *)

Lemma has_clear_subset (rights flag other : Z) :
  CastlingRights.has (CastlingRights.clear rights flag) other = true →
  CastlingRights.has rights other = true.
Proof.
  unfold CastlingRights.has, CastlingRights.clear.
  intros H%bool_decide_eq_true. apply bool_decide_eq_true. intros Hz.
  apply H. rewrite <- Z.land_assoc, (Z.land_comm (Z.lnot flag)), Z.land_assoc.
  by rewrite Hz.
Qed.

Lemma has_clear_same (rights flag : Z) :
  CastlingRights.has (CastlingRights.clear rights flag) flag = false.
Proof.
  unfold CastlingRights.has, CastlingRights.clear.
  apply bool_decide_eq_false. intros H. apply H.
  by rewrite <- Z.land_assoc, (Z.land_comm (Z.lnot flag)), Z.land_lnot_diag,
    Z.land_0_r.
Qed.

Lemma unset_status (st st' : GameState.t) (sq : Z) :
  GameState.unset st sq = Some st' → same_status st st'.
Proof.
  unfold GameState.unset. intros (m & _ & [= <-])%bind_Some. by repeat split.
Qed.

Lemma moveRook_status (st st' : GameState.t) (from to : Z) (c : Color.t) :
  GameState.moveRook st from to c = Some st' → same_status st st'.
Proof.
  unfold GameState.moveRook. intros (s1 & H1%unset_status & H2)%bind_Some.
  apply set_status in H2 as [H2 _]. by eapply same_status_trans.
Qed.

Lemma applyToBoards_status (st st' : GameState.t) (info : UndoInfo.t)
    (promo : Piece.t) :
  GameState.applyToBoards st info promo = Some st' → same_status st st'.
Proof.
  unfold GameState.applyToBoards.
  intros (s1 & H1 & H)%bind_Some.
  apply bind_Some in H as (s2 & H2 & H).
  apply bind_Some in H as (s3 & H3%unset_status & H).
  assert (same_status st s1) as S1.
  { destruct (bool_decide (UndoInfo.capture info ≠ Piece.empty));
      [by eapply unset_status|].
    injection H1 as <-. apply same_status_refl. }
  assert (same_status s1 s2) as S2.
  { destruct (UndoInfo.flags info);
      first [ by eapply unset_status | by eapply moveRook_status
            | injection H2 as <-; apply same_status_refl ]. }
  assert (same_status s3 st') as S4.
  { destruct (bool_decide (promo ≠ Piece.empty));
      by apply set_status in H as [? _]. }
  eapply same_status_trans; [exact S1|].
  eapply same_status_trans; [exact S2|].
  eapply same_status_trans; [exact H3|exact S4].
Qed.

(** The parts of [executeMove]: the undo record, the new en-passant square
    and the boards after the move. *)
Lemma executeMove_parts (st st' : GameState.t) (m : Move) :
  GameState.executeMove st m = Some st' →
  ∃ info,
    GameState.makeUndoInfo st m = Some info ∧
    GameState.next st' = Color.opponent (GameState.next st) ∧
    GameState.undoStack st' = info :: GameState.undoStack st ∧
    GameState.castlingRights st'
      = GameState.updateCastlingRights (GameState.castlingRights st)
          (UndoInfo.start info) (UndoInfo.end_ info) ∧
    GameState.uneventfulHalfMoves st'
      = (if bool_decide (UndoInfo.piece info ≠ Piece.pawn) &&
            bool_decide (UndoInfo.capture info = Piece.empty)
         then wrap_counter (GameState.uneventfulHalfMoves st + 1) else 0) ∧
    GameState.nextEnPassant
      (GameState.mk (GameState.boards st) (GameState.next st)
         (GameState.castlingRights st') (GameState.enPassantSquare st)
         (GameState.uneventfulHalfMoves st') (GameState.undoStack st')) info
      = Some (GameState.enPassantSquare st') ∧
    ∃ sb,
      GameState.applyToBoards
        (GameState.mk (GameState.boards st) (GameState.next st)
           (GameState.castlingRights st') (GameState.enPassantSquare st')
           (GameState.uneventfulHalfMoves st') (GameState.undoStack st'))
        info (promotion m) = Some sb ∧
      GameState.boards st' = GameState.boards sb.
Proof.
  unfold GameState.executeMove.
  intros (info & Hinfo & H)%bind_Some. cbv zeta in H.
  cbn [GameState.boards GameState.next GameState.castlingRights
       GameState.enPassantSquare GameState.uneventfulHalfMoves
       GameState.undoStack] in H.
  apply bind_Some in H as (ep & Hep & H).
  apply bind_Some in H as (sb & Hsb & [= <-]).
  pose proof (applyToBoards_status _ _ _ _ Hsb) as (Hn & Hr & He & Hh & Hs).
  cbn [GameState.boards GameState.next GameState.castlingRights
       GameState.enPassantSquare GameState.uneventfulHalfMoves
       GameState.undoStack] in *.
  exists info. unfold GameState.them.
  cbn [GameState.boards GameState.next GameState.castlingRights
       GameState.enPassantSquare GameState.uneventfulHalfMoves
       GameState.undoStack].
  rewrite <- Hn, <- Hr, <- He, <- Hh, <- Hs.
  split_and!; try done. by exists sb.
Qed.

Lemma makeUndoInfo_fields (st : GameState.t) (m : Move) (info : UndoInfo.t) :
  GameState.makeUndoInfo st m = Some info →
  UndoInfo.start info = start m ∧ UndoInfo.end_ info = end_ m ∧
  UndoInfo.enPassant info = GameState.enPassantSquare st ∧
  UndoInfo.castlingRights info = GameState.castlingRights st ∧
  UndoInfo.uneventfulHalfMoves info = GameState.uneventfulHalfMoves st ∧
  GameState.getPiece st (start m) = Some (UndoInfo.piece info).
Proof.
  unfold GameState.makeUndoInfo.
  intros (piece & Hpiece & H)%bind_Some.
  apply bind_Some in H as (capture & _ & [= <-]).
  repeat (destruct (_ && _) || destruct (bool_decide (promotion m ≠ _)));
    by split_and!.
Qed.

Lemma clearIf_subset (c : bool) (rights flag other : Z) :
  CastlingRights.has (if c then CastlingRights.clear rights flag else rights)
    other = true →
  CastlingRights.has rights other = true.
Proof. destruct c; [apply has_clear_subset|done]. Qed.

(** X11: [executeMove] never adds a castling right.  A move that starts on
    the home square of a king or a rook, or ends on the home square of a
    rook, takes away the rights that piece is needed for; a move that
    touches none of these squares leaves the rights as they are. *)
Theorem executeMove_castling_rights (st st' : GameState.t) (m : Move) :
  GameState.executeMove st m = Some st' →
  let rights := GameState.castlingRights st in
  let rights' := GameState.castlingRights st' in
  (∀ flag, CastlingRights.has rights' flag = true →
           CastlingRights.has rights flag = true) ∧
  (start m = Square.e1 ∨ start m = Square.h1 ∨ end_ m = Square.h1 →
   CastlingRights.has rights' CastlingRights.whiteKingSide = false) ∧
  (start m = Square.e1 ∨ start m = Square.a1 ∨ end_ m = Square.a1 →
   CastlingRights.has rights' CastlingRights.whiteQueenSide = false) ∧
  (start m = Square.e8 ∨ start m = Square.h8 ∨ end_ m = Square.h8 →
   CastlingRights.has rights' CastlingRights.blackKingSide = false) ∧
  (start m = Square.e8 ∨ start m = Square.a8 ∨ end_ m = Square.a8 →
   CastlingRights.has rights' CastlingRights.blackQueenSide = false) ∧
  (start m ∉ [Square.e1; Square.a1; Square.h1;
              Square.e8; Square.a8; Square.h8] →
   end_ m ∉ [Square.a1; Square.h1; Square.a8; Square.h8] →
   rights' = rights).
Proof.
  intros (info & Hinfo & _ & _ & Hrights & _)%executeMove_parts.
  apply makeUndoInfo_fields in Hinfo as (Hs & He & _).
  rewrite Hs, He in Hrights. cbv zeta. rewrite Hrights.
  unfold GameState.updateCastlingRights.
  set (c1 := bool_decide (start m = Square.e1) || bool_decide (start m = Square.h1)
             || bool_decide (end_ m = Square.h1)).
  set (c2 := bool_decide (start m = Square.e1) || bool_decide (start m = Square.a1)
             || bool_decide (end_ m = Square.a1)).
  set (c3 := bool_decide (start m = Square.e8) || bool_decide (start m = Square.h8)
             || bool_decide (end_ m = Square.h8)).
  set (c4 := bool_decide (start m = Square.e8) || bool_decide (start m = Square.a8)
             || bool_decide (end_ m = Square.a8)).
  set (r0 := GameState.castlingRights st).
  set (r1 := if c1 then CastlingRights.clear r0 CastlingRights.whiteKingSide
             else r0).
  set (r2 := if c2 then CastlingRights.clear r1 CastlingRights.whiteQueenSide
             else r1).
  set (r3 := if c3 then CastlingRights.clear r2 CastlingRights.blackKingSide
             else r2).
  set (r4 := if c4 then CastlingRights.clear r3 CastlingRights.blackQueenSide
             else r3).
  assert (∀ a b c : bool, a = true ∨ b = true ∨ c = true → a || b || c = true)
    as Hor.
  { intros [] [] []; intuition congruence. }
  split_and!.
  - intros flag H4. by do 4 apply clearIf_subset in H4.
  - intros Hd. assert (c1 = true) as Hc.
    { apply Hor. rewrite !bool_decide_eq_true. exact Hd. }
    destruct (CastlingRights.has r4 _) eqn:H4; [|done].
    do 3 apply clearIf_subset in H4. fold r1 in H4.
    unfold r1 in H4. by rewrite Hc, has_clear_same in H4.
  - intros Hd. assert (c2 = true) as Hc.
    { apply Hor. rewrite !bool_decide_eq_true. exact Hd. }
    destruct (CastlingRights.has r4 _) eqn:H4; [|done].
    do 2 apply clearIf_subset in H4. fold r2 in H4.
    unfold r2 in H4. by rewrite Hc, has_clear_same in H4.
  - intros Hd. assert (c3 = true) as Hc.
    { apply Hor. rewrite !bool_decide_eq_true. exact Hd. }
    destruct (CastlingRights.has r4 _) eqn:H4; [|done].
    apply clearIf_subset in H4. fold r3 in H4.
    unfold r3 in H4. by rewrite Hc, has_clear_same in H4.
  - intros Hd. assert (c4 = true) as Hc.
    { apply Hor. rewrite !bool_decide_eq_true. exact Hd. }
    unfold r4. by rewrite Hc, has_clear_same.
  - intros Hstart Hend.
    assert (c1 = false ∧ c2 = false ∧ c3 = false ∧ c4 = false)
      as (E1 & E2 & E3 & E4).
    { unfold c1, c2, c3, c4.
      split_and!; rewrite !orb_false_iff; split_and!;
        apply bool_decide_eq_false; intros Heq;
        first [ apply Hstart; rewrite Heq; set_solver
              | apply Hend; rewrite Heq; set_solver ]. }
    unfold r4, r3, r2, r1. by rewrite E1, E2, E3, E4.
Qed.

Lemma executeMove_castling_rights_witness :
  ∃ st', GameState.executeMove GameState.initial
           (plainMove Square.h1 15) = Some st' ∧
         CastlingRights.has (GameState.castlingRights st')
           CastlingRights.whiteKingSide = false.
Proof.
  eexists. split; [vm_compute; reflexivity|].
  apply (executeMove_castling_rights GameState.initial _
           (plainMove Square.h1 15) ltac:(vm_compute; reflexivity)).
  by right; left.
Defined.

Lemma makeUndoInfo_pieces (st : GameState.t) (m : Move) (info : UndoInfo.t) :
  GameState.makeUndoInfo st m = Some info →
  ∃ capture,
    GameState.getPiece st (start m) = Some (UndoInfo.piece info) ∧
    GameState.getPiece st (end_ m) = Some capture ∧
    (UndoInfo.capture info = capture ∨
     UndoInfo.capture info = Piece.pawn ∧ UndoInfo.piece info = Piece.pawn).
Proof.
  unfold GameState.makeUndoInfo.
  intros (piece & Hpiece & H)%bind_Some.
  apply bind_Some in H as (capture & Hcapture & [= <-]).
  exists capture.
  destruct (bool_decide (GameState.enPassantSquare st = end_ m)); cbn [andb].
  - destruct (bool_decide (piece = Piece.pawn)) eqn:Hp.
    + apply bool_decide_eq_true in Hp. subst piece. split_and!; try done.
      by right.
    + repeat (destruct (_ && _) || destruct (bool_decide (promotion m ≠ _)));
        split_and!; (done || by left).
  - repeat (destruct (_ && _) || destruct (bool_decide (promotion m ≠ _)));
      split_and!; (done || by left).
Qed.

(** X12: after [executeMove] the other side is to move and the undo stack
    holds one more record, which keeps the squares of the move and the
    en-passant square, castling rights and half-move counter the position
    had.  The half-move counter is 0 after the move of a pawn or onto an
    occupied square and one more, modulo 256, after any other move. *)
Theorem executeMove_status (st st' : GameState.t) (m : Move) :
  GameState.executeMove st m = Some st' →
  GameState.next st' = Color.opponent (GameState.next st) ∧
  (∃ info,
     GameState.undoStack st' = info :: GameState.undoStack st ∧
     UndoInfo.start info = start m ∧ UndoInfo.end_ info = end_ m ∧
     UndoInfo.enPassant info = GameState.enPassantSquare st ∧
     UndoInfo.castlingRights info = GameState.castlingRights st ∧
     UndoInfo.uneventfulHalfMoves info = GameState.uneventfulHalfMoves st) ∧
  ∃ piece target,
    GameState.getPiece st (start m) = Some piece ∧
    GameState.getPiece st (end_ m) = Some target ∧
    GameState.uneventfulHalfMoves st'
    = if bool_decide (piece ≠ Piece.pawn) && bool_decide (target = Piece.empty)
      then (GameState.uneventfulHalfMoves st + 1) `mod` 256 else 0.
Proof.
  intros (info & Hinfo & Hnext & Hstack & _ & Hcount & _)%executeMove_parts.
  pose proof (makeUndoInfo_fields _ _ _ Hinfo) as (Hs & He & Hep & Hr & Hh & _).
  destruct (makeUndoInfo_pieces _ _ _ Hinfo) as (target & Hp & Ht & Hc).
  split; [done|]. split; [by exists info|].
  exists (UndoInfo.piece info), target. split; [done|]. split; [done|].
  rewrite Hcount. unfold wrap_counter.
  destruct Hc as [->|[-> ->]]; [done|].
  by rewrite (bool_decide_false (Piece.pawn ≠ Piece.pawn)) by (by intros ?).
Qed.

Lemma executeMove_status_witness :
  ∃ st', GameState.executeMove GameState.initial (plainMove 1 18) = Some st' ∧
         GameState.next st' = Color.black.
Proof.
  eexists. split; [vm_compute; reflexivity|].
  apply (executeMove_status GameState.initial _ (plainMove 1 18)
           ltac:(vm_compute; reflexivity)).
Defined.

(** X13: whatever the move, the en-passant square [executeMove] leaves is
    no square at all or a square of rank 2 or 5.  When it is a square, a
    pawn has moved, the square is one step ahead of where that pawn started,
    and the square [enPassantCapture] computes from it lies two steps
    ahead of the start, on the rank where the move ended. *)
Theorem executeMove_en_passant_square (st st' : GameState.t) (m : Move) :
  GameState.executeMove st m = Some st' →
  en_passant_rank st' ∧
  (Square.inRange (GameState.enPassantSquare st') = true →
   GameState.getPiece st (start m) = Some Piece.pawn ∧
   (Square.rank (start m) = 1 ∧
    GameState.enPassantSquare st' = start m + Square.north ∧
    GameState.enPassantCapture (GameState.enPassantSquare st')
      = start m + 2 * Square.north ∨
    Square.rank (start m) = 6 ∧
    GameState.enPassantSquare st' = start m + Square.south ∧
    GameState.enPassantCapture (GameState.enPassantSquare st')
      = start m + 2 * Square.south) ∧
   Square.rank (GameState.enPassantCapture (GameState.enPassantSquare st'))
     = Square.rank (end_ m)).
Proof.
  intros (info & Hinfo & _ & _ & _ & _ & Hep & _)%executeMove_parts.
  pose proof (makeUndoInfo_fields _ _ _ Hinfo) as (Hs & He & _ & _ & _ & Hp).
  revert Hep. unfold GameState.nextEnPassant, en_passant_rank. rewrite Hs, He.
  generalize (GameState.enPassantSquare st'). intros ep.
  unfold GameState.enPassantCapture, Square.inRange, Square.rank, Square.north,
    Square.south, Square.noSquare.
  assert (∀ P : Prop,
            (64 = 64 ∨ bool_decide (0 ≤ 64 < 64) = true ∧
                       (64 `div` 8 = 2 ∨ 64 `div` 8 = 5)) ∧
            (bool_decide (0 ≤ 64 < 64) = true → P)) as Hnone.
  { intros P. split; [by left|]. intros [_ ?]%bool_decide_eq_true. lia. }
  destruct (bool_decide (UndoInfo.piece info = Piece.pawn)) eqn:Hpawn;
    cbn [andb]; [|intros [= <-]; apply Hnone].
  apply bool_decide_eq_true in Hpawn. rewrite Hpawn in Hp.
  destruct (bool_decide (start m `div` 8 = 1)) eqn:H1; cbn [andb].
  - apply bool_decide_eq_true in H1.
    rewrite (bool_decide_false (start m `div` 8 = 6)) by lia. cbn [andb].
    destruct (bool_decide (end_ m `div` 8 = 3)) eqn:H3.
    + apply bool_decide_eq_true in H3.
      intros (north & _ & H)%bind_Some. destruct north.
      * injection H as <-.
        rewrite (bool_decide_true ((start m + 8) `div` 8 = 2))
          by (Z.div_mod_to_equations; lia).
        split.
        { right. split; [apply bool_decide_eq_true|left];
            Z.div_mod_to_equations; lia. }
        intros _. split; [done|]. split; [left; split_and!; (done || lia)|].
        Z.div_mod_to_equations; lia.
      * rewrite mbind_Some in H. injection H as <-. apply Hnone.
    + rewrite !mbind_Some. intros [= <-]. apply Hnone.
  - apply bool_decide_eq_false in H1. rewrite mbind_Some.
    destruct (bool_decide (start m `div` 8 = 6)) eqn:H6; cbn [andb].
    + apply bool_decide_eq_true in H6.
      destruct (bool_decide (end_ m `div` 8 = 4)) eqn:H4.
      * apply bool_decide_eq_true in H4.
        intros (south & _ & H)%bind_Some. destruct south.
        -- injection H as <-.
           rewrite (bool_decide_false ((start m + -8) `div` 8 = 2))
             by (Z.div_mod_to_equations; lia).
           split.
           { right. split; [apply bool_decide_eq_true|right];
               Z.div_mod_to_equations; lia. }
           intros _. split; [done|]. split; [right; split_and!; (done || lia)|].
           Z.div_mod_to_equations; lia.
        -- injection H as <-. apply Hnone.
      * rewrite mbind_Some. intros [= <-]. apply Hnone.
    + intros [= <-]. apply Hnone.
Qed.

Lemma executeMove_en_passant_square_witness :
  ∃ st', GameState.executeMove GameState.initial
           (plainMove Examples.e2 Examples.e4) = Some st' ∧
         en_passant_rank st'.
Proof.
  eexists. split; [vm_compute; reflexivity|].
  apply (executeMove_en_passant_square GameState.initial _
           (plainMove Examples.e2 Examples.e4) ltac:(vm_compute; reflexivity)).
Defined.

(** ** What a move leaves on the board *)

Ltac content_case :=
  unfold after_move, content_bit, rook_squares;
  repeat match goal with
         | Hk : arriving _ _ = _ |- _ => rewrite !Hk
         end;
  cbn [UndoInfo.piece UndoInfo.capture UndoInfo.start UndoInfo.end_
       UndoInfo.enPassant UndoInfo.flags];
  unfold Square.a1, Square.d1, Square.f1, Square.h1,
         Square.a8, Square.d8, Square.f8, Square.h8;
  norm_next;
  repeat match goal with
         | |- context [bool_decide (?a = ?b)] =>
             first [ rewrite (bool_decide_true (a = b)) by lia
                   | rewrite (bool_decide_false (a = b)) by lia ]
         end;
  cbn [andb orb negb]; cbv iota;
  rewrite ?andb_false_r, ?orb_false_r, ?andb_true_r, ?orb_true_r;
  repeat case_bool_decide; simplify_eq; try done;
  try (by destruct (Z.testbit _ _));
  try (exfalso; intuition congruence).

Ltac finish_content :=
  eexists; split; [reflexivity|]; split; [status_chain|]; split; [done|];
  let c := fresh "c" in
  let k := fresh "k" in
  let i := fresh "i" in
  let Hi := fresh "Hi" in
  intros c k i Hi; rewrite_bits.

Lemma applyToBoards_content (sa : GameState.t) (info : UndoInfo.t)
    (promo : Piece.t) :
  boards_word64 sa → faithful_info sa info →
  ∃ sb, GameState.applyToBoards sa info promo = Some sb ∧
        same_status sa sb ∧ boards_word64 sb ∧
        ∀ c k i, 0 ≤ i < 64 →
          Z.testbit (GameState.forPiece sb k c) i
          = content_bit sa (after_move sa info promo i) c k i.
Proof.
  intros Hw (Hs & He & Hstart & Hflags).
  pose proof (stands_kind _ _ _ _ Hstart) as Hpiece.
  unfold GameState.applyToBoards, GameState.moveRook.
  destruct info as [piece capture s e epq rights half flags].
  unfold end_content, castle_squares in Hflags.
  cbn [UndoInfo.piece UndoInfo.capture UndoInfo.start UndoInfo.end_
       UndoInfo.enPassant UndoInfo.flags] in *.
  assert (∀ st color, ∃ kind, kind ≠ Piece.empty ∧
            arriving (UndoInfo.mk piece capture s e epq rights half flags)
              promo = kind ∧
            (if bool_decide (promo ≠ Piece.empty)
             then GameState.set st e promo color
             else GameState.set st e piece color)
            = GameState.set st e kind color) as Hkind.
  { intros st color. unfold arriving. cbn [UndoInfo.piece].
    case_bool_decide; eauto. }
  pose proof (opponent_ne (GameState.next sa)) as Hopp.
  destruct flags; unfold end_content, castle_squares in Hflags;
    cbn [UndoInfo.piece UndoInfo.capture UndoInfo.start UndoInfo.end_
         UndoInfo.enPassant UndoInfo.flags] in Hflags.
  - (* no flag *)
    destruct Hflags as [[-> Hv]|Hcap].
    + pose proof (stands_vacant_ne _ _ _ _ _ Hstart Hv).
      decide_conds. step_unset sa t1.
      norm_next. destruct (Hkind t1 (GameState.next sa)) as (kind & ? & Hk & ->).
      step_set sa t2. finish_content.
      at_square i s Hstart; [|at_square i e Hv]; content_case.
    + pose proof (stands_kind _ _ _ _ Hcap).
      pose proof (stands_stands_ne _ _ _ _ _ _ _ Hstart Hcap Hopp).
      decide_conds. step_unset sa t1. step_unset sa t2.
      norm_next. destruct (Hkind t2 (GameState.next sa)) as (kind & ? & Hk & ->).
      step_set sa t3. finish_content.
      at_square i s Hstart; [|at_square i e Hcap]; content_case.
  - (* en passant *)
    destruct Hflags as (-> & -> & Hv & Hc & Hcap).
    pose proof (stands_vacant_ne _ _ _ _ _ Hstart Hv).
    pose proof (stands_vacant_ne _ _ _ _ _ Hcap Hv).
    pose proof (stands_stands_ne _ _ _ _ _ _ _ Hstart Hcap Hopp).
    decide_conds. step_unset sa t1. step_unset sa t2. step_unset sa t3.
    norm_next. destruct (Hkind t3 (GameState.next sa)) as (kind & ? & Hk & ->).
    step_set sa t4. finish_content.
    at_square i s Hstart;
      [|at_square i e Hv;
        [|at_square i (GameState.enPassantCapture epq) Hcap]]; content_case.
  - (* white, king side *)
    unfold Square.e1, Square.g1, Square.h1, Square.f1 in *.
    destruct Hflags as (-> & -> & Hrook & Hvia & [[-> Hv]|Hcap]).
    + decide_conds. step_unset sa t1. step_set sa t2. step_unset sa t3.
      norm_next. destruct (Hkind t3 (GameState.next sa)) as (kind & ? & Hk & ->).
      step_set sa t4. finish_content.
      at_square i 4 Hstart;
        [|at_square i 6 Hv;
          [|at_square i 7 Hrook; [|at_square i 5 Hvia]]];
        content_case.
    + pose proof (stands_kind _ _ _ _ Hcap).
      decide_conds. step_unset sa t1. step_unset sa t2. step_set sa t3.
      step_unset sa t4.
      norm_next. destruct (Hkind t4 (GameState.next sa)) as (kind & ? & Hk & ->).
      step_set sa t5. finish_content.
      at_square i 4 Hstart;
        [|at_square i 6 Hcap;
          [|at_square i 7 Hrook; [|at_square i 5 Hvia]]];
        content_case.
  - (* white, queen side *)
    unfold Square.e1, Square.c1, Square.a1, Square.d1 in *.
    destruct Hflags as (-> & -> & Hrook & Hvia & [[-> Hv]|Hcap]).
    + decide_conds. step_unset sa t1. step_set sa t2. step_unset sa t3.
      norm_next. destruct (Hkind t3 (GameState.next sa)) as (kind & ? & Hk & ->).
      step_set sa t4. finish_content.
      at_square i 4 Hstart;
        [|at_square i 2 Hv;
          [|at_square i 0 Hrook; [|at_square i 3 Hvia]]];
        content_case.
    + pose proof (stands_kind _ _ _ _ Hcap).
      decide_conds. step_unset sa t1. step_unset sa t2. step_set sa t3.
      step_unset sa t4.
      norm_next. destruct (Hkind t4 (GameState.next sa)) as (kind & ? & Hk & ->).
      step_set sa t5. finish_content.
      at_square i 4 Hstart;
        [|at_square i 2 Hcap;
          [|at_square i 0 Hrook; [|at_square i 3 Hvia]]];
        content_case.
  - (* black, king side *)
    unfold Square.e8, Square.g8, Square.h8, Square.f8 in *.
    destruct Hflags as (-> & -> & Hrook & Hvia & [[-> Hv]|Hcap]).
    + decide_conds. step_unset sa t1. step_set sa t2. step_unset sa t3.
      norm_next. destruct (Hkind t3 (GameState.next sa)) as (kind & ? & Hk & ->).
      step_set sa t4. finish_content.
      at_square i 60 Hstart;
        [|at_square i 62 Hv;
          [|at_square i 63 Hrook; [|at_square i 61 Hvia]]];
        content_case.
    + pose proof (stands_kind _ _ _ _ Hcap).
      decide_conds. step_unset sa t1. step_unset sa t2. step_set sa t3.
      step_unset sa t4.
      norm_next. destruct (Hkind t4 (GameState.next sa)) as (kind & ? & Hk & ->).
      step_set sa t5. finish_content.
      at_square i 60 Hstart;
        [|at_square i 62 Hcap;
          [|at_square i 63 Hrook; [|at_square i 61 Hvia]]];
        content_case.
  - (* black, queen side *)
    unfold Square.e8, Square.c8, Square.a8, Square.d8 in *.
    destruct Hflags as (-> & -> & Hrook & Hvia & [[-> Hv]|Hcap]).
    + decide_conds. step_unset sa t1. step_set sa t2. step_unset sa t3.
      norm_next. destruct (Hkind t3 (GameState.next sa)) as (kind & ? & Hk & ->).
      step_set sa t4. finish_content.
      at_square i 60 Hstart;
        [|at_square i 58 Hv;
          [|at_square i 56 Hrook; [|at_square i 59 Hvia]]];
        content_case.
    + pose proof (stands_kind _ _ _ _ Hcap).
      decide_conds. step_unset sa t1. step_unset sa t2. step_set sa t3.
      step_unset sa t4.
      norm_next. destruct (Hkind t4 (GameState.next sa)) as (kind & ? & Hk & ->).
      step_set sa t5. finish_content.
      at_square i 60 Hstart;
        [|at_square i 58 Hcap;
          [|at_square i 56 Hrook; [|at_square i 59 Hvia]]];
        content_case.
  - (* promotion *)
    destruct Hflags as (-> & [[-> Hv]|Hcap]).
    + pose proof (stands_vacant_ne _ _ _ _ _ Hstart Hv).
      decide_conds. step_unset sa t1.
      norm_next. destruct (Hkind t1 (GameState.next sa)) as (kind & ? & Hk & ->).
      step_set sa t2. finish_content.
      at_square i s Hstart; [|at_square i e Hv]; content_case.
    + pose proof (stands_kind _ _ _ _ Hcap).
      pose proof (stands_stands_ne _ _ _ _ _ _ _ Hstart Hcap Hopp).
      decide_conds. step_unset sa t1. step_unset sa t2.
      norm_next. destruct (Hkind t2 (GameState.next sa)) as (kind & ? & Hk & ->).
      step_set sa t3. finish_content.
      at_square i s Hstart; [|at_square i e Hcap]; content_case.
Qed.

(** A board with one square. *)
Lemma popcount_one_iff (b : Z) :
  word64 b →
  popcountll b = 1 ↔
  ∃ q, 0 ≤ q < 64 ∧ ∀ i, 0 ≤ i < 64 → Z.testbit b i = bool_decide (i = q).
Proof.
  intros Hb. destruct (squares_spec b Hb) as (l & _ & Hmem & Hsorted).
  pose proof (sorted_lt_NoDup l Hsorted) as Hnd.
  pose proof (popcount_bits b l (proj1 Hb) Hnd Hmem) as Hlen.
  split.
  - intros Hone. rewrite Hone in Hlen.
    destruct l as [|q [|q' l]]; simpl in Hlen; try lia.
    exists q. assert (Z.testbit b q = true) as Hq by (apply Hmem; left).
    split; [by eapply word64_bit_range|].
    intros i Hi. case_bool_decide as Heq; [by subst|].
    destruct (Z.testbit b i) eqn:Hbit; [|done].
    apply Hmem, list_elem_of_singleton in Hbit. done.
  - intros (q & Hq & Hbits). rewrite <- Hlen.
    assert (l = [q]) as ->; [|done].
    apply sorted_singleton; [done|]. intros j. rewrite Hmem. split.
    + intros Hj. pose proof (word64_bit_range b j Hb Hj) as Hr.
      rewrite Hbits in Hj by done. by apply bool_decide_eq_true in Hj.
    + intros ->. rewrite Hbits by done. by apply bool_decide_eq_true.
Qed.

Lemma content_disjoint (st : GameState.t) (x : content) (c c' : Color.t)
    (k k' : Piece.t) (i : Z) :
  boards_disjoint st → (c, k) ≠ (c', k') →
  content_bit st x c k i && content_bit st x c' k' i = false.
Proof.
  intros Hd Hne. destruct x as [c0 k0| |]; simpl; [|done|].
  - destruct (bool_decide (c = c0 ∧ k = k0)) eqn:H1; [|done].
    apply bool_decide_eq_true in H1 as [-> ->]. simpl.
    apply bool_decide_eq_false. intros [-> ->]. done.
  - rewrite <- Z.land_spec, (Hd c k c' k' Hne). apply Z.bits_0.
Qed.

(** The squares of a pawn's pseudo-legal moves, bit by bit. *)
Lemma getMoves_pawn_bits (st : GameState.t) (color : Color.t)
    (square occupancy m : Z) :
  let offset := match color with
                | Color.white => Square.north
                | Color.black => Square.south
                end in
  let startRank := match color with Color.white => 1 | Color.black => 6 end in
  GameState.getMoves st Piece.pawn color square occupancy = Some m →
  0 ≤ square < 64 ∧ 0 ≤ square + offset < 64 ∧
  ∃ attacks,
    MoveTables.pawnAttacks color square = Some attacks ∧
    ∀ e, Z.testbit m e
         = (bool_decide (e = square + offset) && negb (Z.testbit occupancy e)
            || bool_decide (Square.rank square = startRank)
               && negb (Z.testbit occupancy (square + offset))
               && bool_decide (e = square + 2 * offset)
               && negb (Z.testbit occupancy e)
            || Z.testbit attacks e && Z.testbit occupancy e)
           && negb (Z.testbit (GameState.forColor st color) e)
           && bool_decide (0 ≤ e < 64).
Proof.
  intros offset startRank. unfold GameState.getMoves.
  assert (offset = match color with
                   | Color.white => Square.north
                   | Color.black => Square.south
                   end) as Hoff by done.
  rewrite <- Hoff.
  assert (bool_decide (Square.rank square = startRank)
          = match color with
            | Color.white => bool_decide (Square.rank square = 1)
            | Color.black => bool_decide (Square.rank square = 6)
            end) as Hcan by (by destruct color).
  rewrite <- Hcan.
  intros (one & [Hrange ->]%shl64_bit_inv & H)%bind_Some.
  apply bind_Some in H as (moves & Hmoves & H).
  apply bind_Some in H as (attacks & Hattacks & [= <-]).
  assert (0 ≤ square < 64) as Hsq.
  { unfold MoveTables.pawnAttacks, Square.inRange in Hattacks.
    by case_bool_decide. }
  split; [done|]. split; [done|]. exists attacks. split; [done|].
  assert (∀ e, Z.testbit (Z.land (Z.shiftl 1 (square + offset))
                            (lnot64 occupancy)) e
               = bool_decide (e = square + offset)
                 && negb (Z.testbit occupancy e)) as Hone.
  { intros e. rewrite Z.land_spec, testbit_lnot64, testbit_bit by lia.
    destruct (bool_decide (e = square + offset)) eqn:He; [|done].
    apply bool_decide_eq_true in He. subst e.
    by rewrite bool_decide_true, andb_true_r by done. }
  assert (BitBoards.is_empty (Z.land (Z.shiftl 1 (square + offset))
                                (lnot64 occupancy))
          = Z.testbit occupancy (square + offset)) as Hempty.
  { unfold BitBoards.is_empty.
    destruct (Z.testbit occupancy (square + offset)) eqn:Hocc.
    - apply bool_decide_eq_true. apply Z.bits_inj'. intros i _.
      rewrite Hone, Z.bits_0.
      destruct (bool_decide (i = square + offset)) eqn:Hi; [|done].
      apply bool_decide_eq_true in Hi. subst i. by rewrite Hocc.
    - apply bool_decide_eq_false. intros Hz.
      apply (f_equal (λ b, Z.testbit b (square + offset))) in Hz.
      by rewrite Hone, Hocc, bool_decide_true, Z.bits_0 in Hz. }
  intros e. rewrite Z.land_spec, testbit_lnot64, Z.lor_spec, Z.land_spec.
  rewrite andb_assoc. f_equal. f_equal. f_equal.
  revert Hmoves. rewrite Hempty.
  destruct (bool_decide (Square.rank square = startRank)); cbn [andb].
  - destruct (Z.testbit occupancy (square + offset)); cbn [negb andb].
    + intros [= <-]. by rewrite Hone, orb_false_r.
    + intros (two & [Hrange2 ->]%shl64_bit_inv & [= <-])%bind_Some.
      rewrite Z.lor_spec, Hone, Z.land_spec, testbit_lnot64, testbit_bit by lia.
      f_equal.
      destruct (bool_decide (e = square + 2 * offset)) eqn:He; [|done].
      apply bool_decide_eq_true in He. subst e.
      by rewrite bool_decide_true, andb_true_r by done.
  - intros [= <-]. by rewrite Hone, orb_false_r.
Qed.

(** A pawn attacks squares of the next rank, one file aside. *)
Lemma pawnAttacks_next_rank (color : Color.t) (square attacks e : Z) :
  MoveTables.pawnAttacks color square = Some attacks →
  Z.testbit attacks e = true →
  0 ≤ e < 64 ∧
  Square.rank e = Square.rank square
                  + match color with Color.white => 1 | Color.black => -1 end ∧
  (Square.file e = Square.file square - 1 ∨
   Square.file e = Square.file square + 1).
Proof.
  unfold MoveTables.pawnAttacks, Square.inRange.
  case_bool_decide as Hsq; [|done]. intros Heq.
  assert (attacks = match color with
                    | Color.white => MoveTables.leaper square [(-1, 1); (1, 1)]
                    | Color.black => MoveTables.leaper square [(-1, -1); (1, -1)]
                    end) as -> by congruence.
  clear Heq. unfold MoveTables.leaper.
  destruct color; cbn [foldr fst snd];
    rewrite !Z.lor_spec, Z.bits_0, orb_false_r, !orb_true_iff;
    unfold Square.rank, Square.file;
    (intros [H|H]; apply bit_at_test in H as (Hf & Hr & ->);
     unfold Square.index;
     (split; [lia|]); (split; [Z.div_mod_to_equations; lia|]));
    [left|right|left|right]; Z.div_mod_to_equations; lia.
Qed.

Lemma makeUndoInfo_flags (st : GameState.t) (m : Move) (info : UndoInfo.t) :
  GameState.makeUndoInfo st m = Some info →
  match UndoInfo.flags info with
  | MoveFlags.none => promotion m = Piece.empty
  | MoveFlags.enPassant => UndoInfo.piece info = Piece.pawn
  | MoveFlags.promotion => promotion m ≠ Piece.empty
  | _ => UndoInfo.piece info = Piece.king
  end.
Proof.
  unfold GameState.makeUndoInfo.
  intros (piece & _ & H)%bind_Some.
  apply bind_Some in H as (capture & _ & [= <-]).
  destruct (bool_decide (piece = Piece.pawn)) eqn:Hpawn;
    destruct (bool_decide (piece = Piece.king)) eqn:Hking;
    destruct (bool_decide (promotion m ≠ Piece.empty)) eqn:Hpromo;
    destruct (bool_decide (GameState.enPassantSquare st = end_ m));
    destruct (bool_decide (m = wkCastle)); destruct (bool_decide (m = wqCastle));
    destruct (bool_decide (m = bkCastle)); destruct (bool_decide (m = bqCastle));
    cbn [andb UndoInfo.flags UndoInfo.piece];
    try (by apply bool_decide_eq_true in Hpawn);
    try (by apply bool_decide_eq_true in Hking);
    try (by apply bool_decide_eq_true in Hpromo);
    apply bool_decide_eq_false in Hpromo; by apply dec_stable.
Qed.

(** The boards after a sound move, square by square. *)
Lemma sound_move_after (st : GameState.t) (m : Move) :
  data_model_invariants st → en_passant_consistent st → sound_move st m →
  ∃ info st',
    GameState.executeMove st m = Some st' ∧
    GameState.makeUndoInfo st m = Some info ∧
    faithful_info st info ∧
    boards_word64 st' ∧
    ∀ c k i, 0 ≤ i < 64 →
      Z.testbit (GameState.forPiece st' k c) i
      = content_bit st (after_move st info (promotion m) i) c k i.
Proof.
  intros Hinv Hep Hm.
  destruct (makeUndoInfo_faithful st m Hinv Hep Hm)
    as (info & Hinfo & Hfaithful & _).
  destruct (sound_move_round_trip st m Hinv Hep Hm) as (st' & Hexec & _).
  exists info, st'. split; [done|]. split; [done|]. split; [done|].
  destruct (executeMove_parts _ _ _ Hexec)
    as (info' & Hinfo' & _ & _ & _ & _ & _ & sb & Hsb & Hboards).
  assert (info' = info) as -> by congruence.
  match type of Hsb with
  | GameState.applyToBoards ?sa _ _ = _ =>
      destruct (applyToBoards_content sa info (promotion m))
        as (sb' & Hsb' & _ & Hw & Hbits)
  end.
  { intros c k. apply (inv_word64 st Hinv c k). }
  { by eapply faithful_info_boards; [| |exact Hfaithful]. }
  assert (sb' = sb) as -> by congruence.
  split.
  - intros c k. rewrite forPiece_get, Hboards, <- forPiece_get. apply Hw.
  - intros c k i Hi. rewrite forPiece_get, Hboards, <- forPiece_get.
    by rewrite Hbits.
Qed.

Lemma updateCastlingRights_kept (r s e : Z) :
  let r' := GameState.updateCastlingRights r s e in
  (∀ flag, CastlingRights.has r' flag = true → CastlingRights.has r flag = true) ∧
  (CastlingRights.has r' CastlingRights.whiteKingSide = true →
   s ≠ Square.e1 ∧ s ≠ Square.h1 ∧ e ≠ Square.h1) ∧
  (CastlingRights.has r' CastlingRights.whiteQueenSide = true →
   s ≠ Square.e1 ∧ s ≠ Square.a1 ∧ e ≠ Square.a1) ∧
  (CastlingRights.has r' CastlingRights.blackKingSide = true →
   s ≠ Square.e8 ∧ s ≠ Square.h8 ∧ e ≠ Square.h8) ∧
  (CastlingRights.has r' CastlingRights.blackQueenSide = true →
   s ≠ Square.e8 ∧ s ≠ Square.a8 ∧ e ≠ Square.a8) ∧
  (s ∉ [Square.e1; Square.a1; Square.h1; Square.e8; Square.a8; Square.h8] →
   e ∉ [Square.a1; Square.h1; Square.a8; Square.h8] → r' = r).
Proof.
  unfold GameState.updateCastlingRights.
  set (c1 := bool_decide (s = Square.e1) || bool_decide (s = Square.h1)
             || bool_decide (e = Square.h1)).
  set (c2 := bool_decide (s = Square.e1) || bool_decide (s = Square.a1)
             || bool_decide (e = Square.a1)).
  set (c3 := bool_decide (s = Square.e8) || bool_decide (s = Square.h8)
             || bool_decide (e = Square.h8)).
  set (c4 := bool_decide (s = Square.e8) || bool_decide (s = Square.a8)
             || bool_decide (e = Square.a8)).
  set (r1 := if c1 then CastlingRights.clear r CastlingRights.whiteKingSide
             else r).
  set (r2 := if c2 then CastlingRights.clear r1 CastlingRights.whiteQueenSide
             else r1).
  set (r3 := if c3 then CastlingRights.clear r2 CastlingRights.blackKingSide
             else r2).
  set (r4 := if c4 then CastlingRights.clear r3 CastlingRights.blackQueenSide
             else r3).
  assert (∀ (x y z : Z) (a b c : Z),
            bool_decide (x = a) || bool_decide (y = b) || bool_decide (z = c)
            = false → x ≠ a ∧ y ≠ b ∧ z ≠ c) as Hnone.
  { intros x y z a b c [[?%bool_decide_eq_false ?%bool_decide_eq_false]%orb_false_iff
                         ?%bool_decide_eq_false]%orb_false_iff. done. }
  cbv zeta. split_and!.
  - intros flag H4. by do 4 apply clearIf_subset in H4.
  - intros H4. do 3 apply clearIf_subset in H4. fold r1 in H4.
    apply Hnone. fold c1. unfold r1 in H4. destruct c1; [|done].
    by rewrite has_clear_same in H4.
  - intros H4. do 2 apply clearIf_subset in H4. fold r2 in H4.
    apply Hnone. fold c2. unfold r2 in H4. destruct c2; [|done].
    by rewrite has_clear_same in H4.
  - intros H4. apply clearIf_subset in H4. fold r3 in H4.
    apply Hnone. fold c3. unfold r3 in H4. destruct c3; [|done].
    by rewrite has_clear_same in H4.
  - intros H4. apply Hnone. fold c4. unfold r4 in H4. destruct c4; [|done].
    by rewrite has_clear_same in H4.
  - intros Hstart Hend.
    assert (c1 = false ∧ c2 = false ∧ c3 = false ∧ c4 = false)
      as (E1 & E2 & E3 & E4).
    { unfold c1, c2, c3, c4.
      split_and!; rewrite !orb_false_iff; split_and!;
        apply bool_decide_eq_false; intros Heq;
        first [ apply Hstart; rewrite Heq; apply list_elem_of_In; simpl; tauto
              | apply Hend; rewrite Heq; apply list_elem_of_In; simpl; tauto ]. }
    unfold r4, r3, r2, r1. by rewrite E1, E2, E3, E4.
Qed.

Lemma nextEnPassant_facts (st : GameState.t) (info : UndoInfo.t) (ep : Z) :
  GameState.nextEnPassant st info = Some ep →
  ep = Square.noSquare ∨
  UndoInfo.piece info = Piece.pawn ∧
  (Square.rank (UndoInfo.start info) = 1 ∧
   Square.rank (UndoInfo.end_ info) = 3 ∧
   ep = UndoInfo.start info + Square.north ∨
   Square.rank (UndoInfo.start info) = 6 ∧
   Square.rank (UndoInfo.end_ info) = 4 ∧
   ep = UndoInfo.start info + Square.south).
Proof.
  unfold GameState.nextEnPassant.
  destruct (bool_decide (UndoInfo.piece info = Piece.pawn)) eqn:Hpawn;
    cbn [andb]; [|intros [= <-]; by left].
  apply bool_decide_eq_true in Hpawn.
  destruct (bool_decide (Square.rank (UndoInfo.start info) = 1)) eqn:H1;
    cbn [andb].
  - apply bool_decide_eq_true in H1.
    rewrite (bool_decide_false (Square.rank (UndoInfo.start info) = 6)) by lia.
    cbn [andb].
    destruct (bool_decide (Square.rank (UndoInfo.end_ info) = 3)) eqn:H3.
    + apply bool_decide_eq_true in H3.
      intros (north & _ & H)%bind_Some. destruct north.
      * injection H as <-. right. split; [done|]. by left.
      * rewrite mbind_Some in H. injection H as <-. by left.
    + rewrite !mbind_Some. intros [= <-]. by left.
  - rewrite mbind_Some.
    destruct (bool_decide (Square.rank (UndoInfo.start info) = 6)) eqn:H6;
      cbn [andb]; [|intros [= <-]; by left].
    apply bool_decide_eq_true in H6.
    destruct (bool_decide (Square.rank (UndoInfo.end_ info) = 4)) eqn:H4.
    + apply bool_decide_eq_true in H4.
      intros (south & _ & H)%bind_Some. destruct south.
      * injection H as <-. right. split; [done|]. by right.
      * injection H as <-. by left.
    + rewrite mbind_Some. intros [= <-]. by left.
Qed.

(** What is known of a square decides the bits of every board there. *)
Lemma stands_bit (st : GameState.t) (sq : Z) (color c : Color.t)
    (kind k : Piece.t) :
  stands st sq color kind →
  Z.testbit (GameState.forPiece st k c) sq = bool_decide (c = color ∧ k = kind).
Proof. intros H. apply H. Qed.

Section KeepsInvariants.
Variable st : GameState.t.
Variable m : Move.
Hypothesis Hinv : data_model_invariants st.
Hypothesis Hep : en_passant_consistent st.
Hypothesis Hm : sound_move st m.
Hypothesis Hnoking :
  Z.testbit (GameState.forPiece st Piece.king (GameState.them st)) (end_ m)
  = false.
Hypothesis Hpromo : promotion m ≠ Piece.king.

Lemma king_after (info : UndoInfo.t) (color : Color.t) :
  GameState.makeUndoInfo st m = Some info →
  faithful_info st info →
  ∃ q, 0 ≤ q < 64 ∧
       ∀ i, 0 ≤ i < 64 →
            content_bit st (after_move st info (promotion m) i) color Piece.king i
            = bool_decide (i = q).
Proof.
  intros Hinfo (Hs & He & Hstart & Hflags).
  pose proof (makeUndoInfo_fields _ _ _ Hinfo) as (Es & Ee & _).
  pose proof (makeUndoInfo_flags _ _ _ Hinfo) as Hkindflag.
  destruct Hm as (_ & _ & Hown & kind & Hkind & Hpawn & _).
  pose proof (stands_of_bit _ _ _ _ (inv_disjoint st Hinv) Hkind) as Hstart'.
  assert (kind = UndoInfo.piece info) as ->.
  { rewrite <- Es in Hstart'. specialize (Hstart (GameState.us st) kind).
    rewrite Hstart' in Hstart. rewrite bool_decide_true in Hstart by done.
    symmetry in Hstart. by apply bool_decide_eq_true in Hstart as [_ ?]. }
  clear Hstart'.
  destruct (proj1 (popcount_one_iff _ (inv_word64 st Hinv color Piece.king))
              (inv_kings st Hinv color)) as (q & Hq & Hbits).
  rewrite <- Ee in Hown, Hnoking.
  assert (∀ k, Z.testbit (GameState.forPiece st k (GameState.us st))
                 (UndoInfo.end_ info) = false) as Hown_e
    by (intros k; by apply forColor_false).
  destruct info as [piece capture s e epq rights half flags].
  cbn [UndoInfo.piece UndoInfo.capture UndoInfo.start UndoInfo.end_
       UndoInfo.enPassant UndoInfo.flags] in *.
  pose proof (Hbits s Hs) as Hqs. rewrite (stands_bit _ _ _ _ _ _ Hstart) in Hqs.
  pose proof (Hbits e He) as Hqe.
  unfold GameState.us, GameState.them in *.
  assert (color = GameState.next st ∨ color = Color.opponent (GameState.next st))
    as Hcolor by (destruct color, (GameState.next st); auto).
  pose proof (opponent_ne (GameState.next st)) as Hopp.
  assert (e ≠ q) as Hneq.
  { intros ->. rewrite bool_decide_true in Hqe by done.
    destruct Hcolor as [->| ->]; [by rewrite Hown_e in Hqe|].
    by rewrite Hnoking in Hqe. }
  assert (s ≠ e) as Hse.
  { intros ->. pose proof (Hown_e piece) as Hbad.
    rewrite (stands_bit _ _ _ _ _ _ Hstart) in Hbad.
    by rewrite bool_decide_true in Hbad. }
  assert (color = GameState.next st ∧ piece = Piece.king ↔ s = q) as Hsq.
  { split.
    - intros [-> ->]. rewrite bool_decide_true in Hqs by done.
      symmetry in Hqs. by apply bool_decide_eq_true in Hqs.
    - intros ->. rewrite (bool_decide_true (q = q)) in Hqs by done.
      by apply bool_decide_eq_true in Hqs as [-> <-]. }
  assert (∀ sq c k, stands st sq c k → k ≠ Piece.king ∨ c ≠ color → sq ≠ q)
    as Hother.
  { intros sq c k Hst Hne ->. specialize (Hst color Piece.king).
    assert (0 ≤ q < 64) as Hr by done.
    rewrite (Hbits q Hr), (bool_decide_true (q = q)) in Hst by done.
    symmetry in Hst. apply bool_decide_eq_true in Hst as [-> <-].
    by destruct Hne. }
  assert (∀ sq, vacant st sq → 0 ≤ sq < 64 → sq ≠ q) as Hfree.
  { intros sq Hv Hr ->. specialize (Hv color Piece.king).
    by rewrite (Hbits q Hr), bool_decide_true in Hv. }
  exists (if bool_decide (color = GameState.next st ∧ piece = Piece.king)
          then e else q).
  split; [by destruct (bool_decide (color = _ ∧ piece = Piece.king))|].
  intros i Hi. unfold after_move, content_bit, arriving, rook_squares.
  cbn [UndoInfo.piece UndoInfo.capture UndoInfo.start UndoInfo.end_
       UndoInfo.enPassant UndoInfo.flags].
  set (a := if bool_decide (promotion m ≠ Piece.empty) then promotion m
            else piece).
  assert (a = Piece.king ↔ piece = Piece.king) as Ha.
  { unfold a. destruct (decide (promotion m ≠ Piece.empty)) as [Hp|Hp].
    - rewrite bool_decide_true by done. specialize (Hpawn Hp). subst piece.
      split; [by intros ?%Hpromo|by intros [=]].
    - by rewrite bool_decide_false. }
  clearbody a.
  destruct flags; unfold castle_squares, end_content in Hflags;
    cbn [UndoInfo.piece UndoInfo.capture UndoInfo.start UndoInfo.end_
         UndoInfo.enPassant UndoInfo.flags] in Hflags.
  all: try (destruct Hflags as (Hc1 & Hc2 & Hc3 & Hc4 & Hc5)).
  all: try (assert (Piece.pawn ≠ Piece.king ∨ GameState.them st ≠ color)
              as Hc6 by (by left);
            pose proof (Hother _ _ _ Hc5 Hc6) as Hc7).
  all: try (assert (Piece.rook ≠ Piece.king ∨ GameState.us st ≠ color)
              as Hc6 by (by left);
            pose proof (Hother _ _ _ Hc3 Hc6) as Hc7;
            pose proof (Hfree _ Hc4) as Hc8;
            match type of Hc8 with
            | ?P → _ => assert P as Hc9 by (by compute); specialize (Hc8 Hc9)
            end).
  all: destruct (decide (color = GameState.next st ∧ piece = Piece.king))
         as [Hk|Hk];
       [rewrite (bool_decide_true _ Hk)|rewrite (bool_decide_false _ Hk)].
  all: repeat match goal with
       | |- context [bool_decide (?j = ?x)] =>
           destruct (decide (j = x));
           [rewrite (bool_decide_true (j = x)) by done
           |rewrite (bool_decide_false (j = x)) by done]
       end.
  all: rewrite ?(Hbits i Hi).
  all: try (apply bool_decide_ext).
  all: try (symmetry; apply bool_decide_eq_false_2).
  all: try (apply bool_decide_eq_false_2).
  all: try (apply bool_decide_eq_true_2).
  all: try done.
  all: try (subst; tauto).
  all: try (intros [? ?]; apply Hk; split; [done|by apply Ha]).
  all: try (split; [done|by apply Ha]).
  all: try (subst; congruence).
  all: try (intuition congruence).
Qed.

(** A piece that is no pawn and stands off the squares of the move stays. *)
Lemma piece_stays (info : UndoInfo.t) (x : Z) (c : Color.t) (k : Piece.t) :
  faithful_info st info →
  Z.testbit (GameState.forPiece st k c) x = true →
  k ≠ Piece.pawn →
  x ≠ UndoInfo.start info → x ≠ UndoInfo.end_ info →
  (∀ f t, rook_squares (UndoInfo.flags info) = Some (f, t) → x ≠ f) →
  content_bit st (after_move st info (promotion m) x) c k x = true.
Proof.
  intros (Hs & He & Hstart & Hflags) Hb Hk Hxs Hxe Hrook.
  unfold after_move. rewrite !bool_decide_false by done.
  destruct (UndoInfo.flags info) eqn:Hf; cbn [rook_squares];
    unfold castle_squares in Hflags.
  - done.
  - destruct Hflags as (_ & _ & _ & _ & Hst).
    destruct (decide (x = GameState.enPassantCapture (UndoInfo.enPassant info)))
      as [->|Hne].
    + rewrite (Hst c k) in Hb. by apply bool_decide_eq_true in Hb as [_ ?].
    + by rewrite bool_decide_false.
  - destruct Hflags as (_ & _ & _ & Hvia & _).
    rewrite bool_decide_false by (by eapply Hrook).
    destruct (decide (x = Square.f1)) as [->|Hne];
      [by rewrite (Hvia c k) in Hb|by rewrite bool_decide_false].
  - destruct Hflags as (_ & _ & _ & Hvia & _).
    rewrite bool_decide_false by (by eapply Hrook).
    destruct (decide (x = Square.d1)) as [->|Hne];
      [by rewrite (Hvia c k) in Hb|by rewrite bool_decide_false].
  - destruct Hflags as (_ & _ & _ & Hvia & _).
    rewrite bool_decide_false by (by eapply Hrook).
    destruct (decide (x = Square.f8)) as [->|Hne];
      [by rewrite (Hvia c k) in Hb|by rewrite bool_decide_false].
  - destruct Hflags as (_ & _ & _ & Hvia & _).
    rewrite bool_decide_false by (by eapply Hrook).
    destruct (decide (x = Square.d8)) as [->|Hne];
      [by rewrite (Hvia c k) in Hb|by rewrite bool_decide_false].
  - done.
Qed.

(** King and rook of a castling right that the move leaves are still at
    home after it. *)
Lemma home_after (info : UndoInfo.t) (color : Color.t) (K R : Z) :
  GameState.makeUndoInfo st m = Some info →
  faithful_info st info →
  0 ≤ K < 64 → 0 ≤ R < 64 →
  Z.testbit (GameState.forPiece st Piece.king color) K = true →
  Z.testbit (GameState.forPiece st Piece.rook color) R = true →
  UndoInfo.start info ≠ K → UndoInfo.start info ≠ R →
  UndoInfo.end_ info ≠ R →
  (∀ f t, rook_squares (UndoInfo.flags info) = Some (f, t) →
          UndoInfo.start info ≠ K → K ≠ f ∧ R ≠ f) →
  content_bit st (after_move st info (promotion m) K) color Piece.king K = true ∧
  content_bit st (after_move st info (promotion m) R) color Piece.rook R = true.
Proof.
  intros Hinfo Hf HK HR Hking Hrook HsK HsR HeR Hsq.
  pose proof (makeUndoInfo_fields _ _ _ Hinfo) as (Es & Ee & _).
  assert (UndoInfo.end_ info ≠ K) as HeK.
  { intros Heq. destruct Hm as (_ & _ & Hown & _).
    rewrite <- Ee, Heq in Hown, Hnoking.
    assert (color = GameState.us st ∨ color = GameState.them st) as [->| ->]
      by (unfold GameState.us, GameState.them;
          destruct color, (GameState.next st); auto).
    - by rewrite (forColor_false _ _ Piece.king _ Hown) in Hking.
    - by rewrite Hnoking in Hking. }
  split; apply piece_stays; try done.
  - intros f t Hft. by destruct (Hsq f t Hft).
  - intros f t Hft. by destruct (Hsq f t Hft).
Qed.

Lemma sound_move_keeps_invariants :
  ∃ st', GameState.executeMove st m = Some st' ∧ data_model_invariants st'.
Proof.
  destruct (sound_move_after st m Hinv Hep Hm)
    as (info & st' & Hexec & Hinfo & Hfaith & Hw & Hbits).
  exists st'. split; [done|].
  destruct (executeMove_parts _ _ _ Hexec)
    as (info' & Hinfo' & Hnext & Hstack & Hrights & Hcount & Hepq & _).
  assert (info' = info) as -> by congruence.
  split.
  - done.
  - intros c k c' k' Hne. apply Z.bits_inj'. intros i Hi.
    rewrite Z.land_spec, Z.bits_0.
    destruct (decide (i < 64)) as [Hlt|Hge].
    + rewrite !Hbits by lia. by apply content_disjoint; [apply Hinv|].
    + by rewrite (word64_high _ _ (Hw c k)) by lia.
  - intros color. apply popcount_one_iff; [apply Hw|].
    destruct (king_after info color Hinfo Hfaith) as (q & Hq & Hq').
    exists q. split; [done|]. intros i Hi. by rewrite Hbits, Hq'.
  - unfold en_passant_rank. apply nextEnPassant_facts in Hepq
      as [->|(_ & [(Hr1 & _ & ->)|(Hr6 & _ & ->)])]; [by left| |].
    + right. destruct Hfaith as (Hs & _). revert Hr1 Hs.
      generalize (UndoInfo.start info). intros s.
      unfold Square.rank, Square.inRange, Square.north, Coord.width.
      intros Hr Hs.
      split; [apply bool_decide_eq_true; Z.div_mod_to_equations; lia|].
      left. Z.div_mod_to_equations. lia.
    + right. destruct Hfaith as (Hs & _). revert Hr6 Hs.
      generalize (UndoInfo.start info). intros s.
      unfold Square.rank, Square.inRange, Square.south, Coord.width.
      intros Hr Hs.
      split; [apply bool_decide_eq_true; Z.div_mod_to_equations; lia|].
      right. Z.div_mod_to_equations. lia.
  - pose proof (updateCastlingRights_kept (GameState.castlingRights st)
                  (UndoInfo.start info) (UndoInfo.end_ info)) as Hkept.
    cbv zeta in Hkept. rewrite <- Hrights in Hkept.
    destruct Hkept as (Hsub & Hwk & Hwq & Hbk & Hbq & _).
    destruct (inv_castling st Hinv) as (Iwk & Iwq & Ibk & Ibq).
    pose proof Hfaith as (_ & _ & _ & Hflags).
    assert (∀ kingSq toSq rookSq viaSq,
              castle_squares st info kingSq toSq rookSq viaSq →
              UndoInfo.start info = kingSq) as Hcs.
    { by intros ? ? ? ? (? & _). }
    unfold castling_rights_sound, home.
    split_and!; intros Hhas.
    + destruct (Iwk (Hsub _ Hhas)) as [Hk Hr].
      destruct (Hwk Hhas) as (? & ? & ?).
      rewrite !Hbits by done.
      apply (home_after info); try done.
      intros f t Hft Hne. destruct (UndoInfo.flags info); try done;
        injection Hft as <- <-; try (by compute);
        by apply Hcs in Hflags.
    + destruct (Iwq (Hsub _ Hhas)) as [Hk Hr].
      destruct (Hwq Hhas) as (? & ? & ?).
      rewrite !Hbits by done.
      apply (home_after info); try done.
      intros f t Hft Hne. destruct (UndoInfo.flags info); try done;
        injection Hft as <- <-; try (by compute);
        by apply Hcs in Hflags.
    + destruct (Ibk (Hsub _ Hhas)) as [Hk Hr].
      destruct (Hbk Hhas) as (? & ? & ?).
      rewrite !Hbits by done.
      apply (home_after info); try done.
      intros f t Hft Hne. destruct (UndoInfo.flags info); try done;
        injection Hft as <- <-; try (by compute);
        by apply Hcs in Hflags.
    + destruct (Ibq (Hsub _ Hhas)) as [Hk Hr].
      destruct (Hbq Hhas) as (? & ? & ?).
      rewrite !Hbits by done.
      apply (home_after info); try done.
      intros f t Hft Hne. destruct (UndoInfo.flags info); try done;
        injection Hft as <- <-; try (by compute);
        by apply Hcs in Hflags.
  - rewrite Hcount. destruct (_ && _); [|done].
    unfold wrap_counter. apply Z.mod_pos_bound. lia.
Qed.

End KeepsInvariants.

(** ** The moves of the generator, by kind *)

Section GeneratorShape.
Variable st : GameState.t.
Hypothesis Hw : boards_word64 st.

Lemma enterMoves_shape (P : Move → Prop) (g g' : MoveGenerator.t)
    (s ends : Z) (piece : Piece.t) :
  Forall P (MoveGenerator.moves g) →
  word64 ends →
  (∀ m, start m = s → Z.testbit ends (end_ m) = true →
        promotion_fits st piece m → P m) →
  MoveGenerator.enterMoves st g s piece ends = Some g' →
  Forall P (MoveGenerator.moves g').
Proof.
  intros Hg Hends HP. unfold MoveGenerator.enterMoves, MoveGenerator.myColor.
  intros (l & Hl & [= <-])%bind_Some. simpl.
  apply Forall_app. split; [done|].
  apply Forall_flat_map, Forall_forall. intros e He.
  destruct (squares_elem _ _ _ (word64_land_l _ _ Hends) Hl He) as [_ Hbit].
  rewrite Z.land_spec in Hbit. apply andb_true_iff in Hbit as [Hbit _].
  destruct (bool_decide (piece = Piece.pawn) && _) eqn:Hc.
  - repeat (apply Forall_cons; split;
            [apply HP; [done|done|];
             unfold promotion_fits; cbn [end_ promotion]; rewrite Hc;
             apply list_elem_of_In; simpl; tauto|]).
    by apply Forall_nil.
  - apply Forall_cons. split; [|by apply Forall_nil].
    apply HP; [done|done|].
    unfold promotion_fits, plainMove. cbn [end_ promotion]. by rewrite Hc.
Qed.

Lemma standardNonPinsFor_shape (piece : Piece.t) (g g' : MoveGenerator.t) :
  piece ∈ Piece.nonKing →
  Forall (generated st) (MoveGenerator.moves g) →
  MoveGenerator.standardNonPinsFor st piece g = Some g' →
  Forall (generated st) (MoveGenerator.moves g').
Proof.
  intros Hk Hg. unfold MoveGenerator.standardNonPinsFor, MoveGenerator.myColor.
  intros (starts & Hstarts & H)%bind_Some.
  apply bind_Some in H as (g1 & Hg1 & H).
  apply bind_Some in H as (pinned & Hpinned & H).
  assert (Forall (generated st) (MoveGenerator.moves g1)) as Hs1.
  { revert Hg1. apply (foldl_option_invariant _
      (λ g, Forall (generated st) (MoveGenerator.moves g))); [done|].
    intros a s a' Hs Ha (ends & Hends & Henter)%bind_Some.
    apply (squares_elem _ _ _
             (word64_land_l _ _ (Hw (GameState.next st) piece)) Hstarts) in Hs
      as [_ Hs].
    rewrite Z.land_spec in Hs. apply andb_true_iff in Hs as [Hs _].
    pose proof (getMoves_not_own _ _ _ _ _ _ Hends) as [Hwe _].
    eapply enterMoves_shape; [exact Ha|exact Hwe| |exact Henter].
    intros m Hm He Hp. apply (by_table st m piece ends); try done.
    all: by rewrite Hm. }
  revert H. apply (foldl_option_invariant _
      (λ g, Forall (generated st) (MoveGenerator.moves g))); [done|].
  intros a s a' Hs Ha (one & _ & Hstep)%bind_Some.
  destruct (negb _); [|by injection Hstep as <-].
  apply bind_Some in Hstep as (ends & Hends & Henter).
  apply (squares_elem _ _ _
           (word64_land_l _ _ (Hw (GameState.next st) piece)) Hpinned) in Hs
    as [_ Hs].
  rewrite Z.land_spec in Hs. apply andb_true_iff in Hs as [Hs _].
  pose proof (getMoves_not_own _ _ _ _ _ _ Hends) as [Hwe _].
  eapply enterMoves_shape; [exact Ha|by apply word64_land_l| |exact Henter].
  intros m Hm He Hp. rewrite Z.land_spec in He.
  apply andb_true_iff in He as [He _].
  apply (by_table st m piece ends); try done.
  all: by rewrite Hm.
Qed.

Lemma standardNonPins_shape (g g' : MoveGenerator.t) :
  Forall (generated st) (MoveGenerator.moves g) →
  MoveGenerator.standardNonPins st g = Some g' →
  Forall (generated st) (MoveGenerator.moves g').
Proof.
  intros Hg. unfold MoveGenerator.standardNonPins.
  apply (foldl_option_invariant _
      (λ g, Forall (generated st) (MoveGenerator.moves g))); [done|].
  intros a piece a' Hpiece Ha. by apply standardNonPinsFor_shape.
Qed.

Lemma castle_shape (flag empty sq1 sq2 : Z) (m : Move)
    (g g' : MoveGenerator.t) :
  (GameState.next st, flag, empty, sq1, sq2, m) ∈ castlings →
  Forall (generated st) (MoveGenerator.moves g) →
  MoveGenerator.castle st flag empty sq1 sq2 m g = Some g' →
  Forall (generated st) (MoveGenerator.moves g').
Proof.
  intros Hin Hg. unfold MoveGenerator.castle, MoveGenerator.myColor.
  destruct (CastlingRights.has _ _) eqn:Hhas; [|by intros [= <-]].
  unfold BitBoards.is_empty.
  destruct (decide (Z.land (GameState.occupancy st) empty = 0)) as [Hfree|Hn];
    [rewrite (bool_decide_true _ Hfree)|
     rewrite (bool_decide_false _ Hn); by intros [= <-]].
  intros (a1 & Ha1 & H)%bind_Some.
  destruct (decide (a1 = 0)) as [->|Hn];
    [rewrite bool_decide_true in H by done|
     rewrite (bool_decide_false _ Hn) in H; by injection H as <-].
  apply bind_Some in H as (a2 & Ha2 & H).
  destruct (decide (a2 = 0)) as [->|Hn];
    [rewrite bool_decide_true in H by done|
     rewrite (bool_decide_false _ Hn) in H; by injection H as <-].
  injection H as <-. simpl. apply Forall_app. split; [done|].
  apply Forall_cons. split; [|by apply Forall_nil].
  by apply (by_castling st m flag empty sq1 sq2).
Qed.

Lemma generateCastling_shape (g g' : MoveGenerator.t) :
  Forall (generated st) (MoveGenerator.moves g) →
  MoveGenerator.generateCastling st g = Some g' →
  Forall (generated st) (MoveGenerator.moves g').
Proof.
  intros Hg. unfold MoveGenerator.generateCastling, MoveGenerator.myColor.
  destruct (GameState.next st) eqn:Hnext; intros (g1 & Hg1 & Hg2)%bind_Some.
  - eapply castle_shape; [|eapply castle_shape; [|exact Hg|exact Hg1]|exact Hg2];
      rewrite Hnext; apply list_elem_of_In; simpl; tauto.
  - eapply castle_shape; [|eapply castle_shape; [|exact Hg|exact Hg1]|exact Hg2];
      rewrite Hnext; apply list_elem_of_In; simpl; tauto.
Qed.

Lemma enPassantCaptures_shape (kingSquare : Z) (g g' : MoveGenerator.t) :
  Square.inRange (GameState.enPassantSquare st) = true →
  Forall (generated st) (MoveGenerator.moves g) →
  MoveGenerator.enPassantCaptures st kingSquare g = Some g' →
  Forall (generated st) (MoveGenerator.moves g').
Proof.
  intros Hr Hg.
  unfold MoveGenerator.enPassantCaptures, MoveGenerator.myColor,
    MoveGenerator.opponentColor.
  intros (m0 & Hm0 & H)%bind_Some.
  apply bind_Some in H as (isTarget & _ & H).
  apply bind_Some in H as (g1 & Hg1 & H).
  assert (Forall (generated st) (MoveGenerator.moves g1)) as Hs1.
  { destruct isTarget; [|by injection Hg1 as <-].
    by apply bind_Some in Hg1 as (tg & _ & [= <-]). }
  clear Hg1 Hg.
  set (electable := Z.land m0 (GameState.forPiece st Piece.pawn
                                 (GameState.next st))) in *.
  assert (word64 electable) as Hwe by apply word64_land_r, Hw.
  assert (∀ one m s,
            BitBoards.single (GameState.enPassantSquare st) = Some one →
            Z.testbit electable s = true →
            start m = s → Z.testbit one (end_ m) = true →
            promotion_fits st Piece.pawn m → generated st m) as Hmove.
  { intros one m s [Hrange ->]%shl64_bit_inv Hs Hm He Hp.
    rewrite testbit_bit in He by lia. apply bool_decide_eq_true in He.
    unfold electable in Hs. rewrite Z.land_spec in Hs.
    apply andb_true_iff in Hs as [Hs1' Hs2]. subst s.
    by apply (by_en_passant st m m0). }
  assert (∀ one, BitBoards.single (GameState.enPassantSquare st) = Some one →
                 word64 one) as Hone.
  { intros one [Hrange ->]%shl64_bit_inv.
    rewrite <- wrap64_bit by done. apply wrap64_word. }
  destruct (_ && _).
  - apply bind_Some in H as (attacker & Hattacker & H).
    apply bind_Some in H as (occ & _ & H).
    apply bind_Some in H as (rays & _ & H).
    apply bind_Some in H as (one & Hone' & H).
    apply findFirstSet_elem in Hattacker as [_ Hattacker]; [|done].
    eapply enterMoves_shape; [exact Hs1| | |exact H].
    + apply word64_land_l. by apply Hone.
    + intros m Hm He Hp. rewrite Z.land_spec in He.
      apply andb_true_iff in He as [He _].
      by apply (Hmove one m attacker).
  - apply bind_Some in H as (starts & Hstarts & H). revert H.
    apply (foldl_option_invariant _
      (λ g, Forall (generated st) (MoveGenerator.moves g))); [done|].
    intros a s a' Hs Ha (pinned & _ & Hstep)%bind_Some.
    apply bind_Some in Hstep as (one & Hone' & Hstep).
    apply (squares_elem _ _ _ Hwe Hstarts) in Hs as [_ Hs].
    destruct pinned.
    + eapply enterMoves_shape; [exact Ha| | |exact Hstep].
      * apply word64_land_l. by apply Hone.
      * intros m Hm He Hp. rewrite Z.land_spec in He.
        apply andb_true_iff in He as [He _].
        by apply (Hmove one m s).
    + eapply enterMoves_shape; [exact Ha|by apply Hone| |exact Hstep].
      intros m Hm He Hp. by apply (Hmove one m s).
Qed.

Lemma generatePlainKingMoves_shape (kingSquare : Z) (g g' : MoveGenerator.t) :
  Z.testbit (GameState.forPiece st Piece.king (GameState.next st)) kingSquare
  = true →
  Forall (generated st) (MoveGenerator.moves g) →
  MoveGenerator.generatePlainKingMoves st kingSquare g = Some g' →
  Forall (generated st) (MoveGenerator.moves g').
Proof.
  intros Hking Hg.
  unfold MoveGenerator.generatePlainKingMoves, MoveGenerator.myColor.
  intros (withoutKing & Hwithout & H)%bind_Some.
  apply bind_Some in H as (ends & Hends & H).
  apply bind_Some in H as (l & Hl & H). revert H.
  apply (foldl_option_invariant _
    (λ g, Forall (generated st) (MoveGenerator.moves g))); [done|].
  intros a e a' He Ha (attacks & Hattacks & Hstep)%bind_Some.
  unfold BitBoards.is_empty in Hstep.
  destruct (decide (attacks = 0)) as [->|Hn];
    [rewrite bool_decide_true in Hstep by done|
     rewrite (bool_decide_false _ Hn) in Hstep; by injection Hstep as <-].
  injection Hstep as <-. simpl. apply Forall_app. split; [done|].
  apply Forall_cons. split; [|by apply Forall_nil].
  pose proof (getMoves_not_own _ _ _ _ _ _ Hends) as [Hwe _].
  apply (squares_elem _ _ _ Hwe Hl) in He as [He Hbit].
  by apply (by_king_step st _ ends withoutKing).
Qed.

Lemma run_shape (kingSquare : Z) (g : MoveGenerator.t) :
  Z.testbit (GameState.forPiece st Piece.king (GameState.next st)) kingSquare
  = true →
  MoveGenerator.run st kingSquare = Some g →
  Forall (generated st) (MoveGenerator.moves g).
Proof.
  intros Hking. unfold MoveGenerator.run.
  intros (g1 & Hg1%handleLeaperAttacks_moves & H)%bind_Some.
  apply bind_Some in H as (g2 & Hg2%handleLeaperAttacks_moves & H).
  apply bind_Some in H as (g3 & Hg3%handleSliderAttacks_moves & H).
  apply bind_Some in H as (g4 & Hg4 & H).
  assert (Forall (generated st) (MoveGenerator.moves g3)) as Hs3.
  { rewrite Hg3, Hg2, Hg1. by apply Forall_nil. }
  eapply generatePlainKingMoves_shape; [exact Hking| |exact H].
  destruct (bool_decide (MoveGenerator.attacksOnKing g3 ≤ 1));
    [|by injection Hg4 as <-].
  apply bind_Some in Hg4 as (g5 & Hg5%standardNonPins_shape & Hg4); [|done].
  apply bind_Some in Hg4 as (g6 & Hg6 & Hg4).
  assert (Forall (generated st) (MoveGenerator.moves g6)) as Hs6.
  { destruct (bool_decide (MoveGenerator.attacksOnKing g5 = 0));
      [eapply generateCastling_shape; [exact Hg5|exact Hg6]|
       by injection Hg6 as <-]. }
  destruct (Square.inRange _) eqn:Hr; [|by injection Hg4 as <-].
  eapply enPassantCaptures_shape; [exact Hr|exact Hs6|exact Hg4].
Qed.

Lemma generateLegalMoves_shape (l : list Move) :
  generateLegalMoves st = Some l → Forall (generated st) l.
Proof.
  unfold generateLegalMoves, MoveGenerator.make.
  intros (g & Hg & [= <-])%bind_Some.
  apply bind_Some in Hg as (kingSquare & Hking & Hrun).
  apply findFirstSet_elem in Hking as [_ Hking]; [|apply Hw].
  by eapply run_shape.
Qed.

End GeneratorShape.

Lemma occupancy_of_vacant (st : GameState.t) (sq : Z) :
  vacant st sq → Z.testbit (GameState.occupancy st) sq = false.
Proof.
  intros Hv. rewrite occupancy_spec. apply orb_false_iff.
  split.
  - destruct (Z.testbit (GameState.forColor st Color.white) sq) eqn:H; [|done].
    apply forColor_spec in H as [kind H]. by rewrite (Hv Color.white kind) in H.
  - destruct (Z.testbit (GameState.forColor st Color.black) sq) eqn:H; [|done].
    apply forColor_spec in H as [kind H]. by rewrite (Hv Color.black kind) in H.
Qed.

(** A generated pawn move from the second to the fourth rank of either
    side is a double step over a free square, and no promotion. *)
Lemma pawn_double_step (st : GameState.t) (m : Move) (off : Z) :
  data_model_invariants st → generated st m →
  Z.testbit (GameState.forPiece st Piece.pawn (GameState.next st)) (start m)
  = true →
  Square.rank (start m) = 1 ∧ Square.rank (end_ m) = 3 ∧ off = Square.north ∨
  Square.rank (start m) = 6 ∧ Square.rank (end_ m) = 4 ∧ off = Square.south →
  promotion m = Piece.empty ∧ end_ m = start m + 2 * off ∧
  Z.testbit (GameState.occupancy st) (start m + off) = false.
Proof.
  intros Hinv Hgen Hpawn Hranks.
  pose proof (stands_of_bit _ _ _ _ (inv_disjoint st Hinv) Hpawn) as Hst.
  destruct Hgen as [piece ends Hpiece Hbit Hends He Hp
                   |from Hr Hend _ _ _ _
                   |ends withoutKing Hking _ _ _ _ _
                   |flag empty sq1 sq2 Hin _ _ _ _].
  - rewrite (Hst _ piece) in Hbit.
    apply bool_decide_eq_true in Hbit as [_ ->].
    unfold GameState.getMoves' in Hends.
    apply getMoves_pawn_bits in Hends as (Hs & Hso & attacks & Hatt & Hbits).
    rewrite Hbits in He. clear Hbits.
    apply andb_true_iff in He as [He Hin].
    apply andb_true_iff in He as [He _].
    apply bool_decide_eq_true in Hin.
    assert (promotion m = Piece.empty) as Hpromo.
    { unfold promotion_fits in Hp.
      rewrite !(bool_decide_false (Square.rank (end_ m) = _)) in Hp
        by (intros ?; lia).
      by rewrite !andb_false_r in Hp. }
    split; [done|].
    rewrite !orb_true_iff, !andb_true_iff, !negb_true_iff,
      !bool_decide_eq_true in He.
    destruct He as [[[He _]|[[[Hr Hfree] He] _]]|[He _]].
    + exfalso. revert He Hranks Hs Hso.
      generalize (start m) (end_ m). intros s e -> Hranks.
      unfold Square.rank, Square.north, Square.south in *.
      destruct (GameState.next st); intros; Z.div_mod_to_equations; lia.
    + revert Hr Hfree He Hranks. generalize (start m) (end_ m). intros s e.
      unfold Square.north, Square.south.
      destruct (GameState.next st); intros Hr Hfree -> Hranks.
      * assert (off = 8) as -> by lia. done.
      * assert (off = -8) as -> by lia. done.
    + exfalso. apply (pawnAttacks_next_rank _ _ _ _ Hatt) in He
        as (_ & Hrank & _).
      destruct (GameState.next st); lia.
  - exfalso. destruct (inv_en_passant st Hinv) as [Hno|[_ Hrank]].
    + rewrite Hno in Hr. by compute in Hr.
    + rewrite <- Hend in Hrank. lia.
  - exfalso. rewrite (Hst _ Piece.king) in Hking.
    by apply bool_decide_eq_true in Hking as [_ ?].
  - exfalso. unfold castlings in Hin.
    repeat (apply elem_of_cons in Hin as [Hin|Hin];
            [injection Hin as _ _ _ _ _ ->; compute in Hranks; lia|]).
    by apply elem_of_nil in Hin.
Qed.

(** No generated move names a king or a pawn to promote to. *)
Lemma generated_promotion (st : GameState.t) (m : Move) :
  generated st m →
  promotion m ∈ [Piece.empty; Piece.knight; Piece.bishop; Piece.rook;
                 Piece.queen].
Proof.
  assert (∀ piece, promotion_fits st piece m →
            promotion m ∈ [Piece.empty; Piece.knight; Piece.bishop;
                           Piece.rook; Piece.queen]) as Hfits.
  { intros piece. unfold promotion_fits.
    destruct (_ && _); [by apply (list_elem_of_further)|].
    intros ->. apply list_elem_of_here. }
  intros [piece ends _ _ _ _ Hp|from _ _ _ _ _ Hp
         |ends withoutKing _ _ _ _ _ Hp|flag empty sq1 sq2 Hin _ _ _ _].
  - by eapply Hfits.
  - by eapply Hfits.
  - rewrite Hp. apply list_elem_of_here.
  - unfold castlings in Hin.
    repeat (apply elem_of_cons in Hin as [Hin|Hin];
            [injection Hin as _ _ _ _ _ ->; apply list_elem_of_here|]).
    by apply elem_of_nil in Hin.
Qed.

(** What a generated move that takes no king leaves: the invariants, and
    an en-passant square that is free and has the pawn that made the
    double step behind it. *)
Lemma generated_move_closure (st : GameState.t) (m : Move) :
  data_model_invariants st → en_passant_consistent st →
  sound_move st m → generated st m →
  Z.testbit (GameState.forPiece st Piece.king (GameState.them st)) (end_ m)
  = false →
  ∃ st', GameState.executeMove st m = Some st' ∧
         data_model_invariants st' ∧ en_passant_consistent st'.
Proof.
  intros Hinv Hep Hm Hgen Hnoking.
  assert (promotion m ≠ Piece.king) as Hpromo.
  { intros Heq. pose proof (generated_promotion st m Hgen) as Hin.
    rewrite Heq in Hin.
    repeat (apply elem_of_cons in Hin as [Hin|Hin]; [done|]).
    by apply elem_of_nil in Hin. }
  destruct (sound_move_keeps_invariants st m Hinv Hep Hm Hnoking Hpromo)
    as (st' & Hexec & Hinv').
  exists st'. split; [done|]. split; [done|].
  destruct (sound_move_after st m Hinv Hep Hm)
    as (info & st'' & Hexec' & Hinfo & Hfaith & Hw & Hbits).
  assert (st'' = st') as -> by congruence. clear Hexec'.
  destruct (executeMove_parts _ _ _ Hexec)
    as (info' & Hinfo' & Hnext & _ & _ & _ & Hepq & _).
  assert (info' = info) as -> by congruence.
  pose proof (makeUndoInfo_fields _ _ _ Hinfo) as (Es & Ee & _).
  pose proof (makeUndoInfo_flags _ _ _ Hinfo) as Hkindflag.
  pose proof Hfaith as (Hs & He & Hstart & Hflags).
  intros Hrange.
  apply nextEnPassant_facts in Hepq as [Hno|(Hpiece & Hstep)].
  { rewrite Hno in Hrange. by compute in Hrange. }
  rewrite Hpiece in Hstart. rewrite Es, Ee in *.
  set (off := if bool_decide (Square.rank (start m) = 1)
              then Square.north else Square.south).
  assert (GameState.enPassantSquare st' = start m + off ∧
          (Square.rank (start m) = 1 ∧ Square.rank (end_ m) = 3 ∧
           off = Square.north ∨
           Square.rank (start m) = 6 ∧ Square.rank (end_ m) = 4 ∧
           off = Square.south)) as [Hep' Hranks].
  { unfold off. destruct Hstep as [(H1 & H3 & ->)|(H6 & H4 & ->)].
    - rewrite bool_decide_true by done. auto.
    - rewrite bool_decide_false by lia. auto 10. }
  clearbody off.
  destruct (pawn_double_step st m off Hinv Hgen) as (Hempty & Hend & Hfree);
    [by rewrite (stands_bit _ _ _ _ _ _ Hstart), bool_decide_true|done|].
  apply vacant_of_occupancy in Hfree.
  assert (GameState.enPassantCapture (GameState.enPassantSquare st') = end_ m)
    as Hcap.
  { rewrite Hep', Hend. unfold GameState.enPassantCapture.
    revert Hranks Hs. generalize (start m). intros s Hranks Hs.
    unfold Square.rank, Square.north, Square.south in *.
    destruct Hranks as [(H1 & _ & ->)|(H6 & _ & ->)].
    - rewrite bool_decide_true by (Z.div_mod_to_equations; lia). lia.
    - rewrite bool_decide_false by (Z.div_mod_to_equations; lia). lia. }
  rewrite Hcap. unfold GameState.them. rewrite Hnext, opponent_opponent.
  split.
  - apply occupancy_of_vacant. intros c k.
    assert (0 ≤ start m + off < 64) as Hin.
    { rewrite <- Hep'. unfold Square.inRange in Hrange.
      by apply bool_decide_eq_true in Hrange. }
    rewrite Hep', (Hbits c k _ Hin). unfold after_move.
    rewrite Es, Ee.
    assert (start m + off ≠ end_ m ∧ start m + off ≠ start m) as [Hne1 Hne2].
    { destruct Hranks as [(_ & _ & ->)|(_ & _ & ->)];
        unfold Square.north, Square.south in *; lia. }
    rewrite !bool_decide_false by done.
    destruct (UndoInfo.flags info); cbn [rook_squares content_bit];
      try (by rewrite Hpiece in Hkindflag); try apply Hfree.
    by destruct (bool_decide _); [|apply Hfree].
  - rewrite (Hbits _ _ _ He). unfold after_move, arriving.
    rewrite Ee, bool_decide_true by done.
    rewrite (bool_decide_false (promotion m ≠ Piece.empty))
      by (by intros ?).
    cbn [content_bit]. by rewrite Hpiece, bool_decide_true.
Qed.

(** ** What the generated moves are, and what they keep *)

(** The boards of a concrete position are 64-bit words, by evaluation. *)
Ltac check_word64 :=
  intros [] []; vm_compute; (split; [discriminate|reflexivity]).

(** X14: every move of [generateLegalMoves] is of one of four kinds.  It
    is a move [getMoves] gives for a pawn, knight, bishop, rook or queen of
    the side to move on its start square; or a pawn's move onto the
    en-passant square, from a square a pawn of the other side would reach
    from there; or a step of the king onto a square that [getAttacks]
    finds unattacked once the king is taken off the board; or a castling
    whose right is held, with free squares between king and rook and the
    two squares the king crosses unattacked.  Promotion pieces are the four
    of a pawn that reaches its last rank, and none otherwise. *)
Theorem generated_moves_by_kind (st : GameState.t) (l : list Move) (m : Move) :
  boards_word64 st → generateLegalMoves st = Some l → m ∈ l →
  generated st m.
Proof.
  intros Hw Hl Hm.
  pose proof (generateLegalMoves_shape st Hw l Hl) as Hall.
  rewrite Forall_forall in Hall. by apply Hall.
Qed.

Lemma generated_moves_by_kind_witness :
  generated Examples.en_passant_position (plainMove Examples.d5 43).
Proof.
  eapply (generated_moves_by_kind Examples.en_passant_position _
            (plainMove Examples.d5 43)).
  - check_word64.
  - vm_compute. reflexivity.
  - apply list_elem_of_here.
Defined.

Lemma promotion_fits_iff (st : GameState.t) (piece : Piece.t) (m : Move) :
  promotion_fits st piece m →
  (promotion m ≠ Piece.empty ↔
   piece = Piece.pawn ∧
   Square.rank (end_ m) = match GameState.next st with
                          | Color.white => 7
                          | Color.black => 0
                          end).
Proof.
  unfold promotion_fits.
  destruct (decide (piece = Piece.pawn)) as [->|Hp];
    [rewrite bool_decide_true by done
    |rewrite (bool_decide_false _ Hp); cbn [andb]; intros ->; tauto].
  cbn [andb].
  destruct (GameState.next st);
    rewrite ?(bool_decide_true (_ = _ :> Color.t)) by done;
    rewrite ?(bool_decide_false (_ = _ :> Color.t)) by done;
    cbn [andb orb]; rewrite ?orb_false_r.
  - destruct (decide (Square.rank (end_ m) = 7)) as [Hr|Hr];
      [rewrite (bool_decide_true _ Hr)|rewrite (bool_decide_false _ Hr)].
    + intros Hin. split; [done|]. intros _ Heq. rewrite Heq in Hin.
      repeat (apply elem_of_cons in Hin as [Hin|Hin]; [done|]).
      by apply elem_of_nil in Hin.
    + intros ->. tauto.
  - destruct (decide (Square.rank (end_ m) = 0)) as [Hr|Hr];
      [rewrite (bool_decide_true _ Hr)|rewrite (bool_decide_false _ Hr)].
    + intros Hin. split; [done|]. intros _ Heq. rewrite Heq in Hin.
      repeat (apply elem_of_cons in Hin as [Hin|Hin]; [done|]).
      by apply elem_of_nil in Hin.
    + intros ->. tauto.
Qed.

(** X15: a move of [generateLegalMoves] names a knight, bishop, rook or
    queen to promote to exactly when it moves a pawn of the side to move
    to that side's last rank; every other generated move names no piece. *)
Theorem promotion_on_the_last_rank (st : GameState.t) (l : list Move)
    (m : Move) :
  data_model_invariants st → generateLegalMoves st = Some l → m ∈ l →
  promotion m ∈ [Piece.empty; Piece.knight; Piece.bishop; Piece.rook;
                 Piece.queen] ∧
  (promotion m ≠ Piece.empty ↔
   Z.testbit (GameState.forPiece st Piece.pawn (GameState.next st)) (start m)
   = true ∧
   Square.rank (end_ m) = match GameState.next st with
                          | Color.white => 7
                          | Color.black => 0
                          end).
Proof.
  intros Hinv Hl Hm.
  pose proof (generateLegalMoves_shape st (inv_word64 st Hinv) l Hl) as Hall.
  rewrite Forall_forall in Hall. specialize (Hall m Hm).
  split; [by apply (generated_promotion st)|].
  assert (∀ piece,
            Z.testbit (GameState.forPiece st piece (GameState.next st))
              (start m) = true →
            piece = Piece.pawn ↔
            Z.testbit (GameState.forPiece st Piece.pawn (GameState.next st))
              (start m) = true) as Hpawn.
  { intros piece Hbit. split; [by intros <-|]. intros Hb.
    pose proof (stands_of_bit _ _ _ _ (inv_disjoint st Hinv) Hb) as Hst.
    rewrite (Hst _ piece) in Hbit.
    by apply bool_decide_eq_true in Hbit as [_ ?]. }
  destruct Hall as [piece ends _ Hbit _ _ Hp|from _ _ Hbit _ _ Hp
                   |ends withoutKing Hking _ _ _ _ Hp
                   |flag empty sq1 sq2 Hin Hhas _ _ _].
  - rewrite (promotion_fits_iff _ _ _ Hp), (Hpawn piece Hbit). tauto.
  - rewrite (promotion_fits_iff _ _ _ Hp). tauto.
  - split; [done|]. intros [Hb _].
    apply (Hpawn Piece.king Hking) in Hb. done.
  - assert (promotion m = Piece.empty ∧
            Z.testbit (GameState.forPiece st Piece.king (GameState.next st))
              (start m) = true) as [Hp Hking].
    { destruct (inv_castling st Hinv) as (Hwk & Hwq & Hbk & Hbq).
      unfold castlings in Hin.
      repeat (apply elem_of_cons in Hin as [Hin|Hin];
              [injection Hin as Hnext -> _ _ _ ->; rewrite Hnext;
               split; [done|];
               first [apply (Hwk Hhas)|apply (Hwq Hhas)
                     |apply (Hbk Hhas)|apply (Hbq Hhas)]|]).
      by apply elem_of_nil in Hin. }
    split; [done|]. intros [Hb _].
    apply (Hpawn Piece.king Hking) in Hb. done.
Qed.

Lemma promotion_on_the_last_rank_witness :
  promotion (plainMove Examples.d5 43)
  ∈ [Piece.empty; Piece.knight; Piece.bishop; Piece.rook; Piece.queen] ∧
  (promotion (plainMove Examples.d5 43) ≠ Piece.empty ↔
   Z.testbit (GameState.forPiece Examples.en_passant_position Piece.pawn
                (GameState.next Examples.en_passant_position))
     (start (plainMove Examples.d5 43)) = true ∧
   Square.rank (end_ (plainMove Examples.d5 43))
   = match GameState.next Examples.en_passant_position with
     | Color.white => 7
     | Color.black => 0
     end).
Proof.
  eapply (promotion_on_the_last_rank Examples.en_passant_position _
            (plainMove Examples.d5 43)).
  - apply en_passant_position_invariants.
  - vm_compute. reflexivity.
  - apply list_elem_of_here.
Defined.

(** X17: [executeMove] keeps the invariants of the data model for any move,
    generated or not, that starts on a piece of the side to move, ends on
    the board off that side's pieces and off the other king, names a
    promotion piece other than the king only for a pawn, and is one of the
    four castling moves of a king only with the rook at home and the
    rook's destination free. *)
Theorem executeMove_keeps_invariants (st : GameState.t) (m : Move) :
  data_model_invariants st → en_passant_consistent st → sound_move st m →
  Z.testbit (GameState.forPiece st Piece.king (GameState.them st)) (end_ m)
  = false →
  promotion m ≠ Piece.king →
  ∃ st', GameState.executeMove st m = Some st' ∧ data_model_invariants st'.
Proof. apply sound_move_keeps_invariants. Qed.

Lemma executeMove_keeps_invariants_witness :
  ∃ st', GameState.executeMove Examples.en_passant_position
           (plainMove Examples.d5 Examples.e6) = Some st' ∧
         data_model_invariants st'.
Proof.
  apply (executeMove_keeps_invariants Examples.en_passant_position
           (plainMove Examples.d5 Examples.e6)).
  - apply en_passant_position_invariants.
  - intros _. split; vm_compute; reflexivity.
  - split; [by compute|]. split; [by compute|].
    split; [vm_compute; reflexivity|]. exists Piece.pawn.
    split; [vm_compute; reflexivity|]. split; [done|]. intros [=].
  - vm_compute. reflexivity.
  - intros [=].
Defined.

(** X18: the moves of [generateLegalMoves] start on a piece of the side to
    move and end on another square of the board that holds no piece of
    that side. *)
Theorem generated_moves_spare_own_pieces (st : GameState.t) (l : list Move)
    (m : Move) :
  data_model_invariants st → en_passant_consistent st →
  generateLegalMoves st = Some l → m ∈ l →
  0 ≤ start m < 64 ∧ 0 ≤ end_ m < 64 ∧ start m ≠ end_ m ∧
  Z.testbit (GameState.forColor st (GameState.us st)) (start m) = true ∧
  Z.testbit (GameState.forColor st (GameState.us st)) (end_ m) = false.
Proof.
  intros Hinv Hep Hl Hm.
  pose proof (generateLegalMoves_sound st Hinv Hep l Hl) as Hsound.
  rewrite Forall_forall in Hsound.
  destruct (Hsound m Hm) as (Hs & He & Hown & kind & Hkind & _).
  assert (Z.testbit (GameState.forColor st (GameState.us st)) (start m) = true)
    as Hstart by (apply forColor_spec; eauto).
  split; [done|]. split; [done|]. split; [|done].
  intros Heq. rewrite Heq in Hstart. congruence.
Qed.

Lemma generated_moves_spare_own_pieces_witness :
  0 ≤ start (plainMove Examples.d5 43) < 64 ∧
  0 ≤ end_ (plainMove Examples.d5 43) < 64 ∧
  start (plainMove Examples.d5 43) ≠ end_ (plainMove Examples.d5 43) ∧
  Z.testbit (GameState.forColor Examples.en_passant_position
               (GameState.us Examples.en_passant_position))
    (start (plainMove Examples.d5 43)) = true ∧
  Z.testbit (GameState.forColor Examples.en_passant_position
               (GameState.us Examples.en_passant_position))
    (end_ (plainMove Examples.d5 43)) = false.
Proof.
  eapply (generated_moves_spare_own_pieces Examples.en_passant_position _
            (plainMove Examples.d5 43)).
  - apply en_passant_position_invariants.
  - intros _. split; vm_compute; reflexivity.
  - vm_compute. reflexivity.
  - apply list_elem_of_here.
Defined.

(** ** Moves of the four kinds, executed and undone *)

(** A move of one of the four kinds of the generator starts on a piece of
    the side to move and ends off that side's pieces. *)
Lemma generated_sound (st : GameState.t) (m : Move) :
  data_model_invariants st → en_passant_consistent st →
  generated st m → sound_move st m.
Proof.
  intros Hinv Hep
    [piece ends Hpiece Hbit Hends He Hp
    |from Hr Hend Hbit _ _ Hp
    |ends withoutKing Hking Hends He _ _ Hp
    |flag empty sq1 sq2 Hin Hhas Hfree _ _].
  - pose proof (word64_bit_range _ _
                  (inv_word64 st Hinv (GameState.next st) piece) Hbit) as Hs.
    apply getMoves_not_own in Hends as [Hwe Hown].
    split; [done|]. split; [by eapply word64_bit_range|].
    split; [by apply Hown|]. exists piece. split; [done|]. split.
    + intros Hne. by apply (promotion_fits_iff _ _ _ Hp) in Hne as [? _].
    + intros ->. unfold Piece.nonKing in Hpiece.
      repeat (apply elem_of_cons in Hpiece as [Hpiece|Hpiece]; [done|]).
      by apply elem_of_nil in Hpiece.
  - pose proof (word64_bit_range _ _
                  (inv_word64 st Hinv (GameState.next st) Piece.pawn) Hbit)
      as Hs.
    destruct (Hep Hr) as [Hfree _].
    rewrite occupancy_spec in Hfree. apply orb_false_iff in Hfree as [? ?].
    split; [done|]. rewrite Hend.
    split; [unfold Square.inRange in Hr; by apply bool_decide_eq_true in Hr|].
    split; [unfold GameState.us; by destruct (GameState.next st)|].
    exists Piece.pawn. by repeat split.
  - pose proof (word64_bit_range _ _
                  (inv_word64 st Hinv (GameState.next st) Piece.king) Hking)
      as Hs.
    unfold GameState.getMoves' in Hends.
    pose proof Hends as Hown. apply getMoves_not_own in Hown as [Hwe Hown].
    destruct (getMoves_king_table _ _ _ _ _ _ Hends He) as (t & Ht & Hte).
    destruct (king_step_not_castle _ _ _ Ht Hte) as (? & ? & ? & ?).
    split; [done|]. split; [by eapply word64_bit_range|].
    split; [by apply Hown|]. exists Piece.king.
    split; [done|]. split; [by rewrite Hp|]. intros _.
    destruct m as [s e p]. simpl in *. subst p. by split_and!.
  - destruct (inv_castling st Hinv) as (Hwk & Hwq & Hbk & Hbq).
    unfold castlings in Hin.
    apply elem_of_cons in Hin as [Hin|Hin].
    { injection Hin as Hnext -> -> _ _ ->.
      eapply (castle_move_sound _ _ _ Square.e1 Square.a1 Square.d1 Square.c1);
        try done; try reflexivity.
      unfold castle_ready. split_and!; intros Heq; try discriminate Heq.
      split_and!; [done|by destruct (Hwq Hhas)
                  |by apply (free_squares st 0xe Square.d1)]. }
    apply elem_of_cons in Hin as [Hin|Hin].
    { injection Hin as Hnext -> -> _ _ ->.
      eapply (castle_move_sound _ _ _ Square.e1 Square.h1 Square.f1 Square.g1);
        try done; try reflexivity.
      unfold castle_ready. split_and!; intros Heq; try discriminate Heq.
      split_and!; [done|by destruct (Hwk Hhas)
                  |by apply (free_squares st 0x60 Square.f1)]. }
    apply elem_of_cons in Hin as [Hin|Hin].
    { injection Hin as Hnext -> -> _ _ ->.
      eapply (castle_move_sound _ _ _ Square.e8 Square.a8 Square.d8 Square.c8);
        try done; try reflexivity.
      unfold castle_ready. split_and!; intros Heq; try discriminate Heq.
      split_and!; [done|by destruct (Hbq Hhas)
                  |by apply (free_squares st 0xe00000000000000 Square.d8)]. }
    apply elem_of_cons in Hin as [Hin|Hin]; [|by apply elem_of_nil in Hin].
    injection Hin as Hnext -> -> _ _ ->.
    eapply (castle_move_sound _ _ _ Square.e8 Square.h8 Square.f8 Square.g8);
      try done; try reflexivity.
    unfold castle_ready. split_and!; intros Heq; try discriminate Heq.
    split_and!; [done|by destruct (Hbk Hhas)
                |by apply (free_squares st 0x6000000000000000 Square.f8)].
Qed.

(** A move of the generator's list is of one of its four kinds. *)
Lemma listed_generated (st : GameState.t) (m : Move) :
  boards_word64 st →
  generated st m ∨ (∃ l, generateLegalMoves st = Some l ∧ m ∈ l) →
  generated st m.
Proof.
  intros Hw [Hgen|(l & Hl & Hm)]; [done|].
  pose proof (generateLegalMoves_shape st Hw l Hl) as Hall.
  rewrite Forall_forall in Hall. by apply Hall.
Qed.

(** The invariants of a concrete position in which castling rights are
    held, by evaluation. *)
Ltac check_invariants_with_rights :=
  split;
  [ intros [] []; vm_compute; (split; [discriminate|reflexivity])
  | intros c k c' k' Hne; destruct c, k, c', k';
      first [ reflexivity | exfalso; apply Hne; reflexivity ]
  | intros []; vm_compute; reflexivity
  | first [ left; reflexivity
          | right; split; [reflexivity|];
            first [ left; reflexivity | right; reflexivity ] ]
  | split_and!; intros _; split; vm_compute; reflexivity
  | vm_compute; discriminate ].

Lemma castling_position_invariants : data_model_invariants castling_position.
Proof. check_invariants_with_rights. Qed.

Lemma initial_invariants : data_model_invariants GameState.initial.
Proof. check_invariants_with_rights. Qed.

Lemma castling_generated : generated castling_position wkCastle.
Proof.
  apply (by_castling castling_position wkCastle
           CastlingRights.whiteKingSide 0x60 Square.f1 Square.g1).
  - apply list_elem_of_further, list_elem_of_here.
  - vm_compute. reflexivity.
  - vm_compute. reflexivity.
  - vm_compute. reflexivity.
  - vm_compute. reflexivity.
Qed.

(** C2 (as the code has it): in a position that satisfies the invariants
    of the data model and whose en-passant square, if set, is free and has
    the enemy pawn it stands for behind it, [executeMove] runs without
    undefined behaviour and [undoMove] then gives back the position itself
    (the twelve boards, the side to move, the castling rights, the
    en-passant square, the half-move counter and the undo journal), for
    every move of the list of [generateLegalMoves], for every move of one
    of the four kinds the generator enters (castling among them), whether
    or not the generator itself runs into an undefined shift there, and
    more generally for every move that starts on a piece of the side to
    move, ends on the board off that side's pieces, promotes a pawn only
    and castles only with the rook at home and its destination free. *)
Theorem execute_undo_round_trip (st : GameState.t) (m : Move) :
  data_model_invariants st → en_passant_consistent st →
  sound_move st m ∨ generated st m ∨
  (∃ l, generateLegalMoves st = Some l ∧ m ∈ l) →
  ∃ st', GameState.executeMove st m = Some st' ∧
         GameState.undoMove st' = Some st.
Proof.
  intros Hinv Hep Hm. apply sound_move_round_trip; [done|done|].
  destruct Hm as [Hm|Hm]; [done|].
  apply generated_sound; [done|done|].
  by apply listed_generated; [apply Hinv|].
Qed.

Lemma execute_undo_round_trip_witness :
  (∃ st', GameState.executeMove GameState.initial
            (plainMove Examples.e2 Examples.e4) = Some st' ∧
          GameState.undoMove st' = Some GameState.initial) ∧
  (∃ st', GameState.executeMove castling_position wkCastle = Some st' ∧
          GameState.undoMove st' = Some castling_position) ∧
  (∃ st', GameState.executeMove Examples.en_passant_position
            (plainMove Examples.d5 43) = Some st' ∧
          GameState.undoMove st' = Some Examples.en_passant_position).
Proof.
  split_and!.
  - apply (execute_undo_round_trip GameState.initial
             (plainMove Examples.e2 Examples.e4)).
    + apply initial_invariants.
    + intros H. vm_compute in H. discriminate H.
    + left. split; [by compute|]. split; [by compute|].
      split; [vm_compute; reflexivity|]. exists Piece.pawn.
      split; [vm_compute; reflexivity|]. split; [done|]. intros [=].
  - apply (execute_undo_round_trip castling_position wkCastle).
    + apply castling_position_invariants.
    + intros H. vm_compute in H. discriminate H.
    + right. left. apply castling_generated.
  - apply (execute_undo_round_trip Examples.en_passant_position
             (plainMove Examples.d5 43)).
    + apply en_passant_position_invariants.
    + intros _. split; vm_compute; reflexivity.
    + right. right. eexists. split; [vm_compute; reflexivity|].
      apply list_elem_of_here.
Defined.

(** X16: in a position that satisfies the invariants of the data model and
    whose en-passant square, if set, is free and has the pawn it stands for
    behind it, every move of one of the four kinds the generator enters
    (castling among them), and so every move of the list of
    [generateLegalMoves], that does not take the king is executed without
    undefined behaviour and leaves a position of the same class: the
    boards are disjoint 64-bit words with one king each, the castling
    rights left have king and rook at home, the counter is not negative,
    and a new en-passant square lies on rank 2 or 5, is free and has the
    pawn that made the double step behind it. *)
Theorem generated_moves_keep_invariants (st : GameState.t) (m : Move) :
  data_model_invariants st → en_passant_consistent st →
  generated st m ∨ (∃ l, generateLegalMoves st = Some l ∧ m ∈ l) →
  Z.testbit (GameState.forPiece st Piece.king (GameState.them st)) (end_ m)
  = false →
  ∃ st', GameState.executeMove st m = Some st' ∧
         data_model_invariants st' ∧ en_passant_consistent st'.
Proof.
  intros Hinv Hep Hm Hnoking.
  apply (listed_generated st m (inv_word64 st Hinv)) in Hm.
  apply generated_move_closure; try done. by apply generated_sound.
Qed.

Lemma generated_moves_keep_invariants_witness :
  (∃ st', GameState.executeMove castling_position wkCastle = Some st' ∧
          data_model_invariants st' ∧ en_passant_consistent st') ∧
  (∃ st', GameState.executeMove Examples.en_passant_position
            (plainMove Examples.d5 43) = Some st' ∧
          data_model_invariants st' ∧ en_passant_consistent st').
Proof.
  split.
  - apply (generated_moves_keep_invariants castling_position wkCastle).
    + apply castling_position_invariants.
    + intros H. vm_compute in H. discriminate H.
    + left. apply castling_generated.
    + vm_compute. reflexivity.
  - apply (generated_moves_keep_invariants Examples.en_passant_position
             (plainMove Examples.d5 43)).
    + apply en_passant_position_invariants.
    + intros _. split; vm_compute; reflexivity.
    + right. eexists. split; [vm_compute; reflexivity|].
      apply list_elem_of_here.
    + vm_compute. reflexivity.
Defined.
